(** * The session-state dataset pipeline of [src/app.py]

    A shallow embedding of the Streamlit script: the session dictionary,
    the frames it refers to, the cleaning operations and the menu
    dispatch, followed by the properties of the specification.

    How the script is read:
    - Frames are objects in a store and the session slots hold references
      to them, so that [df.dropna(inplace=True)] and [df[col] = ...] are
      seen through every reference to the same frame.
    - float64 cells are IEEE 754 binary64 values ([SpecFloat] with
      precision 53); int64 cells are integers with wrap-around.
    - A run is a computation over the world (session, store, memory log,
      page) that ends normally or with a Python exception.
    - The collaborators imported from [utils] are not part of the
      sources: [refresh_data] and the two pandas readers are parameters,
      the memory log follows the specification, and the stage functions
      are recorded on the page with the dataset they are handed.  What
      a collaborator does with the frame it is handed, to the session or
      to the log, and whether it returns at all, is not modelled; the
      properties below are about the statements of the file itself.
    - The [except] clause of line 141 stands one indentation level to the
      left of the [try] of line 127, which Python does not accept: [app]
      is the file as it stands, refused at line 141 before any statement
      runs.  [upload_branch], [dispatch] and [run_script] read the clause,
      the only handler in the file, as the handler of that [try], with
      lines 142-183 as its body; what is proved of them is proved of the
      statements as they are written, not of an execution of the file. *)

From Stdlib Require Import ZArith String SpecFloat.
From stdpp Require Import base gmap strings list.

Local Open Scope string_scope.
Local Open Scope list_scope.
Local Open Scope Z_scope.

(** ** float64 and int64 cells *)

Module F64.

(** IEEE 754 binary64, the dtype pandas names [float64]. *)
Definition prec : Z := 53.
Definition emax : Z := 1024.

Definition sub : spec_float → spec_float → spec_float := SFsub prec emax.
Definition div : spec_float → spec_float → spec_float := SFdiv prec emax.
Definition ltb : spec_float → spec_float → bool := SFltb.
Definition valid : spec_float → bool := valid_binary prec emax.

(** Conversion of an integer, as numpy does before a true division. *)
Definition of_Z (z : Z) : spec_float := binary_normalize prec emax z 0 false.

Definition is_nan (x : spec_float) : bool :=
  match x with S754_nan => true | _ => false end.

Definition is_zero (x : spec_float) : bool :=
  match x with S754_zero _ => true | _ => false end.

Definition zero : spec_float := S754_zero false.
Definition one : spec_float := Eval vm_compute in of_Z 1.

(** [Series.min()] and [Series.max()] skip NaN; a column without any
    other value gives NaN. *)
Definition min_step (acc x : spec_float) : spec_float :=
  if is_nan x then acc
  else if is_nan acc then x
  else if ltb x acc then x else acc.

Definition max_step (acc x : spec_float) : spec_float :=
  if is_nan x then acc
  else if is_nan acc then x
  else if ltb acc x then x else acc.

Definition col_min (xs : list spec_float) : spec_float :=
  foldl min_step S754_nan xs.
Definition col_max (xs : list spec_float) : spec_float :=
  foldl max_step S754_nan xs.

(** Two cells that print the same: equal, or zeros of either sign. *)
Definition same (x y : spec_float) : Prop :=
  x = y ∨ (is_zero x = true ∧ is_zero y = true).

End F64.

Module I64.

(** int64 arithmetic wraps around. *)
Definition wrap (z : Z) : Z := (z + 2 ^ 63) mod 2 ^ 64 - 2 ^ 63.
Definition sub (x y : Z) : Z := wrap (x - y).

Definition col_min (x : Z) (xs : list Z) : Z := foldl Z.min x xs.
Definition col_max (x : Z) (xs : list Z) : Z := foldl Z.max x xs.

End I64.

(** ** Frames *)

(** A column is a Series of one dtype.  Missing cells are NaN in a
    float64 column and [None] in an object column; an int64 column has
    none. *)
Inductive column :=
| CInt64 (xs : list Z)
| CFloat64 (xs : list spec_float)
| CObject (xs : list (option string)).

Record DataFrame := mkFrame {
  index : list Z;                      (* row labels *)
  columns : list (string * column)     (* in column order *)
}.

Definition col_len (c : column) : nat :=
  match c with
  | CInt64 xs => length xs
  | CFloat64 xs => length xs
  | CObject xs => length xs
  end.

(** Every column has one cell per row label. *)
Definition well_formed (d : DataFrame) : Prop :=
  Forall (λ nc, col_len nc.2 = length (index d)) (columns d).

(** *** [df.dropna(inplace=True)] *)

Definition col_notna (c : column) : list bool :=
  match c with
  | CInt64 xs => (λ _, true) <$> xs
  | CFloat64 xs => (λ x, negb (F64.is_nan x)) <$> xs
  | CObject xs => (λ o, bool_decide (is_Some o)) <$> xs
  end.

Definition mask_and (m1 m2 : list bool) : list bool := zip_with andb m1 m2.

(** The rows that survive: no missing cell in any column. *)
Definition keep_mask (d : DataFrame) : list bool :=
  foldl (λ acc nc, mask_and acc (col_notna nc.2))
        ((λ _, true) <$> index d) (columns d).

Fixpoint take {A} (mask : list bool) (xs : list A) : list A :=
  match mask, xs with
  | b :: mask', x :: xs' => if b then x :: take mask' xs' else take mask' xs'
  | _, _ => []
  end.

Definition col_take (mask : list bool) (c : column) : column :=
  match c with
  | CInt64 xs => CInt64 (take mask xs)
  | CFloat64 xs => CFloat64 (take mask xs)
  | CObject xs => CObject (take mask xs)
  end.

Definition dropna (d : DataFrame) : DataFrame :=
  let mask := keep_mask d in
  {| index := take mask (index d);
     columns := (λ nc, (nc.1, col_take mask nc.2)) <$> columns d |}.

Definition no_missing (d : DataFrame) : Prop :=
  Forall (λ nc, Forall (λ b, b = true) (col_notna nc.2)) (columns d).

(** *** Min-max scaling of one column

    [min_val = df[col].min(); max_val = df[col].max();
     df[col] = (df[col] - min_val) / (max_val - min_val)] *)

Definition scale_float (xs : list spec_float) : list spec_float :=
  let min_val := F64.col_min xs in
  let max_val := F64.col_max xs in
  (λ x, F64.div (F64.sub x min_val) (F64.sub max_val min_val)) <$> xs.

(** On int64 the subtractions stay in int64; [/] is a true division,
    carried out in float64 on the converted operands.  An empty Series
    has a NaN minimum and stays empty. *)
Definition scale_int (xs : list Z) : list spec_float :=
  match xs with
  | [] => []
  | x0 :: rest =>
      let min_val := I64.col_min x0 rest in
      let max_val := I64.col_max x0 rest in
      (λ x, F64.div (F64.of_Z (I64.sub x min_val))
                    (F64.of_Z (I64.sub max_val min_val))) <$> xs
  end.

(** [select_dtypes(include=['float64', 'int64'])] *)
Definition is_numeric (c : column) : bool :=
  match c with
  | CInt64 _ | CFloat64 _ => true
  | CObject _ => false
  end.

Definition numeric_cols (d : DataFrame) : list string :=
  (filter (λ nc, is_numeric nc.2 = true) (columns d)).*1.

(** Reading and writing one column, [df[col]] and [df[col] = ...]. *)
Fixpoint get_col (cols : list (string * column)) (col : string) : option column :=
  match cols with
  | [] => None
  | (n, c) :: rest => if String.eqb n col then Some c else get_col rest col
  end.

(** Assignment replaces the column in place, or appends a new one. *)
Fixpoint set_col (cols : list (string * column)) (col : string) (c : column)
  : list (string * column) :=
  match cols with
  | [] => [(col, c)]
  | (n, c0) :: rest =>
      if String.eqb n col then (n, c) :: rest else (n, c0) :: set_col rest col c
  end.

(** ** Values, exceptions and the world of one session *)

Definition loc := nat.

(** What the name [df] and the session slots hold: [None] or a reference
    to a frame.  Frames are Python objects, shared by reference. *)
Inductive value := VNone | VFrame (l : loc).

Inductive exn :=
| NameError (name : string)
| AttributeError (attr : string)      (* attribute of [None] *)
| KeyError (key : string)
| TypeError (col : string)            (* arithmetic on an object column *)
| ReadError (msg : string)            (* raised by a pandas reader *)
| Dangling (l : loc).                 (* no Python counterpart: a store
                                         without the frame referred to *)

Inductive event :=
| SidebarSuccess (msg : string)
| SidebarError (msg : string)
| SidebarRows (v : value)
| SidebarColumns (v : value)
| Warning (msg : string)
| Error (msg : string)
| Success (msg : string)
| Info (msg : string)
| InfoSteps (steps : list string)
| WriteHead (v : value)
| Call (fn : string) (arg : value)
| Report (v : value)
| ShowMemory (m : gmap string (list string)).

Record world := mkWorld {
  session_state : gmap string value;          (* st.session_state *)
  heap : gmap loc DataFrame;                   (* the frames alive *)
  memory : gmap string (list string);          (* the log of utils.memory *)
  out : list event                             (* what the page shows *)
}.

Inductive outcome (A : Type) :=
| Ok (a : A)
| Raise (e : exn).
Arguments Ok {A} a.
Arguments Raise {A} e.

Definition M (A : Type) : Type := world → outcome A * world.

Definition ret {A} (a : A) : M A := λ w, (Ok a, w).
Definition bind {A B} (k : A → M B) (m : M A) : M B :=
  λ w, match m w with
       | (Ok a, w') => k a w'
       | (Raise e, w') => (Raise e, w')
       end.
Definition raise {A} (e : exn) : M A := λ w, (Raise e, w).

(** Statements in sequence are written [x ← m; k] and [m;; k]. *)
#[global] Instance M_ret : MRet M := @ret.
#[global] Instance M_bind : MBind M := @bind.

(** [try: body  except Exception as e: handler e] *)
Definition try_except {A} (body : M A) (handler : exn → M A) : M A :=
  λ w, match body w with
       | (Ok a, w') => (Ok a, w')
       | (Raise e, w') => handler e w'
       end.

Definition when (b : bool) (m : M unit) : M unit := if b then m else ret tt.

Definition emit (e : event) : M unit :=
  λ w, (Ok tt, mkWorld (session_state w) (heap w) (memory w) ((out w ++ [e]))).

Definition get_session : M (gmap string value) := λ w, (Ok (session_state w), w).

Definition set_slot (k : string) (v : value) : M unit :=
  λ w, (Ok tt, mkWorld (<[k := v]> (session_state w)) (heap w) (memory w) (out w)).

(** A new frame object. *)
Definition alloc (d : DataFrame) : M value :=
  λ w, let l := fresh (dom (heap w)) in
       (Ok (VFrame l), mkWorld (session_state w) (<[l := d]> (heap w)) (memory w) (out w)).

(** The frame behind [df], for a method call [df.attr]. *)
Definition deref (df : value) (attr : string) : M (loc * DataFrame) :=
  match df with
  | VNone => raise (AttributeError attr)
  | VFrame l => λ w, match heap w !! l with
                     | Some d => (Ok (l, d), w)
                     | None => (Raise (Dangling l), w)
                     end
  end.

(** Mutation of the frame object itself. *)
Definition store (l : loc) (d : DataFrame) : M unit :=
  λ w, (Ok tt, mkWorld (session_state w) (<[l := d]> (heap w)) (memory w) (out w)).

(** ** The memory log *)

Module Memory.

(** Modelled from the spec: [utils/memory.py] is imported by the script
    and is not part of the sources.  [remember] associates the value
    with the key and replaces any prior association; [recall] returns
    the stored value or nothing; [clear_all_memory] removes every key;
    [show_memory] renders every pair. *)
Definition remember (key : string) (v : list string) : M unit :=
  λ w, (Ok tt, mkWorld (session_state w) (heap w) (<[key := v]> (memory w)) (out w)).

Definition recall (key : string) : M (option (list string)) :=
  λ w, (Ok (memory w !! key), w).

Definition clear_all_memory : M unit :=
  λ w, (Ok tt, mkWorld (session_state w) (heap w) ∅ (out w)).

Definition show_memory : M unit :=
  λ w, emit (ShowMemory (memory w)) w.

End Memory.

(** ** One run of the script *)

(** The keys of [menu], the options of the sidebar radio. *)
Inductive operation :=
| UploadDataset
| DataCleaning
| ExploratoryDataAnalysis
| Visualization
| FeatureEngineeringModeling
| EvaluationTuning
| ExportDataset
| GenerateReport
| PowerBIPipeline
| LiveDashboard.

Record UploadedFile := mkFile { name : string; data : string }.

(** What the widgets return in one run. *)
Record inputs := mkInputs {
  choice : operation;                       (* st.sidebar.radio *)
  uploaded_file : option UploadedFile;      (* st.file_uploader *)
  drop_clicked : bool;                      (* button "Drop Missing Values" *)
  picked : list string;                     (* the multiselect *)
  normalize_clicked : bool;                 (* button "Normalize Selected Columns" *)
  clear_clicked : bool                      (* button "Clear Memory" *)
}.

(** The names bound in the module when line 123 runs: the imports of
    lines 1-12 and the assignments of lines 17-121.  No builtin is called
    [upload_data] either. *)
Definition module_names : list string :=
  ["st"; "pd"; "clean_data"; "run_eda"; "show_visuals"; "run_modeling";
   "export_data"; "powerbi_pipeline"; "live_dashboard"; "refresh_data";
   "remember"; "recall"; "show_memory"; "clear_all_memory";
   "select_dashboard_size"; "theme"; "light_css"; "dark_css"; "menu";
   "choice"; "uploaded_file"].

(** Evaluating a global name. *)
Definition load_name (x : string) : M unit :=
  if bool_decide (x ∈ module_names) then ret tt else raise (NameError x).

(** [st.session_state.k] *)
Definition read_slot (k : string) : M value :=
  λ w, match session_state w !! k with
       | Some v => (Ok v, w)
       | None => (Raise (AttributeError k), w)
       end.

(** [s.endswith(suffix)] *)
Definition endswith (s suffix : string) : bool :=
  let n := String.length s in
  let k := String.length suffix in
  bool_decide (k ≤ n)%nat && String.eqb (substring (n - k) k s) suffix.

(** [st.multiselect] returns options only, each once, in the order they
    were picked. *)
Definition multiselect (options picks : list string) : list string :=
  remove_dups (filter (λ p, p ∈ options) picks).

Fixpoint for_each {A} (xs : list A) (body : A → M unit) : M unit :=
  match xs with
  | [] => ret tt
  | x :: rest => body x;; for_each rest body
  end.

Definition scale_column (c : column) : option column :=
  match c with
  | CInt64 xs => Some (CFloat64 (scale_int xs))
  | CFloat64 xs => Some (CFloat64 (scale_float xs))
  | CObject _ => None
  end.

(** The body of the loop of lines 158-161, on the frame [df] refers to. *)
Definition normalize_column (df : value) (col : string) : M unit :=
  ld ← deref df "__getitem__";
  match get_col (columns ld.2) col with
  | None => raise (KeyError col)
  | Some c =>
      match scale_column c with
      | None => raise (TypeError col)
      | Some c' => store ld.1 (mkFrame (index ld.2) (set_col (columns ld.2) col c'))
      end
  end.

Section Script.

(** Collaborators that are not part of the sources. *)
Variable refresh_data : world → world.
Variable read_csv read_excel : UploadedFile → DataFrame + string.
(** What the call of line 123 would return, were its name bound. *)
Variable upload_data_result : value.

(** Lines 92-95. *)
Definition maintain_dataset_state : M unit :=
  s ← get_session;
  match s !! "uploaded_df" with
  | Some v => set_slot "df" v
  | None => ret tt
  end;;
  s ← get_session;
  match s !! "cleaned_df" with
  | Some v => set_slot "df" v
  | None => ret tt
  end.

(** Lines 102-105. *)
Definition dataset_state : M unit :=
  s ← get_session;
  match s !! "df" with
  | None => set_slot "df" VNone
  | Some _ => ret tt
  end;;
  s ← get_session;
  match s !! "cleaned_df" with
  | Some v => set_slot "df" v
  | None => ret tt
  end.

(** Lines 107-113. *)
Definition sidebar_status : M unit :=
  df ← read_slot "df";
  match df with
  | VFrame _ =>
      emit (SidebarSuccess "✅ Dataset Loaded");;
      df ← read_slot "df"; emit (SidebarRows df);;
      df ← read_slot "df"; emit (SidebarColumns df)
  | VNone => emit (SidebarError "🚫 No Dataset Loaded")
  end.

(** Lines 145-183, the statements after [st.error] in the handler. *)
Definition cleaning_block (df : value) (i : inputs) : M unit :=
  steps1 ←
    (if drop_clicked i then
       ld ← deref df "dropna";
       store ld.1 (dropna ld.2);;
       emit (Success "Missing values removed!");;
       mret ["Dropped missing values"]
     else mret []);
  ld ← deref df "select_dtypes";
  let cols_to_scale := multiselect (numeric_cols ld.2) (picked i) in
  steps2 ←
    (if normalize_clicked i then
       for_each cols_to_scale (normalize_column df);;
       emit (Success "Selected columns normalized!");;
       mret (steps1 ++ ["Normalized columns: " +:+ String.concat ", " cols_to_scale])
     else mret steps1);
  set_slot "cleaned_df" df;;
  when (bool_decide (steps2 ≠ [])) (Memory.remember "cleaning_steps" steps2);;
  steps ← Memory.recall "cleaning_steps";
  match steps with
  | Some (s :: rest) => emit (InfoSteps (s :: rest))
  | _ => mret tt
  end;;
  Memory.show_memory;;
  when (clear_clicked i)
    (Memory.clear_all_memory;; emit (Success "Memory cleared.")).

(** Lines 128-139, the body of [try].  Only the two readers raise, and
    they raise before [df] is bound again. *)
Definition try_block (f : UploadedFile) : M unit :=
  df ←
    (if endswith (name f) ".csv" then
       match read_csv f with
       | inl d => alloc d
       | inr msg => raise (ReadError msg)
       end
     else if endswith (name f) ".xlsx" then
       match read_excel f with
       | inl d => alloc d
       | inr msg => raise (ReadError msg)
       end
     else
       emit (Warning "⚠️ Please upload a CSV or Excel file.");;
       mret VNone);
  match df with
  | VNone => mret tt
  | VFrame _ =>
      set_slot "uploaded_df" df;;
      emit (Success "✅ File uploaded and saved successfully!");;
      emit (WriteHead df)
  end.

Definition exn_message (e : exn) : string :=
  match e with
  | NameError x => "name '" +:+ x +:+ "' is not defined"
  | AttributeError a => "'NoneType' object has no attribute '" +:+ a +:+ "'"
  | KeyError k => "'" +:+ k +:+ "'"
  | TypeError _ => "unsupported operand type(s)"
  | ReadError msg => msg
  | Dangling _ => ""
  end.

(** Lines 141-183.  The [except] clause is written one level to the
    left of its [try]; it is the only handler of the file and is read as
    the handler of that [try].  Inside it [df] still has the value of
    line 123. *)
Definition except_handler (df : value) (i : inputs) (e : exn) : M unit :=
  emit (Error ("❌ Error reading file: " ++ exn_message e));;
  cleaning_block df i.

(** Lines 123-183. *)
Definition upload_branch (i : inputs) : M unit :=
  load_name "upload_data";;
  let df := upload_data_result in
  match uploaded_file i with
  | Some f => try_except (try_block f) (except_handler df i)
  | None => mret tt
  end.

(** A stage guarded by [st.session_state.df is not None]. *)
Definition guarded_stage (fn : string) (warning : string) : M unit :=
  df ← read_slot "df";
  match df with
  | VFrame _ => df ← read_slot "df"; emit (Call fn df)
  | VNone => emit (Warning warning)
  end.

(** A stage guarded by ["cleaned_df" in st.session_state]. *)
Definition cleaned_stage (fn : string) (warning : string) : M unit :=
  s ← get_session;
  match s !! "cleaned_df" with
  | Some _ => df ← read_slot "cleaned_df"; emit (Call fn df)
  | None => emit (Warning warning)
  end.

(** Lines 231-248. *)
Definition generate_report : M unit :=
  df ← read_slot "df";
  match df with
  | VFrame _ =>
      df ← read_slot "df"; emit (Report df);;
      emit (Success "✅ Report Ready — You can export or take screenshots.")
  | VNone => emit (Warning "⚠️ Upload and clean a dataset before generating the report.")
  end.

(** Lines 122-248, the [if]/[elif] chain; no branch tests for
    "Data Cleaning". *)
Definition dispatch (i : inputs) : M unit :=
  match choice i with
  | UploadDataset => upload_branch i
  | ExploratoryDataAnalysis =>
      guarded_stage "run_eda" "⚠️ Please upload a dataset first."
  | Visualization =>
      guarded_stage "show_visuals" "⚠️ Please upload a dataset first."
  | FeatureEngineeringModeling =>
      guarded_stage "run_modeling" "⚠️ Please upload a dataset first."
  | EvaluationTuning =>
      emit (Info "📌 Model evaluation & tuning is handled during modeling. See results after training.")
  | ExportDataset =>
      guarded_stage "export_data" "⚠️ Please upload a dataset first."
  | PowerBIPipeline =>
      cleaned_stage "powerbi_pipeline" "⚠️ Please upload and clean your dataset first."
  | LiveDashboard =>
      cleaned_stage "live_dashboard" "Please upload and clean your dataset first."
  | GenerateReport => generate_report
  | DataCleaning => mret tt
  end.

(** Lines 92-113, the statements every run starts with. *)
Definition prelude : M unit :=
  maintain_dataset_state;;
  (λ w, (Ok tt, refresh_data w));;
  dataset_state;;
  sidebar_status.

(** Lines 92-248. *)
Definition run_script (i : inputs) : M unit :=
  prelude;;
  dispatch i.

End Script.

(** ** The vocabulary of the specification *)

(** The current dataset as the specification resolves it: [cleaned] if it
    exists, otherwise [uploaded], otherwise none. *)
Definition current (s : gmap string value) : value :=
  match s !! "cleaned_df" with
  | Some v => v
  | None => match s !! "uploaded_df" with
            | Some v => v
            | None => VNone
            end
  end.

(** The [df] slot is only ever a copy of one of the two others: while
    they are both missing it is missing too, or holds [None]. *)
Definition df_is_copy (s : gmap string value) : Prop :=
  s !! "cleaned_df" = None → s !! "uploaded_df" = None →
  s !! "df" = None ∨ s !! "df" = Some VNone.

(** The stages that read [st.session_state.df]. *)
Definition reads_df (c : operation) : bool :=
  match c with
  | ExploratoryDataAnalysis | Visualization | FeatureEngineeringModeling
  | ExportDataset | GenerateReport => true
  | _ => false
  end.

(** The stages that read [st.session_state.cleaned_df]. *)
Definition reads_cleaned (c : operation) : bool :=
  match c with
  | PowerBIPipeline | LiveDashboard => true
  | _ => false
  end.

(** The dataset a stage was handed, read off the page: the argument of
    the collaborator called, or of the report; [None] when there was no
    such call. *)
Fixpoint exposed (evs : list event) : value :=
  match evs with
  | [] => VNone
  | Call _ v :: _ => v
  | Report v :: _ => v
  | _ :: rest => exposed rest
  end.

(** What a computation adds to the page. *)
Definition shown {A} (m : M A) (w : world) : list event :=
  drop (length (out w)) (out (m w).2).

(** Same frames, cell by cell up to the sign of zero. *)
Definition same_cells (xs ys : list spec_float) : Prop := Forall2 F64.same xs ys.

(** [covers m n]: the mask [m] is no longer than [n] and keeps only
    positions that [n] keeps. *)
Fixpoint covers (m n : list bool) : Prop :=
  match m, n with
  | [], _ => True
  | b :: m', c :: n' => (b = true → c = true) ∧ covers m' n'
  | _ :: _, [] => False
  end.

(** ** Minimum and maximum of a Series, as properties *)

(** A value of the column that is not NaN and that no value of the
    column is below (above). *)
Definition float_minimum (mn : spec_float) (xs : list spec_float) : Prop :=
  mn ∈ xs ∧ F64.is_nan mn = false ∧ ∀ y, y ∈ xs → F64.ltb y mn = false.

Definition float_maximum (mx : spec_float) (xs : list spec_float) : Prop :=
  mx ∈ xs ∧ F64.is_nan mx = false ∧ ∀ y, y ∈ xs → F64.ltb mx y = false.

Definition int_minimum (mn : Z) (xs : list Z) : Prop :=
  mn ∈ xs ∧ ∀ y, y ∈ xs → mn ≤ y.

Definition int_maximum (mx : Z) (xs : list Z) : Prop :=
  mx ∈ xs ∧ ∀ y, y ∈ xs → y ≤ mx.

(** [c'] is [c] with each value [x] replaced by
    [(x - min) / (max - min)], for the minimum and the maximum of [c]
    itself, in the arithmetic of the dtype of [c]. *)
Definition min_max_scaled (c c' : column) : Prop :=
  match c with
  | CFloat64 xs =>
      ∃ mn mx,
        (Exists (λ x, F64.is_nan x = false) xs →
         float_minimum mn xs ∧ float_maximum mx xs)
        ∧ c' = CFloat64 ((λ x, F64.div (F64.sub x mn) (F64.sub mx mn)) <$> xs)
  | CInt64 xs =>
      ∃ mn mx,
        (xs ≠ [] → int_minimum mn xs ∧ int_maximum mx xs)
        ∧ c' = CFloat64 ((λ x, F64.div (F64.of_Z (I64.sub x mn))
                                       (F64.of_Z (I64.sub mx mn))) <$> xs)
  | CObject _ => False
  end.

(** Column names are not repeated. *)
Definition distinct_names (d : DataFrame) : Prop := NoDup (columns d).*1.

(** The descriptions one invocation of the cleaning block accumulates,
    [cols] being the columns selected for scaling. *)
Definition descriptions (i : inputs) (cols : list string) : list string :=
  (if drop_clicked i then ["Dropped missing values"] else [])
  ++ (if normalize_clicked i
      then ["Normalized columns: " +:+ String.concat ", " cols] else []).

(** ** Rounding to float64

    What [SpecFloat] does when it rounds an exact mantissa, written with
    division and remainder, and the value of a cell as a whole number of
    units of 2^-1074. *)

(** The record after [k] one-bit shifts of the mantissa [m]: what is
    left, the last bit dropped and whether any bit dropped before it was
    set. *)
Definition shifted (m : Z) (k : Z) : shr_record :=
  if Z.eqb k 0 then Build_shr_record m false false
  else Build_shr_record (m / 2 ^ k) (Z.testbit m (k - 1))
         (negb (Z.eqb (m mod 2 ^ (k - 1)) 0)).

(** The mantissa [m] with its [n] low bits rounded away, to nearest and
    to even on a tie. *)
Definition nearest (m n : Z) : Z :=
  round_nearest_even (shr_m (shifted m n)) (loc_of_shr_record (shifted m n)).

(** A mantissa and an exponent made into a float. *)
Definition pack (s : bool) (m e : Z) : spec_float :=
  match m with
  | 0 => S754_zero s
  | Z.pos p => if Z.leb e 971 then S754_finite s p e else S754_infinity s
  | Z.neg _ => S754_nan
  end.

(** Rounding a number of units of 2^-1074. *)
Definition round_units (u : Z) : spec_float :=
  binary_round_aux F64.prec F64.emax false u (-1074) loc_Exact.

(** The mantissa and the exponent of [round_units u]. *)
Definition round_key (u : Z) : Z * Z :=
  let n := Z.max 0 (Zdigits2 u - 53) in
  let m2 := nearest u n in
  if Z.ltb m2 (2 ^ 53) then (m2, -1074 + n) else (2 ^ 52, -1074 + n + 1).

(** The value of a float64 cell in units of 2^-1074, the least positive
    value; every finite float64 is a whole number of them. *)
Definition units (x : spec_float) : Z :=
  match x with
  | S754_finite s m e => cond_Zopp s (Z.pos m * 2 ^ (e + 1074))
  | _ => 0
  end.

Definition finite_value (x : spec_float) : bool :=
  match x with
  | S754_zero _ | S754_finite _ _ _ => true
  | _ => false
  end.

(** ** What a computation leaves alone *)

(** From [w] to [w'] the uploaded slot is still bound to the same object
    and every frame other than the one [df] refers to is as it was. *)
Definition untouched (df : value) (w w' : world) : Prop :=
  session_state w' !! "uploaded_df" = session_state w !! "uploaded_df"
  ∧ ∀ l, df ≠ VFrame l → heap w' !! l = heap w !! l.

Definition keeps {A} (df : value) (m : M A) : Prop :=
  ∀ w, untouched df w (m w).2.

(** ** Sample sessions *)

Definition empty_world : world := mkWorld ∅ ∅ ∅ [].

Definition no_clicks (c : operation) : inputs :=
  mkInputs c None false [] false false.

(** Three rows, one missing cell in column [x]. *)
Definition sample_frame : DataFrame :=
  mkFrame [0; 1; 2]
    [("x", CFloat64 [F64.of_Z 1; S754_nan; F64.of_Z 3]);
     ("label", CObject [Some "a"; Some "b"; Some "c"])].

(** Three complete rows, one int64 column. *)
Definition complete_frame : DataFrame :=
  mkFrame [0; 1; 2] [("x", CInt64 [0; 5; 10])].

(** A reader that rejects every file. *)
Definition failing_reader (f : UploadedFile) : DataFrame + string :=
  inr "Error tokenizing data".

(** A session in which [sample_frame] was uploaded. *)
Definition uploaded_world : world :=
  mkWorld {["uploaded_df" := VFrame 0%nat]} {[0%nat := sample_frame]} ∅ [].

(** A session with a frame and an earlier entry in the memory log. *)
Definition logged_world : world :=
  mkWorld ∅ {[0%nat := sample_frame]}
    {["cleaning_steps" := ["Dropped missing values"]]} [].

(** The largest float64, about 1.797e308. *)
Definition max_float : spec_float := S754_finite false (2 ^ 53 - 1) 971.

(** ** The views of the report *)

(** The dtype of a column, by the name [select_dtypes] knows it. *)
Definition dtype (c : column) : string :=
  match c with
  | CInt64 _ => "int64"
  | CFloat64 _ => "float64"
  | CObject _ => "object"
  end.

(** [df.shape] *)
Definition shape (d : DataFrame) : nat * nat :=
  (length (index d), length (columns d)).

(** [df.select_dtypes(include=...).columns] *)
Definition select_dtypes (include : list string) (d : DataFrame) : list string :=
  (filter (λ nc, dtype nc.2 ∈ include) (columns d)).*1.

(** [df.isnull().sum()], line 244: the missing cells of each column,
    counted. *)
Definition isnull_sum (d : DataFrame) : list (string * nat) :=
  (λ nc, (nc.1, length (filter (λ b, b = false) (col_notna nc.2)))) <$> columns d.

(** The Feature Summary of lines 238-241: the number of columns, the
    categorical and the numeric ones. *)
Definition feature_summary (d : DataFrame) : nat * list string * list string :=
  ((shape d).2, select_dtypes ["object"] d, select_dtypes ["int64"; "float64"] d).

(** ** The menu *)

(** The dictionary of lines 75-87: the options of the sidebar radio and
    the title shown for each. *)
Definition menu : list (string * string) :=
  [("📁 Upload Dataset", "Upload Dataset");
   ("🧹 Data Cleaning", "Data Cleaning");
   ("📊 Exploratory Data Analysis", "Exploratory Data Analysis");
   ("📈 Visualization", "Visualization");
   ("🧠 Feature Engineering & Modeling", "Feature Engineering & Modeling");
   ("📌 Evaluation & Tuning", "Evaluation & Tuning");
   ("⬇️ Export Dataset", "Export Dataset");
   ("📝 Generate Report", "Generate Report");
   ("📊 Power BI Pipeline", "Power BI");
   ("📡 Live Dashboard", "Dashboard")].

(** The option that stands for each operation. *)
Definition label (o : operation) : string :=
  match o with
  | UploadDataset => "📁 Upload Dataset"
  | DataCleaning => "🧹 Data Cleaning"
  | ExploratoryDataAnalysis => "📊 Exploratory Data Analysis"
  | Visualization => "📈 Visualization"
  | FeatureEngineeringModeling => "🧠 Feature Engineering & Modeling"
  | EvaluationTuning => "📌 Evaluation & Tuning"
  | ExportDataset => "⬇️ Export Dataset"
  | GenerateReport => "📝 Generate Report"
  | PowerBIPipeline => "📊 Power BI Pipeline"
  | LiveDashboard => "📡 Live Dashboard"
  end.

(** [menu[choice]], line 118. *)
Fixpoint getitem (m : list (string * string)) (k : string) : option string :=
  match m with
  | [] => None
  | (k0, v) :: rest => if String.eqb k0 k then Some v else getitem rest k
  end.

(** The tests [choice == "..."] of the [if]/[elif] chain, in the order of
    lines 122, 186, 192, 198, 204, 207, 213, 221, 231. *)
Definition chain : list (string * operation) :=
  [("📁 Upload Dataset", UploadDataset);
   ("📊 Exploratory Data Analysis", ExploratoryDataAnalysis);
   ("📈 Visualization", Visualization);
   ("🧠 Feature Engineering & Modeling", FeatureEngineeringModeling);
   ("📌 Evaluation & Tuning", EvaluationTuning);
   ("⬇️ Export Dataset", ExportDataset);
   ("📊 Power BI Pipeline", PowerBIPipeline);
   ("📡 Live Dashboard", LiveDashboard);
   ("📝 Generate Report", GenerateReport)].

(** The branch a choice runs: the first test that holds, if any. *)
Fixpoint branch_of (tests : list (string * operation)) (choice : string)
  : option operation :=
  match tests with
  | [] => None
  | (k, o) :: rest => if String.eqb choice k then Some o else branch_of rest choice
  end.

(** ** The dataset of a run *)

(** What lines 92-105 leave in the [df] slot: the cleaned dataset, else
    the uploaded one, else what the slot held, else [None]. *)
Definition resolved_df (s : gmap string value) : value :=
  match s !! "cleaned_df" with
  | Some c => c
  | None =>
      match s !! "uploaded_df" with
      | Some u => u
      | None => default VNone (s !! "df")
      end
  end.

(** ** The file as Python reads it *)

(** How a logical line starts, as far as the block structure goes. *)
Inductive keyword :=
| KTry | KExcept | KFinally | KIf | KElif | KElse | KFor | KWith | KSimple.

(** A logical line: its number in the file, the column of its first
    token and how it starts.  Blank lines and comments are no logical
    lines, and a string or a dictionary that runs over several lines is
    part of the line it starts on. *)
Record line := mkLine { lineno : nat; indent : nat; opens : keyword }.

(** The logical lines of [src/app.py], all 132 of them. *)
Definition source_lines : list line :=
  [mkLine 1 0 KSimple; mkLine 2 0 KSimple; mkLine 3 0 KSimple;
   mkLine 4 0 KSimple; mkLine 5 0 KSimple; mkLine 6 0 KSimple;
   mkLine 7 0 KSimple; mkLine 8 0 KSimple; mkLine 9 0 KSimple;
   mkLine 10 0 KSimple; mkLine 11 0 KSimple; mkLine 12 0 KSimple;
   mkLine 17 0 KSimple; mkLine 19 0 KSimple; mkLine 28 0 KSimple;
   mkLine 41 0 KSimple; mkLine 46 0 KSimple; mkLine 69 0 KSimple;
   mkLine 70 0 KSimple; mkLine 75 0 KSimple; mkLine 88 0 KSimple;
   mkLine 92 0 KIf; mkLine 93 4 KSimple; mkLine 94 0 KIf;
   mkLine 95 4 KSimple; mkLine 97 0 KSimple; mkLine 102 0 KIf;
   mkLine 103 4 KSimple; mkLine 104 0 KIf; mkLine 105 4 KSimple;
   mkLine 107 0 KSimple; mkLine 108 0 KIf; mkLine 109 4 KSimple;
   mkLine 110 4 KSimple; mkLine 111 4 KSimple; mkLine 112 0 KElse;
   mkLine 113 4 KSimple; mkLine 118 0 KSimple; mkLine 119 0 KSimple;
   mkLine 121 0 KSimple; mkLine 122 0 KIf; mkLine 123 4 KSimple;
   mkLine 125 4 KIf; mkLine 126 8 KSimple; mkLine 127 8 KTry;
   mkLine 128 12 KIf; mkLine 129 16 KSimple; mkLine 130 12 KElif;
   mkLine 131 16 KSimple; mkLine 132 12 KElse; mkLine 133 16 KSimple;
   mkLine 134 16 KSimple; mkLine 136 12 KIf; mkLine 137 16 KSimple;
   mkLine 138 16 KSimple; mkLine 139 16 KSimple; mkLine 141 4 KExcept;
   mkLine 142 8 KSimple; mkLine 145 8 KSimple; mkLine 148 8 KIf;
   mkLine 149 12 KSimple; mkLine 150 12 KSimple; mkLine 151 12 KSimple;
   mkLine 154 8 KSimple; mkLine 155 8 KSimple; mkLine 157 8 KIf;
   mkLine 158 12 KFor; mkLine 159 16 KSimple; mkLine 160 16 KSimple;
   mkLine 161 16 KSimple; mkLine 162 12 KSimple; mkLine 163 12 KSimple;
   mkLine 166 8 KSimple; mkLine 169 8 KIf; mkLine 170 12 KSimple;
   mkLine 172 8 KSimple; mkLine 173 8 KSimple; mkLine 175 8 KSimple;
   mkLine 176 8 KIf; mkLine 177 12 KSimple; mkLine 179 8 KSimple;
   mkLine 181 8 KIf; mkLine 182 12 KSimple; mkLine 183 12 KSimple;
   mkLine 186 0 KElif; mkLine 187 4 KIf; mkLine 188 8 KSimple;
   mkLine 189 4 KElse; mkLine 190 8 KSimple; mkLine 192 0 KElif;
   mkLine 193 4 KIf; mkLine 194 8 KSimple; mkLine 195 4 KElse;
   mkLine 196 8 KSimple; mkLine 198 0 KElif; mkLine 199 4 KIf;
   mkLine 200 8 KSimple; mkLine 201 4 KElse; mkLine 202 8 KSimple;
   mkLine 204 0 KElif; mkLine 205 4 KSimple; mkLine 207 0 KElif;
   mkLine 208 4 KIf; mkLine 209 8 KSimple; mkLine 210 4 KElse;
   mkLine 211 8 KSimple; mkLine 213 0 KElif; mkLine 214 4 KIf;
   mkLine 215 8 KSimple; mkLine 216 8 KSimple; mkLine 217 4 KElse;
   mkLine 218 8 KSimple; mkLine 221 0 KElif; mkLine 222 4 KIf;
   mkLine 223 8 KSimple; mkLine 224 8 KSimple; mkLine 225 4 KElse;
   mkLine 226 8 KSimple; mkLine 231 0 KElif; mkLine 232 4 KIf;
   mkLine 233 8 KSimple; mkLine 235 8 KWith; mkLine 236 12 KSimple;
   mkLine 238 8 KWith; mkLine 239 12 KSimple; mkLine 240 12 KSimple;
   mkLine 241 12 KSimple; mkLine 243 8 KWith; mkLine 244 12 KSimple;
   mkLine 246 8 KSimple; mkLine 247 4 KElse; mkLine 248 8 KSimple].

(** The line after the block of a header at column [c]: the first line
    that is not deeper than [c]. *)
Fixpoint after_block (c : nat) (ls : list line) : option line :=
  match ls with
  | [] => None
  | l :: rest => if Nat.leb (indent l) c then Some l else after_block c rest
  end.

(** [except] or [finally], at the column of the [try]. *)
Definition closes_try (c : nat) (l : line) : bool :=
  Nat.eqb (indent l) c
  && match opens l with KExcept | KFinally => true | _ => false end.

(** Python compiles a file before it runs any of it, and a [try] whose
    block is not followed, at the column of the [try], by [except] or
    [finally] is a syntax error at the line where the clause is missing.
    This is the one rule of the grammar the file breaks. *)
Fixpoint syntax_error (ls : list line) : option nat :=
  match ls with
  | [] => None
  | l :: rest =>
      match opens l with
      | KTry =>
          match after_block (indent l) rest with
          | Some l' =>
              if closes_try (indent l) l' then syntax_error rest
              else Some (lineno l')
          | None => Some (lineno l)
          end
      | _ => syntax_error rest
      end
  end.

(** What becomes of the file: Python refuses it at a line, or runs it. *)
Inductive verdict :=
| SyntaxError (at_line : nat)
| Ran (r : outcome unit * world).

Section Program.

Variable refresh_data : world → world.
Variable read_csv read_excel : UploadedFile → DataFrame + string.
Variable upload_data_result : value.

(** [streamlit run app.py]: the file as it stands.  [run_script] is what
    lines 92-248 would do if the file were accepted with the [except]
    clause of line 141 as the handler of the [try] of line 127. *)
Definition app (i : inputs) (w : world) : verdict :=
  match syntax_error source_lines with
  | Some n => SyntaxError n
  | None => Ran (run_script refresh_data read_csv read_excel upload_data_result i w)
  end.

End Program.

(** ** Stepping through a run *)

Ltac unfold_monad :=
  unfold mbind, M_bind, bind, mret, M_ret, ret, raise, when, emit, get_session,
    set_slot, read_slot, try_except in *.

Lemma bind_ok {A B} (m : M A) (k : A → M B) (w w' : world) (a : A) :
  m w = (Ok a, w') → (m ≫= k) w = k a w'.
Proof. intros H. unfold mbind, M_bind, bind. rewrite H. reflexivity. Qed.

Lemma bind_raise {A B} (m : M A) (k : A → M B) (w w' : world) (e : exn) :
  m w = (Raise e, w') → (m ≫= k) w = (Raise e, w').
Proof. intros H. unfold mbind, M_bind, bind. rewrite H. reflexivity. Qed.

Lemma world_eta (w : world) :
  mkWorld (session_state w) (heap w) (memory w) (out w) = w.
Proof. destruct w; reflexivity. Qed.

Section Memory_log.

(** C10: remember(k, [x]) followed by remember(k, [y]) leaves recall(k)
    equal to [y]: the second write replaces the first. *)
Theorem remember_twice_recall (k x y : string) (w : world) :
  (Memory.remember k [x];; Memory.remember k [y];; Memory.recall k) w
  = (Ok (Some [y]),
     mkWorld (session_state w) (heap w) (<[k := [y]]> (memory w)) (out w)).
Proof.
  unfold_monad. unfold Memory.remember, Memory.recall. simpl.
  rewrite insert_insert_eq, lookup_insert_eq. reflexivity.
Qed.

End Memory_log.

Section Runs.

Variable refresh_data : world → world.
Variable read_csv read_excel : UploadedFile → DataFrame + string.
Variable upload_data_result : value.

Lemma upload_data_unbound : "upload_data" ∉ module_names.
Proof. apply (bool_decide_eq_false_1 _). vm_compute. reflexivity. Qed.

Lemma maintain_dataset_state_result (w : world) :
  maintain_dataset_state w
  = (Ok tt,
     mkWorld
       match session_state w !! "cleaned_df", session_state w !! "uploaded_df" with
       | Some c, _ => <["df" := c]> (session_state w)
       | None, Some u => <["df" := u]> (session_state w)
       | None, None => session_state w
       end (heap w) (memory w) (out w)).
Proof.
  unfold maintain_dataset_state. unfold_monad. simpl.
  destruct (session_state w !! "uploaded_df") as [u|] eqn:Hu; simpl;
    [rewrite lookup_insert_ne by done|];
    destruct (session_state w !! "cleaned_df") as [c|] eqn:Hc; simpl;
    rewrite ?insert_insert_eq, ?world_eta; reflexivity.
Qed.

Lemma dataset_state_result (w : world) :
  dataset_state w
  = (Ok tt,
     mkWorld
       match session_state w !! "cleaned_df", session_state w !! "df" with
       | Some c, _ => <["df" := c]> (session_state w)
       | None, Some _ => session_state w
       | None, None => <["df" := VNone]> (session_state w)
       end (heap w) (memory w) (out w)).
Proof.
  unfold dataset_state. unfold_monad. simpl.
  destruct (session_state w !! "df") as [u|] eqn:Hu; simpl;
    [|rewrite lookup_insert_ne by done];
    destruct (session_state w !! "cleaned_df") as [c|] eqn:Hc; simpl;
    rewrite ?insert_insert_eq, ?world_eta; reflexivity.
Qed.

(** What the sidebar says of the dataset [v]. *)
Lemma sidebar_status_result (w : world) (v : value) :
  session_state w !! "df" = Some v →
  sidebar_status w
  = (Ok tt,
     mkWorld (session_state w) (heap w) (memory w)
       (out w ++ match v with
                 | VNone => [SidebarError "🚫 No Dataset Loaded"]
                 | VFrame _ => [SidebarSuccess "✅ Dataset Loaded";
                                SidebarRows v; SidebarColumns v]
                 end)).
Proof.
  intros Hdf. unfold sidebar_status. unfold_monad. simpl. rewrite Hdf.
  destruct v; simpl; repeat (rewrite Hdf; simpl);
    rewrite <- ?app_assoc; reflexivity.
Qed.

Lemma dataset_state_binds_df (w : world) :
  ∃ w' v, dataset_state w = (Ok tt, w') ∧ session_state w' !! "df" = Some v.
Proof.
  rewrite dataset_state_result.
  destruct (session_state w !! "cleaned_df") as [c|];
    [|destruct (session_state w !! "df") as [u|] eqn:Hu];
    eexists _, _; (split; [reflexivity|]); simpl;
    rewrite ?lookup_insert_eq; eauto.
Qed.

(** The statements before the dispatch never fail, whatever the session
    holds. *)
Lemma prelude_ok (w : world) : ∃ w', prelude refresh_data w = (Ok tt, w').
Proof.
  unfold prelude.
  erewrite bind_ok by apply maintain_dataset_state_result.
  erewrite bind_ok by reflexivity.
  destruct (dataset_state_binds_df
    (refresh_data
       (mkWorld
          match session_state w !! "cleaned_df", session_state w !! "uploaded_df" with
          | Some c, _ => <["df" := c]> (session_state w)
          | None, Some u => <["df" := u]> (session_state w)
          | None, None => session_state w
          end (heap w) (memory w) (out w)))) as (w1 & v & H1 & Hv).
  erewrite bind_ok by exact H1.
  rewrite (sidebar_status_result _ _ Hv). eauto.
Qed.


(** With a [refresh_data] that leaves the world alone and a [df] slot
    that is a copy, the statements before the dispatch store the current
    dataset of the specification in the [df] slot. *)
Lemma prelude_result (w : world) :
  (∀ w0, refresh_data w0 = w0) →
  df_is_copy (session_state w) →
  prelude refresh_data w
  = (Ok tt,
     mkWorld (<["df" := current (session_state w)]> (session_state w))
       (heap w) (memory w)
       (out w ++ match current (session_state w) with
                 | VNone => [SidebarError "🚫 No Dataset Loaded"]
                 | VFrame l => [SidebarSuccess "✅ Dataset Loaded";
                                SidebarRows (VFrame l); SidebarColumns (VFrame l)]
                 end)).
Proof.
  intros Hrefresh Hcopy. unfold prelude.
  erewrite bind_ok by apply maintain_dataset_state_result.
  erewrite bind_ok by (rewrite Hrefresh; reflexivity).
  erewrite bind_ok by apply dataset_state_result.
  unfold current, df_is_copy in *. simpl.
  destruct (session_state w !! "cleaned_df") as [c|] eqn:Hc.
  - rewrite lookup_insert_ne, Hc by done. rewrite insert_insert_eq.
    erewrite sidebar_status_result by (simpl; apply lookup_insert_eq).
    simpl. destruct c; reflexivity.
  - destruct (session_state w !! "uploaded_df") as [u|] eqn:Hu.
    + rewrite lookup_insert_ne, Hc, lookup_insert_eq by done.
      erewrite sidebar_status_result by (simpl; apply lookup_insert_eq).
      simpl. destruct u; reflexivity.
    + rewrite Hc. destruct (Hcopy eq_refl eq_refl) as [Hdf|Hdf]; rewrite Hdf.
      * erewrite sidebar_status_result by (simpl; apply lookup_insert_eq).
        reflexivity.
      * erewrite sidebar_status_result by (simpl; exact Hdf).
        simpl. rewrite (insert_id _ _ _ Hdf). reflexivity.
Qed.

(** The check passes exactly the files in which every [try] is followed,
    after its block and at its own column, by [except] or [finally]. *)
Lemma syntax_error_none (ls : list line) :
  syntax_error ls = None
  ↔ ∀ pre l rest,
      ls = pre ++ l :: rest → opens l = KTry →
      ∃ l', after_block (indent l) rest = Some l'
            ∧ closes_try (indent l) l' = true.
Proof.
  induction ls as [|l0 ls IH]; simpl.
  - split; [|reflexivity]. intros _ pre l rest H. destruct pre; discriminate.
  - split.
    + intros Hnone pre l rest Heq Htry.
      destruct pre as [|p pre]; simpl in Heq; injection Heq as -> ->.
      * rewrite Htry in Hnone.
        destruct (after_block (indent l) rest) as [l'|]; [|discriminate].
        exists l'. split; [reflexivity|].
        destruct (closes_try (indent l) l'); [reflexivity|discriminate].
      * apply (proj1 IH) with (pre := pre); [|reflexivity|exact Htry].
        destruct (opens p); try exact Hnone.
        destruct (after_block (indent p) (pre ++ l :: rest)) as [l'|];
          [|discriminate].
        destruct (closes_try (indent p) l'); [exact Hnone|discriminate].
    + intros Hall.
      assert (syntax_error ls = None) as Hrest.
      { apply IH. intros pre l rest -> Htry.
        apply (Hall (l0 :: pre) l rest); [reflexivity|exact Htry]. }
      destruct (opens l0) eqn:Hk; try exact Hrest.
      destruct (Hall [] l0 ls eq_refl Hk) as (l' & -> & ->). exact Hrest.
Qed.

(** The file is refused at line 141, whatever is selected. *)
Lemma file_refused (i : inputs) (w : world) :
  app refresh_data read_csv read_excel upload_data_result i w = SyntaxError 141.
Proof. reflexivity. Qed.

(** C4, as the code has it: the name upload_data is bound by no import
    and no assignment of lines 1-121, so line 123, the first statement of
    the upload branch, fails with a NameError, the world as it was, and
    nothing that follows it is reached, whatever follows; but as the file
    stands Python refuses it at line 141, before any statement runs, so
    no execution evaluates the name. *)
Theorem upload_branch_name_error (i : inputs) (w : world) :
  ("upload_data" ∉ module_names)
  ∧ (∀ rest : M unit,
       (load_name "upload_data";; rest) w = (Raise (NameError "upload_data"), w))
  ∧ app refresh_data read_csv read_excel upload_data_result i w = SyntaxError 141.
Proof.
  split; [exact upload_data_unbound|]. split.
  - intros rest. apply bind_raise. unfold load_name.
    rewrite bool_decide_eq_false_2 by exact upload_data_unbound. reflexivity.
  - apply file_refused.
Qed.

Lemma guarded_stage_result (fn warning : string) (w : world) (v : value) :
  session_state w !! "df" = Some v →
  guarded_stage fn warning w
  = (Ok tt,
     mkWorld (session_state w) (heap w) (memory w)
       (out w ++ [match v with
                  | VNone => Warning warning
                  | VFrame _ => Call fn v
                  end])).
Proof.
  intros Hdf. unfold guarded_stage. unfold_monad. simpl. rewrite Hdf.
  destruct v; simpl; rewrite ?Hdf; reflexivity.
Qed.

Lemma generate_report_result (w : world) (v : value) :
  session_state w !! "df" = Some v →
  generate_report w
  = (Ok tt,
     mkWorld (session_state w) (heap w) (memory w)
       (out w ++ match v with
                 | VNone => [Warning "⚠️ Upload and clean a dataset before generating the report."]
                 | VFrame _ => [Report v; Success "✅ Report Ready — You can export or take screenshots."]
                 end)).
Proof.
  intros Hdf. unfold generate_report. unfold_monad. simpl. rewrite Hdf.
  destruct v; simpl; rewrite ?Hdf; simpl; rewrite <- ?app_assoc; reflexivity.
Qed.

Lemma cleaned_stage_result (fn warning : string) (w : world) :
  cleaned_stage fn warning w
  = (Ok tt,
     mkWorld (session_state w) (heap w) (memory w)
       (out w ++ [match session_state w !! "cleaned_df" with
                  | Some v => Call fn v
                  | None => Warning warning
                  end])).
Proof.
  unfold cleaned_stage. unfold_monad. simpl.
  destruct (session_state w !! "cleaned_df") as [v|] eqn:Hc; simpl;
    rewrite ?Hc; reflexivity.
Qed.

Lemma shown_app {A} (m : M A) (w w' : world) (r : outcome A) (evs : list event) :
  m w = (r, w') → out w' = out w ++ evs → shown m w = evs.
Proof.
  intros Hm Hout. unfold shown. rewrite Hm. simpl. rewrite Hout.
  apply drop_app_length.
Qed.

Lemma shown_app_exposed {A} (m : M A) (w w' : world) (r : outcome A)
    (evs : list event) (v : value) :
  m w = (r, w') → out w' = out w ++ evs → exposed evs = v →
  exposed (shown m w) = v.
Proof. intros Hm Hout <-. rewrite (shown_app m w w' r evs Hm Hout). reflexivity. Qed.

(** No branch of the dispatch writes a slot. *)
Lemma dispatch_session (i : inputs) (w : world) :
  session_state (dispatch read_csv read_excel upload_data_result i w).2
  = session_state w.
Proof.
  unfold dispatch. destruct (choice i); try reflexivity.
  - unfold guarded_stage. unfold_monad. simpl.
    destruct (session_state w !! "df") as [[|l]|] eqn:Hdf; simpl; rewrite ?Hdf; reflexivity.
  - unfold guarded_stage. unfold_monad. simpl.
    destruct (session_state w !! "df") as [[|l]|] eqn:Hdf; simpl; rewrite ?Hdf; reflexivity.
  - unfold guarded_stage. unfold_monad. simpl.
    destruct (session_state w !! "df") as [[|l]|] eqn:Hdf; simpl; rewrite ?Hdf; reflexivity.
  - unfold guarded_stage. unfold_monad. simpl.
    destruct (session_state w !! "df") as [[|l]|] eqn:Hdf; simpl; rewrite ?Hdf; reflexivity.
  - unfold generate_report. unfold_monad. simpl.
    destruct (session_state w !! "df") as [[|l]|] eqn:Hdf; simpl; rewrite ?Hdf; reflexivity.
  - rewrite cleaned_stage_result. reflexivity.
  - rewrite cleaned_stage_result. reflexivity.
Qed.

(** The [df] slot stays a copy from one run to the next; it is one in
    the empty session a visit starts with. *)
Lemma df_is_copy_empty : df_is_copy ∅.
Proof. intros _ _. left. apply lookup_empty. Qed.

Lemma df_is_copy_preserved (i : inputs) (w : world) :
  (∀ w0, refresh_data w0 = w0) →
  df_is_copy (session_state w) →
  df_is_copy
    (session_state
       (run_script refresh_data read_csv read_excel upload_data_result i w).2).
Proof.
  intros Hrefresh Hcopy. unfold run_script.
  erewrite bind_ok by (apply prelude_result; assumption).
  rewrite dispatch_session. simpl.
  intros Hc Hu. rewrite lookup_insert_ne in Hc, Hu by done.
  right. unfold current. rewrite Hc, Hu. apply lookup_insert_eq.
Qed.

End Runs.

(** ** The stage branches *)

Section Stages.

Variable refresh_data : world → world.



(** C1, as the code has it: after the statements of lines 92-113, with a
    [refresh_data] that leaves the world alone and a [df] slot that is a
    copy, the branches of EDA, visualization, modeling and export and the
    branch of the report are handed the cleaned dataset if there is one,
    otherwise the uploaded one, otherwise none; the branches of the Power
    BI pipeline and of the live dashboard are handed the cleaned dataset
    or none, whatever was uploaded.  This is said of the statements as
    they are written: as the file stands it is refused and no stage
    runs. *)
Theorem stage_dataset_resolution (fn warning : string) (w : world) :
  (∀ w0, refresh_data w0 = w0) →
  df_is_copy (session_state w) →
  exposed (shown (prelude refresh_data;; guarded_stage fn warning) w)
  = current (session_state w)
  ∧ exposed (shown (prelude refresh_data;; generate_report) w)
    = current (session_state w)
  ∧ exposed (shown (prelude refresh_data;; cleaned_stage fn warning) w)
    = default VNone (session_state w !! "cleaned_df")
  ∧ ∀ read_csv read_excel upload_data_result i,
      app refresh_data read_csv read_excel upload_data_result i w
      = SyntaxError 141.
Proof.
  intros Hrefresh Hcopy.
  pose proof (prelude_result refresh_data w Hrefresh Hcopy) as Hpre.
  split; [|split; [|split; [|reflexivity]]].
  - eapply shown_app_exposed.
    + erewrite bind_ok by exact Hpre.
      apply guarded_stage_result. simpl. apply lookup_insert_eq.
    + simpl. rewrite <- app_assoc. reflexivity.
    + destruct (current (session_state w)); reflexivity.
  - eapply shown_app_exposed.
    + erewrite bind_ok by exact Hpre.
      apply generate_report_result. simpl. apply lookup_insert_eq.
    + simpl. rewrite <- app_assoc. reflexivity.
    + destruct (current (session_state w)); reflexivity.
  - eapply shown_app_exposed.
    + erewrite bind_ok by exact Hpre. apply cleaned_stage_result.
    + simpl. rewrite <- app_assoc. reflexivity.
    + simpl. rewrite lookup_insert_ne by done.
      destruct (current (session_state w));
        destruct (session_state w !! "cleaned_df"); reflexivity.
Qed.

End Stages.

(** ** Dropping rows *)

Section Dropna.

Lemma covers_refl (m : list bool) : covers m m.
Proof. induction m; simpl; auto. Qed.

Lemma covers_trans (m n p : list bool) : covers m n → covers n p → covers m p.
Proof.
  revert n p. induction m as [|b m IH]; intros [|c n] [|d p]; simpl; try tauto.
  intros [H1 H2] [H3 H4]. split; [tauto|]. eapply IH; eassumption.
Qed.

Lemma mask_and_covers_l (m n : list bool) : covers (mask_and m n) m.
Proof.
  revert n. induction m as [|b m IH]; intros [|c n]; simpl; auto.
  split; [|apply IH]. destruct b; simpl; auto.
Qed.

Lemma mask_and_covers_r (m n : list bool) : covers (mask_and m n) n.
Proof.
  revert n. induction m as [|b m IH]; intros [|c n]; simpl; auto.
  split; [|apply IH]. destruct b, c; simpl; auto.
Qed.

Lemma covers_length (m n : list bool) : covers m n → (length m ≤ length n)%nat.
Proof.
  revert n. induction m as [|b m IH]; intros [|c n]; simpl; try tauto; try lia.
  intros [_ H]. specialize (IH _ H). lia.
Qed.

Lemma take_fmap {A B} (f : A → B) (m : list bool) (xs : list A) :
  take m (f <$> xs) = f <$> take m xs.
Proof.
  revert xs. induction m as [|b m IH]; intros [|x xs]; simpl; auto.
  destruct b; simpl; rewrite IH; reflexivity.
Qed.

Lemma take_length {A} (m : list bool) (xs : list A) :
  (length m ≤ length xs)%nat → length (take m xs) = length (take m m).
Proof.
  revert xs. induction m as [|b m IH]; intros [|x xs]; simpl; try lia.
  intros H. destruct b; simpl; rewrite (IH xs) by lia; reflexivity.
Qed.

Lemma take_covers (m n : list bool) :
  covers m n → take m n = repeat true (length (take m m)).
Proof.
  revert n. induction m as [|b m IH]; intros [|c n]; simpl; try tauto.
  intros [Hb H]. destruct b; simpl; rewrite (IH _ H); [|reflexivity].
  rewrite Hb by reflexivity. reflexivity.
Qed.

Lemma take_all {A} (k : nat) (xs : list A) :
  length xs = k → take (repeat true k) xs = xs.
Proof.
  revert xs. induction k as [|k IH]; intros [|x xs]; simpl; try discriminate; auto.
  intros H. rewrite IH by lia. reflexivity.
Qed.

Lemma mask_and_all (k : nat) : mask_and (repeat true k) (repeat true k) = repeat true k.
Proof.
  unfold mask_and. induction k as [|k IH]; simpl; [reflexivity|].
  rewrite IH. reflexivity.
Qed.

Lemma fmap_const_true {A} (xs : list A) : (λ _, true) <$> xs = repeat true (length xs).
Proof. induction xs as [|x xs IH]; simpl; [reflexivity|]. f_equal. exact IH. Qed.

Lemma col_notna_length (c : column) : length (col_notna c) = col_len c.
Proof. destruct c; simpl; apply length_fmap. Qed.

Lemma col_notna_take (m : list bool) (c : column) :
  col_notna (col_take m c) = take m (col_notna c).
Proof. destruct c; simpl; rewrite take_fmap; reflexivity. Qed.

Lemma col_take_all (k : nat) (c : column) :
  col_len c = k → col_take (repeat true k) c = c.
Proof. destruct c; simpl; intros H; rewrite take_all by exact H; reflexivity. Qed.

Lemma col_take_length (m : list bool) (c : column) :
  (length m ≤ col_len c)%nat → col_len (col_take m c) = length (take m m).
Proof. destruct c; simpl; apply take_length. Qed.

(** The mask of a frame keeps no row that some column lacks or has a
    missing cell in. *)
Lemma foldl_mask_covers (cols : list (string * column)) (acc : list bool) :
  covers (foldl (λ acc nc, mask_and acc (col_notna nc.2)) acc cols) acc
  ∧ Forall (λ nc, covers (foldl (λ acc nc, mask_and acc (col_notna nc.2)) acc cols)
                    (col_notna nc.2)) cols.
Proof.
  revert acc. induction cols as [|nc cols IH]; intros acc; simpl.
  - split; [apply covers_refl|constructor].
  - destruct (IH (mask_and acc (col_notna nc.2))) as [H1 H2].
    split; [|constructor; [|exact H2]].
    + eapply covers_trans; [exact H1|apply mask_and_covers_l].
    + eapply covers_trans; [exact H1|apply mask_and_covers_r].
Qed.

Lemma keep_mask_index (d : DataFrame) :
  (length (keep_mask d) ≤ length (index d))%nat.
Proof.
  unfold keep_mask.
  destruct (foldl_mask_covers (columns d) ((λ _, true) <$> index d)) as [H _].
  apply covers_length in H. rewrite length_fmap in H. exact H.
Qed.

Lemma keep_mask_columns (d : DataFrame) :
  Forall (λ nc, covers (keep_mask d) (col_notna nc.2)) (columns d).
Proof. apply foldl_mask_covers. Qed.

Lemma foldl_mask_all (k : nat) (cols : list (string * column)) :
  Forall (λ nc, col_notna nc.2 = repeat true k) cols →
  foldl (λ acc nc, mask_and acc (col_notna nc.2)) (repeat true k) cols = repeat true k.
Proof.
  induction 1 as [|nc cols Hnc _ IH]; simpl; [reflexivity|].
  rewrite Hnc, mask_and_all. exact IH.
Qed.

(** After [dropna] every row is kept. *)
Lemma keep_mask_dropna (d : DataFrame) :
  keep_mask (dropna d) = repeat true (length (take (keep_mask d) (keep_mask d))).
Proof.
  unfold keep_mask at 1. simpl. rewrite fmap_const_true.
  rewrite take_length by apply keep_mask_index.
  apply foldl_mask_all. apply Forall_fmap.
  eapply Forall_impl; [apply keep_mask_columns|].
  intros [n c] Hc. simpl in *. rewrite col_notna_take. apply take_covers, Hc.
Qed.

Lemma all_true_repeat (m : list bool) :
  Forall (λ b, b = true) m → m = repeat true (length m).
Proof. induction 1 as [|b m Hb _ IH]; simpl; [reflexivity|]. rewrite Hb, <- IH. reflexivity. Qed.

(** C9: dropping the missing values of a frame that has none leaves it
    unchanged, and dropping them twice is dropping them once. *)
Theorem dropna_idempotent (d : DataFrame) :
  (well_formed d → no_missing d → dropna d = d)
  ∧ dropna (dropna d) = dropna d.
Proof.
  split.
  - intros Hwf Hnm.
    assert (keep_mask d = repeat true (length (index d))) as Hmask.
    { unfold keep_mask. rewrite fmap_const_true. apply foldl_mask_all.
      unfold well_formed, no_missing in *. rewrite Forall_forall in *.
      intros nc Hin. rewrite <- (Hwf nc Hin), <- col_notna_length.
      apply all_true_repeat, Hnm, Hin. }
    unfold dropna. rewrite Hmask. destruct d as [idx cols]. simpl in *. f_equal.
    + apply take_all. reflexivity.
    + rewrite <- (list_fmap_id cols) at 2. apply Forall_fmap_ext.
      unfold well_formed in Hwf. simpl in Hwf.
      eapply Forall_impl; [exact Hwf|]. intros [n c] Hc. simpl in *.
      rewrite col_take_all by exact Hc. reflexivity.
  - unfold dropna at 1. rewrite keep_mask_dropna. unfold dropna. simpl. f_equal.
    + apply take_all. apply take_length, keep_mask_index.
    + rewrite <- list_fmap_compose. apply Forall_fmap_ext.
      eapply Forall_impl; [apply keep_mask_columns|]. intros [n c] Hc. simpl in *.
      rewrite col_take_all; [reflexivity|].
      apply col_take_length. rewrite <- col_notna_length.
      apply covers_length, Hc.
Qed.

End Dropna.

(** ** Minimum, maximum and scaling *)

Section Scaling.

Lemma compare_cont_Lt_trans (p q r : positive) :
  Pos.compare_cont Eq p q = Lt → Pos.compare_cont Eq q r = Lt →
  Pos.compare_cont Eq p r = Lt.
Proof.
  change (Pos.compare_cont Eq) with Pos.compare.
  rewrite !Pos.compare_lt_iff. lia.
Qed.

Lemma compare_cont_Gt_trans (p q r : positive) :
  Pos.compare_cont Eq p q = Gt → Pos.compare_cont Eq q r = Gt →
  Pos.compare_cont Eq p r = Gt.
Proof.
  change (Pos.compare_cont Eq) with Pos.compare.
  rewrite !Pos.compare_gt_iff. lia.
Qed.

Lemma ltb_irrefl (x : spec_float) : F64.ltb x x = false.
Proof.
  unfold F64.ltb, SFltb. destruct x as [s|s| |s m e]; simpl; try reflexivity.
  - destruct s; reflexivity.
  - rewrite Z.compare_refl.
    change (Pos.compare_cont Eq m m) with (Pos.compare m m).
    rewrite Pos.compare_refl. destruct s; reflexivity.
Qed.

Lemma ltb_trans (x y z : spec_float) :
  F64.ltb x y = true → F64.ltb y z = true → F64.ltb x z = true.
Proof.
  unfold F64.ltb, SFltb.
  destruct x as [sx|sx| |sx mx ex], y as [sy|sy| |sy my ey], z as [sz|sz| |sz mz ez];
    simpl; try discriminate;
    repeat match goal with s : bool |- _ => destruct s end;
    simpl; try discriminate; try reflexivity.
  - destruct (Z.compare_spec ex ey), (Z.compare_spec ey ez), (Z.compare_spec ex ez);
      simpl; try discriminate; try reflexivity; try lia; subst.
    intros Hxy Hyz.
    destruct (Pos.compare_cont Eq mx my) eqn:E1; try discriminate.
    destruct (Pos.compare_cont Eq my mz) eqn:E2; try discriminate.
    rewrite (compare_cont_Gt_trans _ _ _ E1 E2). reflexivity.
  - destruct (Z.compare_spec ex ey), (Z.compare_spec ey ez), (Z.compare_spec ex ez);
      simpl; try discriminate; try reflexivity; try lia; subst.
    intros Hxy Hyz.
    destruct (Pos.compare_cont Eq mx my) eqn:E1; try discriminate.
    destruct (Pos.compare_cont Eq my mz) eqn:E2; try discriminate.
    rewrite (compare_cont_Lt_trans _ _ _ E1 E2). reflexivity.
Qed.

Lemma ltb_nan_l (x y : spec_float) : F64.is_nan x = true → F64.ltb x y = false.
Proof. destruct x; try discriminate. reflexivity. Qed.

Lemma ltb_nan_r (x y : spec_float) : F64.is_nan y = true → F64.ltb x y = false.
Proof. destruct y; try discriminate. destruct x; reflexivity. Qed.

(** What [foldl F64.min_step] maintains over the cells seen so far. *)
Lemma foldl_min_step (seen xs : list spec_float) (acc : spec_float) :
  (F64.is_nan acc = true ∧ Forall (λ y, F64.is_nan y = true) seen)
  ∨ float_minimum acc seen →
  (F64.is_nan (foldl F64.min_step acc xs) = true
   ∧ Forall (λ y, F64.is_nan y = true) (seen ++ xs))
  ∨ float_minimum (foldl F64.min_step acc xs) (seen ++ xs).
Proof.
  revert seen acc. induction xs as [|x xs IH]; intros seen acc Hacc; simpl.
  - rewrite app_nil_r. exact Hacc.
  - replace (seen ++ x :: xs) with ((seen ++ [x]) ++ xs)
      by (rewrite <- app_assoc; reflexivity).
    apply IH. unfold F64.min_step, float_minimum in *.
    destruct (F64.is_nan x) eqn:Hx.
    { destruct Hacc as [[Hn Hall]|(Hin & Hn & Hlow)].
      - left. split; [exact Hn|]. apply Forall_app. split; [exact Hall|].
        constructor; [exact Hx|constructor].
      - right. split; [apply elem_of_app; left; exact Hin|]. split; [exact Hn|].
        intros y Hy. apply elem_of_app in Hy as [Hy|Hy]; [apply Hlow, Hy|].
        apply list_elem_of_singleton in Hy. subst y. apply ltb_nan_l, Hx. }
    destruct Hacc as [[Hn Hall]|(Hin & Hn & Hlow)].
    { rewrite Hn. right. split; [apply elem_of_app; right; constructor|].
      split; [exact Hx|]. intros y Hy. apply elem_of_app in Hy as [Hy|Hy].
      - rewrite Forall_forall in Hall. apply ltb_nan_l, Hall, Hy.
      - apply list_elem_of_singleton in Hy. subst y. apply ltb_irrefl. }
    rewrite Hn. destruct (F64.ltb x acc) eqn:Hlt; right.
    + split; [apply elem_of_app; right; constructor|]. split; [exact Hx|].
      intros y Hy. apply elem_of_app in Hy as [Hy|Hy].
      * destruct (F64.ltb y x) eqn:Hyx; [|reflexivity].
        specialize (Hlow y Hy). rewrite (ltb_trans _ _ _ Hyx Hlt) in Hlow.
        discriminate.
      * apply list_elem_of_singleton in Hy. subst y. apply ltb_irrefl.
    + split; [apply elem_of_app; left; exact Hin|]. split; [exact Hn|].
      intros y Hy. apply elem_of_app in Hy as [Hy|Hy]; [apply Hlow, Hy|].
      apply list_elem_of_singleton in Hy. subst y. exact Hlt.
Qed.

Lemma foldl_max_step (seen xs : list spec_float) (acc : spec_float) :
  (F64.is_nan acc = true ∧ Forall (λ y, F64.is_nan y = true) seen)
  ∨ float_maximum acc seen →
  (F64.is_nan (foldl F64.max_step acc xs) = true
   ∧ Forall (λ y, F64.is_nan y = true) (seen ++ xs))
  ∨ float_maximum (foldl F64.max_step acc xs) (seen ++ xs).
Proof.
  revert seen acc. induction xs as [|x xs IH]; intros seen acc Hacc; simpl.
  - rewrite app_nil_r. exact Hacc.
  - replace (seen ++ x :: xs) with ((seen ++ [x]) ++ xs)
      by (rewrite <- app_assoc; reflexivity).
    apply IH. unfold F64.max_step, float_maximum in *.
    destruct (F64.is_nan x) eqn:Hx.
    { destruct Hacc as [[Hn Hall]|(Hin & Hn & Hup)].
      - left. split; [exact Hn|]. apply Forall_app. split; [exact Hall|].
        constructor; [exact Hx|constructor].
      - right. split; [apply elem_of_app; left; exact Hin|]. split; [exact Hn|].
        intros y Hy. apply elem_of_app in Hy as [Hy|Hy]; [apply Hup, Hy|].
        apply list_elem_of_singleton in Hy. subst y. apply ltb_nan_r, Hx. }
    destruct Hacc as [[Hn Hall]|(Hin & Hn & Hup)].
    { rewrite Hn. right. split; [apply elem_of_app; right; constructor|].
      split; [exact Hx|]. intros y Hy. apply elem_of_app in Hy as [Hy|Hy].
      - rewrite Forall_forall in Hall. apply ltb_nan_r, Hall, Hy.
      - apply list_elem_of_singleton in Hy. subst y. apply ltb_irrefl. }
    rewrite Hn. destruct (F64.ltb acc x) eqn:Hlt; right.
    + split; [apply elem_of_app; right; constructor|]. split; [exact Hx|].
      intros y Hy. apply elem_of_app in Hy as [Hy|Hy].
      * destruct (F64.ltb x y) eqn:Hxy; [|reflexivity].
        specialize (Hup y Hy). rewrite (ltb_trans _ _ _ Hlt Hxy) in Hup.
        discriminate.
      * apply list_elem_of_singleton in Hy. subst y. apply ltb_irrefl.
    + split; [apply elem_of_app; left; exact Hin|]. split; [exact Hn|].
      intros y Hy. apply elem_of_app in Hy as [Hy|Hy]; [apply Hup, Hy|].
      apply list_elem_of_singleton in Hy. subst y. exact Hlt.
Qed.

Lemma all_nan_no_value (xs : list spec_float) :
  Forall (λ y, F64.is_nan y = true) xs →
  Exists (λ x, F64.is_nan x = false) xs → False.
Proof.
  intros Hall Hex. apply Exists_exists in Hex as (x & Hin & Hx).
  rewrite Forall_forall in Hall. rewrite (Hall x Hin) in Hx. discriminate.
Qed.

(** [Series.min()] of a float64 column that has a value. *)
Lemma col_min_minimum (xs : list spec_float) :
  Exists (λ x, F64.is_nan x = false) xs → float_minimum (F64.col_min xs) xs.
Proof.
  intros Hex. unfold F64.col_min.
  destruct (foldl_min_step [] xs S754_nan) as [[_ Hall]|Hmin].
  - left. split; [reflexivity|constructor].
  - destruct (all_nan_no_value _ Hall Hex).
  - exact Hmin.
Qed.

Lemma col_max_maximum (xs : list spec_float) :
  Exists (λ x, F64.is_nan x = false) xs → float_maximum (F64.col_max xs) xs.
Proof.
  intros Hex. unfold F64.col_max.
  destruct (foldl_max_step [] xs S754_nan) as [[_ Hall]|Hmax].
  - left. split; [reflexivity|constructor].
  - destruct (all_nan_no_value _ Hall Hex).
  - exact Hmax.
Qed.

Lemma int_col_min_minimum (x : Z) (xs : list Z) :
  int_minimum (I64.col_min x xs) (x :: xs).
Proof.
  unfold I64.col_min, int_minimum. revert x.
  induction xs as [|y xs IH]; intros x; simpl.
  - split; [constructor|]. intros z Hz.
    apply list_elem_of_singleton in Hz. lia.
  - destruct (IH (Z.min x y)) as [Hin Hlow]. split.
    + apply elem_of_cons in Hin as [Hin|Hin].
      * rewrite Hin. destruct (Z.min_spec x y) as [[_ ->]|[_ ->]].
        -- constructor.
        -- constructor. constructor.
      * constructor. constructor. exact Hin.
    + pose proof (Hlow (Z.min x y) ltac:(constructor)) as Hhd.
      intros z Hz. apply elem_of_cons in Hz as [Hz|Hz]; [subst z; lia|].
      apply elem_of_cons in Hz as [Hz|Hz]; [subst z; lia|].
      apply Hlow. constructor. exact Hz.
Qed.

Lemma int_col_max_maximum (x : Z) (xs : list Z) :
  int_maximum (I64.col_max x xs) (x :: xs).
Proof.
  unfold I64.col_max, int_maximum. revert x.
  induction xs as [|y xs IH]; intros x; simpl.
  - split; [constructor|]. intros z Hz.
    apply list_elem_of_singleton in Hz. lia.
  - destruct (IH (Z.max x y)) as [Hin Hup]. split.
    + apply elem_of_cons in Hin as [Hin|Hin].
      * rewrite Hin. destruct (Z.max_spec x y) as [[_ ->]|[_ ->]].
        -- constructor. constructor.
        -- constructor.
      * constructor. constructor. exact Hin.
    + pose proof (Hup (Z.max x y) ltac:(constructor)) as Hhd.
      intros z Hz. apply elem_of_cons in Hz as [Hz|Hz]; [subst z; lia|].
      apply elem_of_cons in Hz as [Hz|Hz]; [subst z; lia|].
      apply Hup. constructor. exact Hz.
Qed.

(** Scaling a numeric column is min-max scaling over its own values. *)
Lemma scale_column_scaled (c c' : column) :
  scale_column c = Some c' → min_max_scaled c c'.
Proof.
  destruct c as [xs|xs|xs]; simpl; intros Hc; [| |discriminate];
    injection Hc as <-.
  - destruct xs as [|x xs].
    + exists 0, 0. split; [intros H; destruct H; reflexivity|reflexivity].
    + exists (I64.col_min x xs), (I64.col_max x xs). split; [|reflexivity].
      intros _. split; [apply int_col_min_minimum|apply int_col_max_maximum].
  - exists (F64.col_min xs), (F64.col_max xs). split; [|reflexivity].
    intros Hex. split; [apply col_min_minimum|apply col_max_maximum]; exact Hex.
Qed.

End Scaling.

(** ** The normalization loop *)

Section Normalize.

Lemma get_set_col_eq (D : list (string * column)) (x : string) (c : column) :
  get_col (set_col D x c) x = Some c.
Proof.
  induction D as [|[n c0] D IH]; simpl.
  - rewrite String.eqb_refl. reflexivity.
  - destruct (String.eqb n x) eqn:E; simpl; rewrite E; [reflexivity|exact IH].
Qed.

Lemma get_set_col_ne (D : list (string * column)) (x y : string) (c : column) :
  x ≠ y → get_col (set_col D x c) y = get_col D y.
Proof.
  intros Hne. induction D as [|[n c0] D IH]; simpl.
  - apply String.eqb_neq in Hne. rewrite Hne. reflexivity.
  - destruct (String.eqb n x) eqn:E; simpl.
    + apply String.eqb_eq in E. subst n.
      apply String.eqb_neq in Hne. rewrite Hne. reflexivity.
    + rewrite IH. reflexivity.
Qed.

Lemma set_col_names (D : list (string * column)) (x : string) (c c' : column) :
  get_col D x = Some c → (set_col D x c').*1 = D.*1.
Proof.
  induction D as [|[n c0] D IH]; simpl; [discriminate|].
  destruct (String.eqb n x) eqn:E; simpl; [reflexivity|].
  intros H. f_equal. exact (IH H).
Qed.

Lemma get_col_elem (D : list (string * column)) (x : string) (c : column) :
  NoDup D.*1 → (x, c) ∈ D → get_col D x = Some c.
Proof.
  induction D as [|[n c0] D IH]; simpl; intros Hnd Hin.
  - apply elem_of_nil in Hin. destruct Hin.
  - apply NoDup_cons in Hnd as [Hn Hnd].
    apply elem_of_cons in Hin as [Hin|Hin].
    + injection Hin as -> ->. rewrite String.eqb_refl. reflexivity.
    + destruct (String.eqb n x) eqn:E; [|apply IH; assumption].
      apply String.eqb_eq in E. subst n. destruct Hn.
      apply (list_elem_of_fmap_2 fst) in Hin. exact Hin.
Qed.

Lemma numeric_cols_elem (d : DataFrame) (x : string) :
  distinct_names d → x ∈ numeric_cols d →
  ∃ c, get_col (columns d) x = Some c ∧ is_numeric c = true.
Proof.
  intros Hnd Hin. unfold numeric_cols in Hin.
  apply list_elem_of_fmap_1 in Hin as ([n c] & -> & Hin).
  apply list_elem_of_filter in Hin as [Hnum Hin]. simpl in *.
  exists c. split; [apply get_col_elem; assumption|exact Hnum].
Qed.

Lemma scale_column_numeric (c : column) :
  is_numeric c = true → ∃ c', scale_column c = Some c' ∧ is_numeric c' = true.
Proof. destruct c; simpl; try discriminate; eauto. Qed.

Lemma normalize_column_result (w : world) (l : loc) (d : DataFrame)
    (x : string) (c c' : column) :
  heap w !! l = Some d →
  get_col (columns d) x = Some c →
  scale_column c = Some c' →
  normalize_column (VFrame l) x w
  = (Ok tt,
     mkWorld (session_state w)
       (<[l := mkFrame (index d) (set_col (columns d) x c')]> (heap w))
       (memory w) (out w)).
Proof.
  intros Hl Hx Hc. unfold normalize_column, deref, store.
  unfold mbind, M_bind, bind. rewrite Hl. simpl. rewrite Hx, Hc. reflexivity.
Qed.

(** The loop of lines 158-161 over distinct numeric columns: it ends,
    and each column of the frame is scaled if it was listed and is as
    before otherwise. *)
Lemma normalize_loop_result (cols : list string) :
  ∀ (w : world) (l : loc) (idx : list Z) (D : list (string * column)),
  NoDup cols →
  heap w !! l = Some (mkFrame idx D) →
  (∀ x, x ∈ cols → ∃ c, get_col D x = Some c ∧ is_numeric c = true) →
  ∃ D',
    for_each cols (normalize_column (VFrame l)) w
    = (Ok tt,
       mkWorld (session_state w) (<[l := mkFrame idx D']> (heap w))
         (memory w) (out w))
    ∧ D'.*1 = D.*1
    ∧ ∀ x, get_col D' x
           = if decide (x ∈ cols) then get_col D x ≫= scale_column
             else get_col D x.
Proof.
  induction cols as [|x cols IH]; intros w l idx D Hnd Hl Hnum.
  - exists D. simpl. split; [|split; [reflexivity|]].
    + unfold mret, M_ret, ret. rewrite (insert_id _ _ _ Hl), world_eta. reflexivity.
    + intros x. destruct (decide (x ∈ [])) as [Hin|_]; [|reflexivity].
      apply elem_of_nil in Hin. destruct Hin.
  - apply NoDup_cons in Hnd as [Hx Hnd].
    destruct (Hnum x ltac:(constructor)) as (c & Hc & Hcn).
    destruct (scale_column_numeric c Hcn) as (c' & Hc' & Hcn').
    pose proof (normalize_column_result w l _ x c c' Hl Hc Hc') as Hstep.
    simpl in Hstep.
    assert (∀ y, y ∈ cols →
              ∃ c0, get_col (set_col D x c') y = Some c0 ∧ is_numeric c0 = true)
      as Hnum'.
    { intros y Hy. assert (x ≠ y) by (intros ->; contradiction).
      rewrite get_set_col_ne by assumption. apply Hnum. constructor. exact Hy. }
    destruct (IH (mkWorld (session_state w)
                    (<[l := mkFrame idx (set_col D x c')]> (heap w))
                    (memory w) (out w))
                l idx (set_col D x c') Hnd (lookup_insert_eq _ _ _) Hnum')
      as (D' & Hrun & Hnames & Hget).
    exists D'. split; [|split].
    + simpl. erewrite bind_ok by exact Hstep. rewrite Hrun. simpl.
      rewrite insert_insert_eq. reflexivity.
    + rewrite Hnames. eapply set_col_names. exact Hc.
    + intros y. rewrite Hget. destruct (decide (x = y)) as [<-|Hne].
      * rewrite get_set_col_eq.
        destruct (decide (x ∈ cols)) as [|_]; [contradiction|].
        destruct (decide (x ∈ x :: cols)) as [_|Hn]; [|destruct Hn; constructor].
        rewrite Hc. simpl. symmetry. exact Hc'.
      * rewrite get_set_col_ne by assumption.
        destruct (decide (y ∈ cols)) as [Hy|Hy];
          destruct (decide (y ∈ x :: cols)) as [Hy'|Hy']; try reflexivity.
        -- destruct Hy'. constructor. exact Hy.
        -- apply elem_of_cons in Hy' as [->|Hy']; [destruct Hne; reflexivity|contradiction].
Qed.


Lemma multiselect_elem (options picks : list string) (x : string) :
  x ∈ multiselect options picks → x ∈ options.
Proof.
  unfold multiselect. rewrite elem_of_remove_dups, list_elem_of_filter. tauto.
Qed.

Lemma multiselect_NoDup (options picks : list string) :
  NoDup (multiselect options picks).
Proof. apply NoDup_remove_dups. Qed.

(** C8: the normalize action replaces each value x of every selected
    numeric column by (x - min) / (max - min), with the minimum and the
    maximum of that column's own values when the action runs; the column
    [0, 5, 10] becomes [0.0, 0.5, 1.0]. *)
Theorem normalize_selected_columns :
  scale_column (CInt64 [0; 5; 10])
  = Some (CFloat64 [F64.of_Z 0; F64.div (F64.of_Z 1) (F64.of_Z 2); F64.of_Z 1])
  ∧ scale_column (CFloat64 [F64.of_Z 0; F64.of_Z 5; F64.of_Z 10])
    = Some (CFloat64 [F64.of_Z 0; F64.div (F64.of_Z 1) (F64.of_Z 2); F64.of_Z 1])
  ∧ ∀ (w : world) (l : loc) (d : DataFrame) (picks : list string) (col : string),
      heap w !! l = Some d →
      distinct_names d →
      col ∈ multiselect (numeric_cols d) picks →
      ∃ c c' d',
        get_col (columns d) col = Some c
        ∧ for_each (multiselect (numeric_cols d) picks)
            (normalize_column (VFrame l)) w
          = (Ok tt,
             mkWorld (session_state w) (<[l := d']> (heap w)) (memory w) (out w))
        ∧ get_col (columns d') col = Some c'
        ∧ min_max_scaled c c'.
Proof.
  split; [vm_compute; reflexivity|]. split; [vm_compute; reflexivity|].
  intros w l [idx D] picks col Hl Hnd Hcol.
  destruct (normalize_loop_result (multiselect (numeric_cols (mkFrame idx D)) picks)
              w l idx D (multiselect_NoDup _ _) Hl)
    as (D' & Hrun & _ & Hget).
  { intros x Hx. apply (numeric_cols_elem (mkFrame idx D)); [exact Hnd|].
    eapply multiselect_elem, Hx. }
  destruct (numeric_cols_elem (mkFrame idx D) col Hnd (multiselect_elem _ _ _ Hcol))
    as (c & Hc & Hcn).
  destruct (scale_column_numeric c Hcn) as (c' & Hc' & _).
  exists c, c', (mkFrame idx D'). split; [exact Hc|]. split; [exact Hrun|].
  split; [|apply scale_column_scaled, Hc'].
  simpl in *. rewrite Hget.
  destruct (decide (col ∈ multiselect (numeric_cols (mkFrame idx D)) picks));
    [|contradiction].
  rewrite Hc. exact Hc'.
Qed.

End Normalize.

(** ** The cleaning block *)

Section Cleaning.

Variable read_csv read_excel : UploadedFile → DataFrame + string.

Lemma dropna_names (d : DataFrame) : (columns (dropna d)).*1 = (columns d).*1.
Proof.
  unfold dropna. simpl. rewrite <- list_fmap_compose.
  apply list_fmap_ext. intros _ [n c] _. reflexivity.
Qed.

(** A run of the cleaning block on a frame: it ends, and this is the
    world it leaves. *)
Lemma cleaning_block_result (i : inputs) (w : world) (l : loc) (d : DataFrame) :
  heap w !! l = Some d →
  distinct_names d →
  let d1 := if drop_clicked i then dropna d else d in
  let cols := multiselect (numeric_cols d1) (picked i) in
  let steps := descriptions i cols in
  let mem := if bool_decide (steps ≠ []) then <["cleaning_steps" := steps]> (memory w)
             else memory w in
  ∃ d2,
    (normalize_clicked i = false → d2 = d1)
    ∧ cleaning_block (VFrame l) i w
      = (Ok tt,
         mkWorld (<["cleaned_df" := VFrame l]> (session_state w))
           (<[l := d2]> (heap w))
           (if clear_clicked i then ∅ else mem)
           (out w
            ++ (if drop_clicked i then [Success "Missing values removed!"] else [])
            ++ (if normalize_clicked i then [Success "Selected columns normalized!"] else [])
            ++ match mem !! "cleaning_steps" with
               | Some (s :: rest) => [InfoSteps (s :: rest)]
               | _ => []
               end
            ++ [ShowMemory mem]
            ++ (if clear_clicked i then [Success "Memory cleared."] else []))).
Proof.
  intros Hl Hnd d1 cols steps mem.
  assert (distinct_names d1) as Hnd1.
  { unfold d1, distinct_names in *. destruct (drop_clicked i); [|exact Hnd].
    rewrite dropna_names. exact Hnd. }
  set (w1 := mkWorld (session_state w) (<[l := d1]> (heap w)) (memory w)
               (out w ++ (if drop_clicked i then [Success "Missing values removed!"] else []))).
  assert (heap w1 !! l = Some d1) as Hl1 by apply lookup_insert_eq.
  destruct d1 as [idx D] eqn:Hd1.
  destruct (normalize_loop_result cols w1 l idx D (multiselect_NoDup _ _) Hl1)
    as (D' & Hrun & _ & _).
  { intros x Hx. apply (numeric_cols_elem (mkFrame idx D)); [exact Hnd1|].
    eapply multiselect_elem, Hx. }
  exists (if normalize_clicked i then mkFrame idx D' else mkFrame idx D).
  split; [intros ->; reflexivity|].
  unfold cleaning_block.
  assert ((if drop_clicked i
           then ld ← deref (VFrame l) "dropna";
                store ld.1 (dropna ld.2);;
                emit (Success "Missing values removed!");;
                mret ["Dropped missing values"]
           else mret []) w
          = (Ok (if drop_clicked i then ["Dropped missing values"] else []), w1))
    as Hdrop.
  { unfold w1. destruct (drop_clicked i).
    - unfold deref, store, emit, mbind, M_bind, bind, mret, M_ret, ret.
      rewrite Hl. simpl. rewrite <- Hd1. reflexivity.
    - unfold mret, M_ret, ret. rewrite <- Hd1, (insert_id _ _ _ Hl).
      rewrite app_nil_r, world_eta. reflexivity. }
  erewrite bind_ok by exact Hdrop.
  erewrite bind_ok by (unfold deref; rewrite Hl1; reflexivity).
  cbv beta zeta. simpl fst. simpl snd. fold cols.
  set (d2 := if normalize_clicked i then mkFrame idx D' else mkFrame idx D).
  set (w2 := mkWorld (session_state w) (<[l := d2]> (heap w)) (memory w)
               (out w1 ++ (if normalize_clicked i
                           then [Success "Selected columns normalized!"] else []))).
  assert ((if normalize_clicked i
           then for_each cols (normalize_column (VFrame l));;
                emit (Success "Selected columns normalized!");;
                mret ((if drop_clicked i then ["Dropped missing values"] else [])
                      ++ ["Normalized columns: " +:+ String.concat ", " cols])
           else mret (if drop_clicked i then ["Dropped missing values"] else [])) w1
          = (Ok steps, w2)) as Hnorm.
  { unfold w2, d2, steps, descriptions. destruct (normalize_clicked i).
    - erewrite bind_ok by exact Hrun. unfold emit, mbind, M_bind, bind, mret, M_ret, ret.
      simpl. rewrite insert_insert_eq. reflexivity.
    - unfold mret, M_ret, ret. rewrite !app_nil_r. reflexivity. }
  erewrite bind_ok by exact Hnorm.
  unfold set_slot, when, Memory.remember, Memory.recall, Memory.show_memory,
    Memory.clear_all_memory, emit, mbind, M_bind, bind, mret, M_ret, ret.
  fold mem. unfold w2, w1. simpl.
  destruct (bool_decide (steps ≠ [])) eqn:Hsteps; simpl; fold mem;
    subst mem; rewrite ?Hsteps;
    match goal with
    | |- context [?m !! "cleaning_steps"] =>
        destruct (m !! "cleaning_steps") as [[|s0 rest]|] eqn:Hrecall
    end; simpl;
    destruct (clear_clicked i); simpl;
    rewrite <- ?app_assoc; simpl; rewrite ?app_nil_r; reflexivity.
Qed.

End Cleaning.

Section Cleaning_claims.

Lemma untouched_refl (df : value) (w : world) : untouched df w w.
Proof. split; [reflexivity|]. intros; reflexivity. Qed.

Lemma untouched_trans (df : value) (w1 w2 w3 : world) :
  untouched df w1 w2 → untouched df w2 w3 → untouched df w1 w3.
Proof.
  intros [Hs1 Hh1] [Hs2 Hh2]. split; [congruence|].
  intros l Hl. rewrite Hh2, Hh1 by exact Hl. reflexivity.
Qed.

Lemma keeps_ret {A} (df : value) (a : A) : keeps df (mret a).
Proof. intros w. apply untouched_refl. Qed.

Lemma keeps_raise {A} (df : value) (e : exn) : keeps df (raise (A := A) e).
Proof. intros w. apply untouched_refl. Qed.

Lemma keeps_bind {A B} (df : value) (m : M A) (k : A → M B) :
  keeps df m → (∀ a, keeps df (k a)) → keeps df (m ≫= k).
Proof.
  intros Hm Hk w. unfold mbind, M_bind, bind.
  specialize (Hm w). destruct (m w) as [[a|e] w1]; simpl in *; [|exact Hm].
  eapply untouched_trans; [exact Hm|apply Hk].
Qed.

Lemma keeps_emit (df : value) (e : event) : keeps df (emit e).
Proof. intros w. split; simpl; [reflexivity|]. intros; reflexivity. Qed.

Lemma keeps_set_slot (df : value) (k : string) (v : value) :
  k ≠ "uploaded_df" → keeps df (set_slot k v).
Proof.
  intros Hk w. split; simpl; [|reflexivity].
  apply lookup_insert_ne. exact Hk.
Qed.

Lemma keeps_store (l : loc) (d : DataFrame) : keeps (VFrame l) (store l d).
Proof.
  intros w. split; simpl; [reflexivity|].
  intros l' Hl'. apply lookup_insert_ne. congruence.
Qed.

(** Whatever [df] is, a method call on it hands the continuation the
    very object [df] refers to. *)
Lemma keeps_deref {B} (df : value) (attr : string) (k : loc * DataFrame → M B) :
  (∀ l d, df = VFrame l → keeps df (k (l, d))) →
  keeps df (deref df attr ≫= k).
Proof.
  intros Hk w. unfold mbind, M_bind, bind, deref.
  destruct df as [|l]; simpl; [apply untouched_refl|].
  destruct (heap w !! l) as [d|]; simpl; [|apply untouched_refl].
  apply (Hk l d eq_refl).
Qed.

Lemma keeps_for_each {A} (df : value) (xs : list A) (body : A → M unit) :
  (∀ x, keeps df (body x)) → keeps df (for_each xs body).
Proof.
  intros Hbody. induction xs as [|x xs IH]; simpl.
  - apply keeps_ret.
  - apply keeps_bind; [apply Hbody|]. intros _. exact IH.
Qed.

Lemma keeps_normalize_column (df : value) (col : string) :
  keeps df (normalize_column df col).
Proof.
  unfold normalize_column. apply keeps_deref. intros l d ->. simpl.
  destruct (get_col (columns d) col) as [c|]; [|apply keeps_raise].
  destruct (scale_column c); [apply keeps_store|apply keeps_raise].
Qed.

Lemma keeps_memory {A} (df : value) (m : M A) :
  (∀ w, session_state (m w).2 = session_state w ∧ heap (m w).2 = heap w) →
  keeps df m.
Proof.
  intros H w. destruct (H w) as [Hs Hh]. split; [rewrite Hs|intros; rewrite Hh];
    reflexivity.
Qed.

(** The cleaning block never binds the uploaded slot again and changes no
    frame but the one it was given. *)
Lemma cleaning_keeps_other_frames (df : value) (i : inputs) (w : world) :
  session_state (cleaning_block df i w).2 !! "uploaded_df"
  = session_state w !! "uploaded_df"
  ∧ ∀ l, df ≠ VFrame l → heap (cleaning_block df i w).2 !! l = heap w !! l.
Proof.
  change (untouched df w (cleaning_block df i w).2). revert w.
  change (keeps df (cleaning_block df i)). unfold cleaning_block.
  apply keeps_bind.
  { destruct (drop_clicked i); [|apply keeps_ret].
    apply keeps_deref. intros l d ->. simpl.
    apply keeps_bind; [apply keeps_store|]. intros _.
    apply keeps_bind; [apply keeps_emit|]. intros _. apply keeps_ret. }
  intros steps1. apply keeps_deref. intros l d ->. simpl.
  apply keeps_bind.
  { destruct (normalize_clicked i); [|apply keeps_ret].
    apply keeps_bind; [apply keeps_for_each, keeps_normalize_column|]. intros _.
    apply keeps_bind; [apply keeps_emit|]. intros _. apply keeps_ret. }
  intros steps2.
  apply keeps_bind; [apply keeps_set_slot; discriminate|]. intros _.
  apply keeps_memory. intros w.
  unfold when, Memory.remember, Memory.recall, Memory.show_memory,
    Memory.clear_all_memory, emit, mbind, M_bind, bind, mret, M_ret, ret.
  destruct (bool_decide (steps2 ≠ [])); simpl;
    match goal with
    | |- context [?m !! "cleaning_steps"] =>
        destruct (m !! "cleaning_steps") as [[|s0 rest]|]
    end; simpl; destruct (clear_clicked i); simpl; auto.
Qed.


(** The cleaning block on a frame ends with that frame, changed in place,
    in the cleaned slot; the descriptions accumulated are passed to
    remember when there is at least one, and the memory log is left as it
    was when there is none. *)
Lemma cleaning_block_commits (i : inputs) (w : world) (l : loc) (d : DataFrame) :
  heap w !! l = Some d →
  distinct_names d →
  let cols := multiselect (numeric_cols (if drop_clicked i then dropna d else d))
                (picked i) in
  ∃ w',
    cleaning_block (VFrame l) i w = (Ok tt, w')
    ∧ session_state w' !! "cleaned_df" = Some (VFrame l)
    ∧ is_Some (heap w' !! l)
    ∧ (clear_clicked i = false →
       descriptions i cols ≠ [] →
       memory w' = <["cleaning_steps" := descriptions i cols]> (memory w))
    ∧ (clear_clicked i = false →
       descriptions i cols = [] →
       memory w' = memory w).
Proof.
  intros Hl Hnd cols.
  destruct (cleaning_block_result i w l d Hl Hnd) as (d2 & _ & Hrun).
  eexists. split; [exact Hrun|]. simpl.
  split; [apply lookup_insert_eq|]. split; [rewrite lookup_insert_eq; eauto|].
  fold cols. split; intros -> Hsteps.
  - rewrite bool_decide_eq_true_2 by exact Hsteps. reflexivity.
  - rewrite bool_decide_eq_false_2 by (intros H; apply H, Hsteps). reflexivity.
Qed.

(** C2 fails in the code: no test of the chain is for "Data Cleaning", so
    selecting it reads nothing, shows nothing and commits nothing,
    whatever the session holds and whatever is pressed; the cleaning
    block stands in the handler of the upload branch, and that branch
    fails at line 123 before it; given no dataset the block raises where
    the claim has a warning; and as the file stands Python refuses it. *)
Theorem cleaning_stage_unreachable
    (refresh_data : world → world)
    (read_csv read_excel : UploadedFile → DataFrame + string)
    (upload_data_result : value)
    (f : option UploadedFile) (drop normalize clear : bool)
    (picks : list string) (w : world) :
  branch_of chain (label DataCleaning) = None
  ∧ dispatch read_csv read_excel upload_data_result
      (mkInputs DataCleaning f drop picks normalize clear) w
    = (Ok tt, w)
  ∧ dispatch read_csv read_excel upload_data_result
      (mkInputs UploadDataset f drop picks normalize clear) w
    = (Raise (NameError "upload_data"), w)
  ∧ cleaning_block VNone (mkInputs UploadDataset f drop picks normalize clear) w
    = (Raise (AttributeError (if drop then "dropna" else "select_dtypes")), w)
  ∧ app refresh_data read_csv read_excel upload_data_result
      (mkInputs DataCleaning f drop picks normalize clear) w
    = SyntaxError 141.
Proof.
  split; [vm_compute; reflexivity|].
  split; [reflexivity|].
  split; [reflexivity|].
  split; [|reflexivity].
  unfold cleaning_block. simpl. destruct drop; reflexivity.
Qed.

End Cleaning_claims.

(** ** Scaling a scaled column *)

Section Float_facts.

Lemma fexp_spec (x : Z) : fexp F64.prec F64.emax x = Z.max (x - 53) (-1074).
Proof. reflexivity. Qed.

(** A valid finite float has at most 53 digits, exactly 53 unless its
    exponent is the least one. *)
Lemma bounded_spec (m : positive) (e : Z) :
  bounded F64.prec F64.emax m e = true →
  -1074 ≤ e ≤ 971
  ∧ ((e = -1074 ∧ Z.pos (digits2_pos m) ≤ 53)
     ∨ (-1074 < e ∧ Z.pos (digits2_pos m) = 53)).
Proof.
  unfold bounded, canonical_mantissa. rewrite fexp_spec. intros H.
  apply andb_prop in H as [H1 H2]. apply Z.eqb_eq in H1. apply Z.leb_le in H2.
  change (F64.emax - F64.prec) with 971 in H2. lia.
Qed.

Lemma div_eucl_mul (a b : Z) : 0 < b → Z.div_eucl (a * b) b = (a, 0).
Proof.
  intros Hb. pose proof (Z.div_mul a b) as Hdiv. pose proof (Z.mod_mul a b) as Hmod.
  unfold Z.div, Z.modulo in *. destruct (Z.div_eucl (a * b) b) as [q r].
  simpl in *. rewrite Hdiv, Hmod by lia. reflexivity.
Qed.

Lemma div_core_by_one (m : positive) (e : Z) :
  bounded F64.prec F64.emax m e = true →
  SFdiv_core_binary F64.prec F64.emax (Z.pos m) e 4503599627370496 (-52)
  = if Z.eqb e (-1074) then (Z.pos m, e, loc_Exact)
    else (Z.pos m~0, e - 1, loc_Exact).
Proof.
  intros Hb. apply bounded_spec in Hb as [He Hd].
  unfold SFdiv_core_binary.
  change (Zdigits2 4503599627370496) with 53.
  change (Zdigits2 (Z.pos m)) with (Z.pos (digits2_pos m)).
  rewrite fexp_spec.
  set (d := Z.pos (digits2_pos m)) in *.
  destruct (Z.eqb_spec e (-1074)) as [->|Hne].
  - replace (Z.min (Z.max (d + -1074 - (53 + -52) - 53) (-1074)) (-1074 - -52))
      with (-1074) by lia.
    change (-1074 - -52 - -1074) with 52.
    rewrite Z.shiftl_mul_pow2 by lia.
    rewrite div_eucl_mul by lia. reflexivity.
  - replace (Z.min (Z.max (d + e - (53 + -52) - 53) (-1074)) (e - -52))
      with (e - 1) by lia.
    replace (e - -52 - (e - 1)) with 53 by lia.
    rewrite Z.shiftl_mul_pow2 by lia.
    replace (Z.pos m * 2 ^ 53) with (Z.pos m~0 * 4503599627370496) by lia.
    rewrite div_eucl_mul by lia. reflexivity.
Qed.

Lemma bounded_canonical (m : positive) (e : Z) :
  bounded F64.prec F64.emax m e = true →
  fexp F64.prec F64.emax (Z.pos (digits2_pos m) + e) = e
  ∧ Z.leb e (F64.emax - F64.prec) = true.
Proof.
  unfold bounded, canonical_mantissa. intros H.
  apply andb_prop in H as [H1 H2]. apply Z.eqb_eq in H1. auto.
Qed.

(** Rounding a mantissa that is already canonical returns it. *)
Lemma round_aux_canonical (s : bool) (m : positive) (e : Z) :
  bounded F64.prec F64.emax m e = true →
  binary_round_aux F64.prec F64.emax s (Z.pos m) e loc_Exact = S754_finite s m e.
Proof.
  intros Hb. apply bounded_canonical in Hb as [Hc He].
  unfold binary_round_aux, shr_fexp.
  change (Zdigits2 (Z.pos m)) with (Z.pos (digits2_pos m)).
  rewrite Hc, Z.sub_diag. cbn [shr shr_record_of_loc shr_m loc_of_shr_record
    round_nearest_even].
  change (Zdigits2 (Z.pos m)) with (Z.pos (digits2_pos m)).
  rewrite Hc, Z.sub_diag. cbn [shr shr_record_of_loc shr_m]. rewrite He. reflexivity.
Qed.

(** So does rounding twice the mantissa at the exponent below. *)
Lemma round_aux_doubled (s : bool) (m : positive) (e : Z) :
  bounded F64.prec F64.emax m e = true →
  binary_round_aux F64.prec F64.emax s (Z.pos m~0) (e - 1) loc_Exact
  = S754_finite s m e.
Proof.
  intros Hb. apply bounded_canonical in Hb as [Hc He].
  unfold binary_round_aux, shr_fexp.
  change (Zdigits2 (Z.pos m~0)) with (Z.pos (Pos.succ (digits2_pos m))).
  replace (Z.pos (Pos.succ (digits2_pos m)) + (e - 1))
    with (Z.pos (digits2_pos m) + e) by lia.
  rewrite Hc. replace (e - (e - 1)) with 1 by lia.
  cbn [shr shr_record_of_loc SpecFloat.iter_pos shr_1 orb shr_m
    loc_of_shr_record round_nearest_even].
  replace (e - 1 + 1) with e by lia.
  change (Zdigits2 (Z.pos m)) with (Z.pos (digits2_pos m)).
  rewrite Hc, Z.sub_diag. cbn [shr shr_record_of_loc shr_m]. rewrite He. reflexivity.
Qed.

Lemma div_one (y : spec_float) : F64.valid y = true → F64.div y F64.one = y.
Proof.
  destruct y as [s|s| |s m e]; simpl; intros Hv;
    try (rewrite xorb_false_r; reflexivity); try reflexivity.
  unfold F64.div, F64.one, SFdiv. rewrite div_core_by_one by exact Hv.
  rewrite xorb_false_r.
  destruct (Z.eqb e (-1074));
    [apply round_aux_canonical|apply round_aux_doubled]; exact Hv.
Qed.

Lemma sub_zero_same (y z : spec_float) :
  F64.is_zero z = true → F64.same (F64.sub y z) y.
Proof.
  destruct z as [sz| | |]; try discriminate. intros _.
  destruct y as [s|s| |s m e]; simpl; try (left; reflexivity).
  destruct s, sz; simpl; auto; right; auto.
Qed.

Lemma one_sub_zero (z : spec_float) :
  F64.is_zero z = true → F64.sub F64.one z = F64.one.
Proof. destruct z; try discriminate. reflexivity. Qed.

Lemma div_zero_one (y : spec_float) :
  F64.is_zero y = true → F64.is_zero (F64.div y F64.one) = true.
Proof. destruct y; try discriminate. reflexivity. Qed.


Lemma fexp_mono (x y : Z) :
  x ≤ y → fexp F64.prec F64.emax x ≤ fexp F64.prec F64.emax y.
Proof. rewrite !fexp_spec. lia. Qed.

Lemma digits2_pos_bounds (p : positive) :
  2 ^ (Z.pos (digits2_pos p) - 1) ≤ Z.pos p < 2 ^ Z.pos (digits2_pos p).
Proof.
  induction p as [p IH|p IH|]; simpl digits2_pos.
  - rewrite Pos2Z.inj_succ.
    replace (Z.succ (Z.pos (digits2_pos p)) - 1) with (Z.succ (Z.pos (digits2_pos p) - 1)) by lia.
    rewrite !Z.pow_succ_r by lia. lia.
  - rewrite Pos2Z.inj_succ.
    replace (Z.succ (Z.pos (digits2_pos p)) - 1) with (Z.succ (Z.pos (digits2_pos p) - 1)) by lia.
    rewrite !Z.pow_succ_r by lia. lia.
  - simpl. lia.
Qed.

Lemma Zdigits2_nonneg (m : Z) : 0 ≤ Zdigits2 m.
Proof. destruct m; simpl; lia. Qed.

Lemma Zdigits2_bounds (m : Z) :
  0 < m → 2 ^ (Zdigits2 m - 1) ≤ m < 2 ^ Zdigits2 m.
Proof. destruct m as [|p|p]; try lia. intros _. apply digits2_pos_bounds. Qed.

Lemma Zdigits2_unique (m d : Z) :
  0 < m → 2 ^ (d - 1) ≤ m < 2 ^ d → Zdigits2 m = d.
Proof.
  intros Hm [Hlo Hhi]. pose proof (Zdigits2_bounds m Hm) as [Hlo' Hhi'].
  pose proof (Zdigits2_nonneg m) as Hd.
  assert (0 < d) as Hd'.
  { destruct (Z.lt_trichotomy d 0) as [Hneg|[->|Hpos]]; [|simpl in Hhi; lia|exact Hpos].
    rewrite (Z.pow_neg_r 2 d Hneg) in Hhi. lia. }
  destruct (Z.lt_trichotomy (Zdigits2 m) d) as [Hlt|[Heq|Hgt]]; [|exact Heq|].
  - pose proof (Z.pow_le_mono_r 2 (Zdigits2 m) (d - 1)). lia.
  - pose proof (Z.pow_le_mono_r 2 d (Zdigits2 m - 1)). lia.
Qed.

Lemma Zdigits2_mono (a b : Z) : 0 ≤ a ≤ b → Zdigits2 a ≤ Zdigits2 b.
Proof.
  intros [Ha Hab]. destruct (Z.eq_dec a 0) as [->|Hne]; [apply Zdigits2_nonneg|].
  pose proof (Zdigits2_bounds a ltac:(lia)) as [Hlo _].
  pose proof (Zdigits2_bounds b ltac:(lia)) as [_ Hhi].
  destruct (Z.le_gt_cases (Zdigits2 a) (Zdigits2 b)) as [|Hgt]; [assumption|].
  pose proof (Z.pow_le_mono_r 2 (Zdigits2 b) (Zdigits2 a - 1)). lia.
Qed.

(** Dropping [k] low bits drops [k] digits, or leaves nothing. *)
Lemma Zdigits2_shift (m k : Z) :
  0 ≤ m → 0 ≤ k →
  (m / 2 ^ k = 0 ∧ Zdigits2 m ≤ k)
  ∨ (0 < m / 2 ^ k ∧ Zdigits2 (m / 2 ^ k) = Zdigits2 m - k).
Proof.
  intros Hm Hk. assert (0 < 2 ^ k) as Hpow by (apply Z.pow_pos_nonneg; lia).
  destruct (Z.eq_dec m 0) as [->|Hne].
  { left. rewrite Z.div_0_l by lia. simpl. lia. }
  pose proof (Zdigits2_bounds m ltac:(lia)) as [Hlo Hhi].
  pose proof (Zdigits2_nonneg m) as Hd.
  destruct (Z.le_gt_cases (Zdigits2 m) k) as [Hle|Hgt].
  - left. split; [|exact Hle]. apply Z.div_small. split; [lia|].
    pose proof (Z.pow_le_mono_r 2 (Zdigits2 m) k). lia.
  - right.
    assert (2 ^ (Zdigits2 m - 1) = 2 ^ (Zdigits2 m - k - 1) * 2 ^ k) as E1.
    { rewrite <- Z.pow_add_r by lia. f_equal. lia. }
    assert (2 ^ Zdigits2 m = 2 ^ (Zdigits2 m - k) * 2 ^ k) as E2.
    { rewrite <- Z.pow_add_r by lia. f_equal. lia. }
    assert (2 ^ (Zdigits2 m - k - 1) ≤ m / 2 ^ k) as Hq1.
    { apply Z.div_le_lower_bound; [lia|]. rewrite Z.mul_comm. lia. }
    assert (m / 2 ^ k < 2 ^ (Zdigits2 m - k)) as Hq2.
    { apply Z.div_lt_upper_bound; [lia|]. rewrite Z.mul_comm. lia. }
    assert (0 < 2 ^ (Zdigits2 m - k - 1)) by (apply Z.pow_pos_nonneg; lia).
    split; [lia|]. apply Zdigits2_unique; [lia|].
    replace (Zdigits2 m - k - 1) with (Zdigits2 m - k - 1) in Hq1 by lia.
    split; [exact Hq1|exact Hq2].
Qed.


Lemma shr_1_m (r : shr_record) :
  0 ≤ shr_m r → shr_m (shr_1 r) = shr_m r / 2.
Proof.
  destruct r as [m b c]. cbn [shr_m]. intros Hm.
  destruct m as [|[p|p|]|p]; cbn [shr_1 shr_m]; try lia; try reflexivity.
  - rewrite Pos2Z.inj_xI. apply Z.div_unique with 1; lia.
  - rewrite Pos2Z.inj_xO. apply Z.div_unique with 0; lia.
Qed.

Lemma iter_shr_1_m (p : positive) (r : shr_record) :
  0 ≤ shr_m r →
  shr_m (SpecFloat.iter_pos shr_1 p r) = shr_m r / 2 ^ Z.pos p.
Proof.
  revert r. induction p as [p IH|p IH|]; intros r Hr; simpl SpecFloat.iter_pos.
  - assert (0 ≤ shr_m (shr_1 r)) as H1
      by (rewrite shr_1_m by exact Hr; apply Z.div_pos; lia).
    assert (0 ≤ shr_m (SpecFloat.iter_pos shr_1 p (shr_1 r))) as H2
      by (rewrite IH by exact H1; apply Z.div_pos; [exact H1|apply Z.pow_pos_nonneg; lia]).
    rewrite IH by exact H2. rewrite IH by exact H1. rewrite shr_1_m by exact Hr.
    rewrite !Z.div_div by (try apply Z.pow_pos_nonneg; lia).
    f_equal. assert (Z.pos p~1 = 1 + Z.pos p + Z.pos p) as -> by lia.
    rewrite !Z.pow_add_r by lia. change (2 ^ 1) with 2. lia.
  - assert (0 ≤ shr_m (SpecFloat.iter_pos shr_1 p r)) as H2
      by (rewrite IH by exact Hr; apply Z.div_pos; [exact Hr|apply Z.pow_pos_nonneg; lia]).
    rewrite IH by exact H2. rewrite IH by exact Hr.
    rewrite !Z.div_div by (try apply Z.pow_pos_nonneg; lia).
    f_equal. assert (Z.pos p~0 = Z.pos p + Z.pos p) as -> by lia.
    rewrite Z.pow_add_r by lia. reflexivity.
  - apply shr_1_m, Hr.
Qed.

(** [shr_fexp] on a mantissa with digits to spare: the exponent becomes
    the canonical one and the mantissa loses the bits below it. *)
Lemma shr_fexp_spec (m e : Z) (l : location) :
  0 ≤ m →
  e ≤ fexp F64.prec F64.emax (Zdigits2 m + e) →
  (shr_fexp F64.prec F64.emax m e l).2 = fexp F64.prec F64.emax (Zdigits2 m + e)
  ∧ shr_m (shr_fexp F64.prec F64.emax m e l).1
    = m / 2 ^ (fexp F64.prec F64.emax (Zdigits2 m + e) - e).
Proof.
  intros Hm He. unfold shr_fexp, shr.
  set (n := fexp F64.prec F64.emax (Zdigits2 m + e) - e).
  assert (shr_m (shr_record_of_loc m l) = m) as Hrec
    by (destruct l as [|[]]; reflexivity).
  destruct n as [|p|p] eqn:Hn; simpl.
  - split; [lia|]. rewrite Hrec, Z.div_1_r. reflexivity.
  - split; [lia|]. rewrite iter_shr_1_m by (rewrite Hrec; exact Hm).
    rewrite Hrec. reflexivity.
  - lia.
Qed.


Lemma fexp_ge_emin (x : Z) : -1074 ≤ fexp F64.prec F64.emax x.
Proof. rewrite fexp_spec. lia. Qed.

(** After [shr_fexp] the mantissa is zero, at the least exponent, or it
    is canonical. *)
Lemma shr_fexp_canonical (m e : Z) (l : location) :
  0 ≤ m →
  e ≤ fexp F64.prec F64.emax (Zdigits2 m + e) →
  (shr_m (shr_fexp F64.prec F64.emax m e l).1 = 0
   ∧ (m = 0 ∨ (shr_fexp F64.prec F64.emax m e l).2 = -1074))
  ∨ (0 < shr_m (shr_fexp F64.prec F64.emax m e l).1
     ∧ fexp F64.prec F64.emax
         (Zdigits2 (shr_m (shr_fexp F64.prec F64.emax m e l).1)
          + (shr_fexp F64.prec F64.emax m e l).2)
       = (shr_fexp F64.prec F64.emax m e l).2).
Proof.
  intros Hm He. destruct (shr_fexp_spec m e l Hm He) as [He' Hm'].
  rewrite He', Hm'.
  set (e' := fexp F64.prec F64.emax (Zdigits2 m + e)) in *.
  destruct (Zdigits2_shift m (e' - e) Hm ltac:(lia)) as [[Hz Hd]|[Hpos Hd]].
  - left. split; [exact Hz|]. destruct (Z.eq_dec m 0) as [|Hne]; [left; assumption|].
    right. unfold e' in *. rewrite fexp_spec in *. lia.
  - right. split; [exact Hpos|]. rewrite Hd.
    replace (Zdigits2 m - (e' - e) + e') with (Zdigits2 m + e) by lia. reflexivity.
Qed.

Lemma round_nearest_even_cases (m : Z) (l : location) :
  round_nearest_even m l = m ∨ round_nearest_even m l = m + 1.
Proof. destruct l as [|[]]; simpl; auto. destruct (Z.even m); auto. Qed.

(** Rounding returns a valid float whenever the mantissa has digits to
    spare. *)
Lemma round_aux_valid (s : bool) (m e : Z) (l : location) :
  0 ≤ m →
  e ≤ fexp F64.prec F64.emax (Zdigits2 m + e) →
  F64.valid (binary_round_aux F64.prec F64.emax s m e l) = true.
Proof.
  intros Hm He. unfold binary_round_aux.
  pose proof (shr_fexp_spec m e l Hm He) as [He1 Hm1].
  pose proof (shr_fexp_canonical m e l Hm He) as Hc1.
  destruct (shr_fexp F64.prec F64.emax m e l) as [r1 e1]. simpl in *.
  set (m2 := round_nearest_even (shr_m r1) (loc_of_shr_record r1)).
  assert (0 ≤ shr_m r1) as Hr1
    by (rewrite Hm1; apply Z.div_pos; [lia|apply Z.pow_pos_nonneg; rewrite fexp_spec in *; lia]).
  assert (shr_m r1 ≤ m2 ≤ shr_m r1 + 1) as Hm2
    by (unfold m2; destruct (round_nearest_even_cases (shr_m r1) (loc_of_shr_record r1)); lia).
  assert (e1 ≤ fexp F64.prec F64.emax (Zdigits2 m2 + e1)) as He2.
  { destruct Hc1 as [[Hz Hmin]|[Hpos Hcan]].
    - destruct Hmin as [-> | ->]; [|apply fexp_ge_emin].
      simpl in He, He1. rewrite fexp_spec in He, He1.
      assert (e1 = -1074) as -> by lia. apply fexp_ge_emin.
    - rewrite <- Hcan at 1. apply fexp_mono.
      pose proof (Zdigits2_mono (shr_m r1) m2 ltac:(lia)). lia. }
  pose proof (shr_fexp_canonical m2 e1 loc_Exact ltac:(lia) He2) as Hc2.
  destruct (shr_fexp F64.prec F64.emax m2 e1 loc_Exact) as [r2 e2]. simpl in *.
  destruct Hc2 as [[Hz _]|[Hpos Hcan]].
  - rewrite Hz. reflexivity.
  - destruct (shr_m r2) as [|p|p]; try lia.
    destruct (Z.leb e2 (F64.emax - F64.prec)) eqn:Hle; [|reflexivity].
    unfold F64.valid, valid_binary, bounded, canonical_mantissa.
    simpl in Hcan. rewrite Hcan, Z.eqb_refl, Hle. reflexivity.
Qed.

Lemma Zdigits2_pow2 (k : Z) : 0 ≤ k → Zdigits2 (2 ^ k) = k + 1.
Proof.
  intros Hk. assert (0 < 2 ^ k) by (apply Z.pow_pos_nonneg; lia).
  apply Zdigits2_unique; [assumption|].
  replace (k + 1 - 1) with k by lia. rewrite Z.pow_add_r by lia. lia.
Qed.


(** The quotient of two mantissas has at least as many digits as their
    digit counts differ. *)
Lemma Zdigits2_div (a b : Z) :
  0 < a → 0 < b → Zdigits2 a - Zdigits2 b ≤ Zdigits2 (a / b).
Proof.
  intros Ha Hb.
  pose proof (Zdigits2_bounds a Ha) as [Hlo _].
  pose proof (Zdigits2_bounds b Hb) as [_ Hhi].
  pose proof (Zdigits2_nonneg (a / b)) as Hq.
  destruct (Z.le_gt_cases (Zdigits2 a - Zdigits2 b) 0) as [|Hgt]; [lia|].
  set (k := Zdigits2 a - Zdigits2 b - 1).
  assert (2 ^ k ≤ a / b) as Hk.
  { apply Z.div_le_lower_bound; [exact Hb|].
    assert (2 ^ (Zdigits2 a - 1) = 2 ^ Zdigits2 b * 2 ^ k) as E
      by (rewrite <- Z.pow_add_r by (pose proof (Zdigits2_nonneg b); lia);
          f_equal; lia).
    assert (0 < 2 ^ k) by (apply Z.pow_pos_nonneg; lia). nia. }
  assert (0 < 2 ^ k) by (apply Z.pow_pos_nonneg; lia).
  pose proof (Zdigits2_mono (2 ^ k) (a / b) ltac:(lia)) as Hmono.
  rewrite Zdigits2_pow2 in Hmono by lia. lia.
Qed.

Lemma Zdigits2_mul_pow2 (m s : Z) :
  0 < m → 0 ≤ s → Zdigits2 (m * 2 ^ s) = Zdigits2 m + s.
Proof.
  intros Hm Hs. pose proof (Zdigits2_bounds m Hm) as [Hlo Hhi].
  pose proof (Zdigits2_nonneg m).
  assert (0 < 2 ^ s) by (apply Z.pow_pos_nonneg; lia).
  apply Zdigits2_unique; [nia|].
  assert (Zdigits2 m ≠ 0) by (destruct m; simpl; lia).
  replace (Zdigits2 m + s - 1) with (Zdigits2 m - 1 + s) by lia.
  rewrite !Z.pow_add_r by lia. nia.
Qed.

(** The core of the division leaves digits to spare. *)
Lemma div_core_spare (m1 m2 : positive) (e1 e2 : Z) :
  let r := SFdiv_core_binary F64.prec F64.emax (Z.pos m1) e1 (Z.pos m2) e2 in
  0 ≤ r.1.1 ∧ r.1.2 ≤ fexp F64.prec F64.emax (Zdigits2 r.1.1 + r.1.2).
Proof.
  unfold SFdiv_core_binary.
  set (d1 := Zdigits2 (Z.pos m1)). set (d2 := Zdigits2 (Z.pos m2)).
  set (e' := Z.min (fexp F64.prec F64.emax (d1 + e1 - (d2 + e2))) (e1 - e2)).
  set (s := e1 - e2 - e').
  assert (0 ≤ s) as Hs by (unfold s, e'; lia).
  set (m' := match s with
             | 0 => Z.pos m1
             | Z.pos _ => Z.shiftl (Z.pos m1) s
             | Z.neg _ => 0
             end).
  assert (m' = Z.pos m1 * 2 ^ s) as Hm'.
  { unfold m'. destruct s as [|p|p] eqn:Es; [simpl; lia| |lia].
    rewrite Z.shiftl_mul_pow2 by lia. reflexivity. }
  pose proof (Z.div_eucl_eq m' (Z.pos m2) ltac:(lia)) as Heq.
  assert ((Z.div_eucl m' (Z.pos m2)).1 = m' / Z.pos m2) as Hq by reflexivity.
  destruct (Z.div_eucl m' (Z.pos m2)) as [q r]. simpl in *. subst q.
  assert (0 < 2 ^ s) by (apply Z.pow_pos_nonneg; lia).
  assert (0 < m') as Hpos by (rewrite Hm'; nia).
  split; [apply Z.div_pos; lia|].
  etrans; [apply Z.le_min_l|]. apply fexp_mono.
  pose proof (Zdigits2_div m' (Z.pos m2) Hpos ltac:(lia)) as Hd.
  rewrite Hm' in Hd at 1. rewrite Zdigits2_mul_pow2 in Hd by lia.
  change (Zdigits2 (Z.pos m1)) with d1 in Hd.
  change (Zdigits2 (Z.pos m2)) with d2 in Hd. unfold s in Hd. lia.
Qed.

(** Every quotient is a valid float64. *)
Lemma div_valid (x y : spec_float) : F64.valid (F64.div x y) = true.
Proof.
  destruct x as [sx|sx| |sx mx ex], y as [sy|sy| |sy my ey]; try reflexivity.
  unfold F64.div, SFdiv.
  pose proof (div_core_spare mx my ex ey) as [Hq He].
  destruct (SFdiv_core_binary F64.prec F64.emax (Z.pos mx) ex (Z.pos my) ey)
    as [[q e] l].
  apply round_aux_valid; assumption.
Qed.

(** A column whose minimum is zero and whose maximum is one is a fixed
    point of the scaling, cell by cell up to the sign of zero. *)
Lemma scale_float_fixed (ys : list spec_float) :
  Forall (λ y, F64.valid y = true) ys →
  F64.is_zero (F64.col_min ys) = true →
  F64.col_max ys = F64.one →
  same_cells (scale_float ys) ys.
Proof.
  intros Hvalid Hmin Hmax. unfold scale_float, same_cells.
  rewrite Hmax, (one_sub_zero _ Hmin).
  apply Forall2_fmap_l, Forall_Forall2_diag.
  eapply Forall_impl; [exact Hvalid|]. intros y Hy. simpl.
  destruct (sub_zero_same y _ Hmin) as [->|[Hz1 Hz2]].
  - left. apply div_one, Hy.
  - right. split; [apply div_zero_one, Hz1|exact Hz2].
Qed.

(** The shape of a rounded result: the mantissa at the canonical
    exponent, rounded by at most one unit, then renormalized. *)
Lemma round_aux_spec (s : bool) (m e : Z) (l : location) :
  0 ≤ m →
  e ≤ fexp F64.prec F64.emax (Zdigits2 m + e) →
  ∃ m2 : Z,
    let e1 := fexp F64.prec F64.emax (Zdigits2 m + e) in
    let e2 := fexp F64.prec F64.emax (Zdigits2 m2 + e1) in
    m / 2 ^ (e1 - e) ≤ m2 ≤ m / 2 ^ (e1 - e) + 1
    ∧ e1 ≤ e2
    ∧ binary_round_aux F64.prec F64.emax s m e l
      = match m2 / 2 ^ (e2 - e1) with
        | 0 => S754_zero s
        | Z.pos p => if Z.leb e2 (F64.emax - F64.prec)
                     then S754_finite s p e2 else S754_infinity s
        | Z.neg _ => S754_nan
        end.
Proof.
  intros Hm He. unfold binary_round_aux.
  pose proof (shr_fexp_spec m e l Hm He) as [He1 Hm1].
  pose proof (shr_fexp_canonical m e l Hm He) as Hc1.
  destruct (shr_fexp F64.prec F64.emax m e l) as [r1 e1]. simpl in *.
  set (m2 := round_nearest_even (shr_m r1) (loc_of_shr_record r1)).
  exists m2. cbv zeta. rewrite <- He1 in Hm1 |- *. rewrite <- Hm1.
  assert (0 ≤ shr_m r1) as Hr1
    by (rewrite Hm1; apply Z.div_pos; [lia|apply Z.pow_pos_nonneg; lia]).
  assert (shr_m r1 ≤ m2 ≤ shr_m r1 + 1) as Hm2
    by (unfold m2; destruct (round_nearest_even_cases (shr_m r1) (loc_of_shr_record r1)); lia).
  assert (e1 ≤ fexp F64.prec F64.emax (Zdigits2 m2 + e1)) as He2.
  { destruct Hc1 as [[Hz Hmin]|[Hpos Hcan]].
    - destruct Hmin as [-> | ->]; [|apply fexp_ge_emin].
      simpl in He, He1. rewrite fexp_spec in He, He1.
      assert (e1 = -1074) as -> by lia. apply fexp_ge_emin.
    - rewrite <- Hcan at 1. apply fexp_mono.
      pose proof (Zdigits2_mono (shr_m r1) m2 ltac:(lia)). lia. }
  split; [exact Hm2|]. split; [exact He2|].
  pose proof (shr_fexp_spec m2 e1 loc_Exact ltac:(lia) He2) as [He3 Hm3].
  destruct (shr_fexp F64.prec F64.emax m2 e1 loc_Exact) as [r2 e2]. simpl in *.
  rewrite Hm3, He3. reflexivity.
Qed.


Lemma Zdigits2_lt_pow2 (m k : Z) : 0 ≤ m → 0 ≤ k → m < 2 ^ k → Zdigits2 m ≤ k.
Proof.
  intros Hm Hk Hlt. destruct (Z.eq_dec m 0) as [->|Hne]; [simpl; lia|].
  pose proof (Zdigits2_bounds m ltac:(lia)) as [Hlo _].
  destruct (Z.le_gt_cases (Zdigits2 m) k) as [|Hgt]; [assumption|].
  pose proof (Z.pow_le_mono_r 2 k (Zdigits2 m - 1)). lia.
Qed.

(** A value below one rounds to at most one. *)
Lemma round_aux_below_one (q e : Z) (l : location) :
  e ≤ -53 →
  0 ≤ q < 2 ^ (- e) →
  e ≤ fexp F64.prec F64.emax (Zdigits2 q + e) →
  binary_round_aux F64.prec F64.emax false q e l = S754_zero false
  ∨ ∃ m3 e3,
      binary_round_aux F64.prec F64.emax false q e l = S754_finite false m3 e3
      ∧ (e3 < -52 ∨ (e3 = -52 ∧ Z.pos m3 ≤ 2 ^ 52)).
Proof.
  intros He [Hq0 Hq] Hspare.
  destruct (round_aux_spec false q e l Hq0 Hspare) as (m2 & Hm2 & He12 & ->).
  cbv zeta in *.
  set (e1 := fexp F64.prec F64.emax (Zdigits2 q + e)) in *.
  set (e2 := fexp F64.prec F64.emax (Zdigits2 m2 + e1)) in *.
  assert (e1 ≤ -53) as He1.
  { pose proof (Zdigits2_lt_pow2 q (- e) Hq0 ltac:(lia) Hq).
    unfold e1. rewrite fexp_spec. lia. }
  assert (0 < 2 ^ (e1 - e)) by (apply Z.pow_pos_nonneg; lia).
  assert (q / 2 ^ (e1 - e) < 2 ^ (- e1)) as Hm1.
  { apply Z.div_lt_upper_bound; [lia|].
    rewrite <- Z.pow_add_r by lia. replace (e1 - e + - e1) with (- e) by lia.
    exact Hq. }
  assert (0 ≤ q / 2 ^ (e1 - e)) by (apply Z.div_pos; lia).
  assert (0 < 2 ^ (- e1)) by (apply Z.pow_pos_nonneg; lia).
  assert (e2 ≤ -52) as He2.
  { assert (Zdigits2 m2 ≤ - e1 + 1) as Hd.
    { destruct (Z.eq_dec m2 (2 ^ (- e1))) as [->|Hne].
      - rewrite Zdigits2_pow2 by lia. lia.
      - pose proof (Zdigits2_lt_pow2 m2 (- e1) ltac:(lia) ltac:(lia) ltac:(lia)). lia. }
    unfold e2. rewrite fexp_spec. lia. }
  assert (0 < 2 ^ (e2 - e1)) by (apply Z.pow_pos_nonneg; lia).
  assert (m2 / 2 ^ (e2 - e1) ≤ 2 ^ (- e2)) as Hm3.
  { apply Z.div_le_upper_bound; [lia|].
    rewrite <- Z.pow_add_r by lia. replace (e2 - e1 + - e2) with (- e1) by lia. lia. }
  assert (0 ≤ m2 / 2 ^ (e2 - e1)) by (apply Z.div_pos; lia).
  destruct (m2 / 2 ^ (e2 - e1)) as [|p|p] eqn:E3; [left; reflexivity| |lia].
  right. change (F64.emax - F64.prec) with 971.
  replace (Z.leb e2 971) with true by (symmetry; apply Z.leb_le; lia).
  exists p, e2. split; [reflexivity|].
  destruct (Z.eq_dec e2 (-52)) as [->|Hne]; [right|left; lia].
  split; [reflexivity|]. exact Hm3.
Qed.


Lemma shr_1_pow2 (k : Z) :
  1 ≤ k →
  shr_1 (Build_shr_record (2 ^ k) false false)
  = Build_shr_record (2 ^ (k - 1)) false false.
Proof.
  intros Hk. replace (2 ^ k) with (2 * 2 ^ (k - 1))
    by (rewrite <- Z.pow_succ_r by lia; f_equal; lia).
  assert (0 < 2 ^ (k - 1)) as Hpos by (apply Z.pow_pos_nonneg; lia).
  destruct (2 ^ (k - 1)) as [|p|p]; try lia. reflexivity.
Qed.

Lemma iter_shr_1_pow2 (p : positive) (k : Z) :
  Z.pos p ≤ k →
  SpecFloat.iter_pos shr_1 p (Build_shr_record (2 ^ k) false false)
  = Build_shr_record (2 ^ (k - Z.pos p)) false false.
Proof.
  revert k. induction p as [p IH|p IH|]; intros k Hk; cbn [SpecFloat.iter_pos].
  - rewrite shr_1_pow2 by lia. rewrite IH by lia. rewrite IH by lia.
    do 2 f_equal. lia.
  - rewrite IH by lia. rewrite IH by lia. do 2 f_equal. lia.
  - apply shr_1_pow2. lia.
Qed.

(** The value one, whatever power of two carries it, rounds to one. *)
Lemma round_aux_one (k : Z) :
  53 ≤ k →
  binary_round_aux F64.prec F64.emax false (2 ^ k) (- k) loc_Exact = F64.one.
Proof.
  intros Hk. unfold binary_round_aux, shr_fexp.
  rewrite Zdigits2_pow2 by lia.
  replace (k + 1 + - k) with 1 by lia.
  change (fexp F64.prec F64.emax 1) with (-52).
  cbn [shr_record_of_loc].
  destruct (-52 - - k) as [|p|p] eqn:En; try lia. unfold shr at 1.
  rewrite iter_shr_1_pow2 by lia.
  replace (k - Z.pos p) with 52 by lia. replace (- k + Z.pos p) with (-52) by lia.
  reflexivity.
Qed.


Lemma new_location_zero (n : Z) : new_location n 0 = loc_Exact.
Proof. unfold new_location. destruct (Z.even n); reflexivity. Qed.

(** The core of a division of a smaller by a larger positive value: the
    quotient is below one, or it is one exactly. *)
Lemma div_core_le (ma md : positive) (ea ed : Z) :
  ea ≤ ed →
  Z.pos ma ≤ Z.pos md * 2 ^ (ed - ea) →
  let r := SFdiv_core_binary F64.prec F64.emax (Z.pos ma) ea (Z.pos md) ed in
  r.1.2 ≤ -53
  ∧ (0 ≤ r.1.1 < 2 ^ (- r.1.2) ∨ (r.1.1 = 2 ^ (- r.1.2) ∧ r.2 = loc_Exact)).
Proof.
  intros Hea Hle. unfold SFdiv_core_binary.
  set (da := Zdigits2 (Z.pos ma)). set (dd := Zdigits2 (Z.pos md)).
  assert (da ≤ dd + (ed - ea)) as Hd.
  { unfold da, dd. rewrite <- Zdigits2_mul_pow2 by lia.
    apply Zdigits2_mono. lia. }
  set (e' := Z.min (fexp F64.prec F64.emax (da + ea - (dd + ed))) (ea - ed)).
  assert (e' ≤ -53) as He'.
  { unfold e'. rewrite fexp_spec. lia. }
  set (s := ea - ed - e').
  assert (0 ≤ s) as Hs by (unfold s, e'; lia).
  set (m' := match s with
             | 0 => Z.pos ma
             | Z.pos _ => Z.shiftl (Z.pos ma) s
             | Z.neg _ => 0
             end).
  assert (m' = Z.pos ma * 2 ^ s) as Hm'.
  { unfold m'. destruct s as [|p|p] eqn:Es; [simpl; lia| |lia].
    rewrite Z.shiftl_mul_pow2 by lia. reflexivity. }
  pose proof (Z.div_eucl_eq m' (Z.pos md) ltac:(lia)) as Heq.
  pose proof (Z.mod_pos_bound m' (Z.pos md) ltac:(lia)) as Hmod.
  assert ((Z.div_eucl m' (Z.pos md)).1 = m' / Z.pos md) as Hq by reflexivity.
  assert ((Z.div_eucl m' (Z.pos md)).2 = m' mod Z.pos md) as Hr by reflexivity.
  destruct (Z.div_eucl m' (Z.pos md)) as [q r]. simpl in *. subst q r.
  assert (0 < 2 ^ s) by (apply Z.pow_pos_nonneg; lia).
  assert (0 < 2 ^ (ed - ea)) by (apply Z.pow_pos_nonneg; lia).
  assert (2 ^ (- e') = 2 ^ (ed - ea) * 2 ^ s) as Hpow.
  { rewrite <- Z.pow_add_r by lia. f_equal. unfold s. lia. }
  assert (m' ≤ Z.pos md * 2 ^ (- e')) as Hbound by (rewrite Hm', Hpow; nia).
  assert (0 ≤ m' / Z.pos md) by (apply Z.div_pos; nia).
  assert (m' / Z.pos md ≤ 2 ^ (- e')) as Hqle
    by (apply Z.div_le_upper_bound; lia).
  split; [exact He'|].
  destruct (Z.eq_dec (m' / Z.pos md) (2 ^ (- e'))) as [Heq'|Hne]; [right|left; lia].
  split; [exact Heq'|].
  assert (m' mod Z.pos md = 0) as -> by (rewrite Heq' in Heq; lia).
  apply new_location_zero.
Qed.

Lemma ltb_one_finite (m : positive) (e : Z) :
  e < -52 ∨ (e = -52 ∧ Z.pos m ≤ 2 ^ 52) →
  F64.ltb F64.one (S754_finite false m e) = false.
Proof.
  intros Hb. unfold F64.ltb, SFltb, F64.one, SFcompare.
  destruct (Z.compare_spec (-52) e) as [He|He|He]; try reflexivity; [|lia].
  destruct Hb as [Hlt|[_ Hm]]; [lia|].
  change (Pos.compare_cont Eq) with Pos.compare.
  destruct (Pos.compare_spec 4503599627370496 m); try reflexivity. lia.
Qed.

(** Dividing a smaller by a larger positive value gives a number from
    zero to one. *)
Lemma div_le_one (ma md : positive) (ea ed : Z) :
  ea ≤ ed →
  Z.pos ma ≤ Z.pos md * 2 ^ (ed - ea) →
  F64.is_nan (F64.div (S754_finite false ma ea) (S754_finite false md ed)) = false
  ∧ F64.ltb (F64.div (S754_finite false ma ea) (S754_finite false md ed)) F64.zero
    = false
  ∧ F64.ltb F64.one (F64.div (S754_finite false ma ea) (S754_finite false md ed))
    = false.
Proof.
  intros Hea Hle. unfold F64.div, SFdiv.
  pose proof (div_core_le ma md ea ed Hea Hle) as [He' Hq].
  pose proof (div_core_spare ma md ea ed) as [_ Hspare].
  destruct (SFdiv_core_binary F64.prec F64.emax (Z.pos ma) ea (Z.pos md) ed)
    as [[q e'] l]. simpl in *.
  destruct Hq as [Hq|[-> ->]].
  - destruct (round_aux_below_one q e' l He' Hq Hspare) as [->|(m3 & e3 & -> & Hb)].
    + repeat split; reflexivity.
    + split; [reflexivity|]. split; [reflexivity|].
      apply ltb_one_finite, Hb.
  - pose proof (round_aux_one (- e') ltac:(lia)) as Hone.
    rewrite Z.opp_involutive in Hone. rewrite Hone. repeat split; reflexivity.
Qed.


Lemma div_eucl_mul_l (a b : Z) : 0 < b → Z.div_eucl (b * a) b = (a, 0).
Proof. intros Hb. rewrite Z.mul_comm. apply div_eucl_mul, Hb. Qed.

(** A finite value divided by itself is one. *)
Lemma div_self (s : bool) (m : positive) (e : Z) :
  F64.div (S754_finite s m e) (S754_finite s m e) = F64.one.
Proof.
  unfold F64.div, SFdiv, SFdiv_core_binary.
  replace (Zdigits2 (Z.pos m) + e - (Zdigits2 (Z.pos m) + e)) with 0 by lia.
  rewrite Z.sub_diag.
  change (Z.min (fexp F64.prec F64.emax 0) 0) with (-53).
  change (0 - -53) with 53. cbv iota.
  rewrite Z.shiftl_mul_pow2 by lia. rewrite div_eucl_mul_l by lia.
  rewrite new_location_zero, xorb_nilpotent.
  apply (round_aux_one 53). lia.
Qed.

Lemma pos_iter_xO (p d : positive) :
  Z.pos (Pos.iter xO p d) = Z.pos p * 2 ^ Z.pos d.
Proof.
  induction d as [|d IH] using Pos.peano_ind.
  - simpl. lia.
  - rewrite Pos.iter_succ, Pos2Z.inj_xO, IH, Pos2Z.inj_succ, Z.pow_succ_r by lia.
    lia.
Qed.

Lemma wrap_small (z : Z) : - 2 ^ 63 ≤ z < 2 ^ 63 → I64.wrap z = z.
Proof. intros Hz. unfold I64.wrap. rewrite Z.mod_small by lia. lia. Qed.

(** A column of numbers from zero to one that holds a zero and a one has
    a zero for minimum and one for maximum. *)
Lemma col_min_zero (ys : list spec_float) (z : spec_float) :
  z ∈ ys → F64.is_zero z = true →
  (∀ y, y ∈ ys → F64.ltb y F64.zero = false) →
  F64.is_zero (F64.col_min ys) = true.
Proof.
  intros Hz Hzero Hlow.
  destruct (col_min_minimum ys) as (Hin & Hnan & Hmin).
  { apply Exists_exists. exists z. split; [exact Hz|].
    destruct z; try discriminate; reflexivity. }
  specialize (Hmin z Hz). specialize (Hlow _ Hin).
  destruct z as [sz| | |]; try discriminate.
  destruct (F64.col_min ys) as [s|s| |s m e]; try reflexivity; try discriminate;
    destruct s; discriminate.
Qed.

Lemma col_max_one (ys : list spec_float) :
  F64.one ∈ ys →
  (∀ y, y ∈ ys → F64.ltb F64.one y = false) →
  F64.col_max ys = F64.one.
Proof.
  intros Hone Hup.
  destruct (col_max_maximum ys) as (Hin & Hnan & Hmax).
  { apply Exists_exists. exists F64.one. split; [exact Hone|reflexivity]. }
  specialize (Hmax _ Hone). specialize (Hup _ Hin).
  destruct (F64.col_max ys) as [s|s| |s m e]; try discriminate;
    try (destruct s; discriminate).
  destruct s; [discriminate|].
  unfold F64.ltb, SFltb, F64.one, SFcompare in Hmax, Hup.
  rewrite (Z.compare_antisym e (-52)) in Hup.
  assert (Pos.compare_cont Eq 4503599627370496 m
          = CompOpp (Pos.compare_cont Eq m 4503599627370496)) as Hanti
    by (symmetry; apply (Pos.compare_cont_antisym m 4503599627370496 Eq)).
  rewrite Hanti in Hup. clear Hanti.
  remember (Pos.compare_cont Eq m 4503599627370496) as c eqn:Hm.
  destruct (Z.compare e (-52)) eqn:He; try discriminate.
  destruct c; try discriminate.
  apply Z.compare_eq in He. symmetry in Hm. rewrite Pos.compare_cont_spec in Hm.
  destruct (Pos.compare m 4503599627370496) eqn:Hc; try discriminate.
  apply Pos.compare_eq in Hc. subst. reflexivity.
Qed.


(** *** Rounding is monotone *)

Lemma shr_1_record (M : Z) (r s : bool) :
  0 ≤ M → shr_1 (Build_shr_record M r s) = Build_shr_record (M / 2) (Z.odd M) (r || s).
Proof.
  intros HM. destruct M as [|[p|p|]|p]; cbn [shr_1]; try lia.
  - reflexivity.
  - f_equal; try reflexivity. rewrite Pos2Z.inj_xI. apply Z.div_unique with 1; lia.
  - f_equal; try reflexivity. rewrite Pos2Z.inj_xO. apply Z.div_unique with 0; lia.
  - reflexivity.
Qed.

Lemma mod_pow2_step (m k : Z) :
  0 ≤ m → 0 ≤ k →
  m mod 2 ^ (k + 1) = m mod 2 ^ k + (if Z.testbit m k then 2 ^ k else 0).
Proof.
  intros Hm Hk.
  assert (0 < 2 ^ k) by (apply Z.pow_pos_nonneg; lia).
  rewrite Z.pow_add_r, Z.pow_1_r by lia.
  rewrite Z.rem_mul_r by lia.
  rewrite Z.testbit_odd, Z.shiftr_div_pow2 by lia.
  rewrite <- Z.bit0_mod, Z.bit0_odd.
  destruct (Z.odd (m / 2 ^ k)); simpl; lia.
Qed.

Lemma shr_1_shifted (m k : Z) :
  0 ≤ m → 0 ≤ k → shr_1 (shifted m k) = shifted m (k + 1).
Proof.
  intros Hm Hk. unfold shifted.
  assert (0 < 2 ^ k) by (apply Z.pow_pos_nonneg; lia).
  replace (Z.eqb (k + 1) 0) with false by (symmetry; apply Z.eqb_neq; lia).
  replace (k + 1 - 1) with k by lia.
  destruct (Z.eqb_spec k 0) as [->|Hne].
  - rewrite shr_1_record by lia. change (2 ^ (0 + 1)) with 2.
    change (2 ^ 0) with 1. rewrite Z.mod_1_r, Z.bit0_odd. reflexivity.
  - rewrite shr_1_record by (apply Z.div_pos; lia).
    rewrite Z.div_div by lia.
    replace (2 ^ k * 2) with (2 ^ (k + 1))
      by (rewrite Z.pow_add_r by lia; reflexivity).
    pose proof (mod_pow2_step m (k - 1) Hm ltac:(lia)) as Hstep.
    replace (k - 1 + 1) with k in Hstep by lia.
    assert (0 < 2 ^ (k - 1)) by (apply Z.pow_pos_nonneg; lia).
    pose proof (Z.mod_pos_bound m (2 ^ (k - 1)) ltac:(lia)).
    f_equal.
    + rewrite Z.testbit_odd, Z.shiftr_div_pow2 by lia. reflexivity.
    + rewrite Hstep. destruct (Z.testbit m (k - 1)); simpl.
      * symmetry. apply negb_true_iff. apply Z.eqb_neq. lia.
      * rewrite Z.add_0_r. reflexivity.
Qed.

Lemma iter_shr_1_shifted (p : positive) (m k : Z) :
  0 ≤ m → 0 ≤ k →
  SpecFloat.iter_pos shr_1 p (shifted m k) = shifted m (k + Z.pos p).
Proof.
  intros Hm. revert k.
  induction p as [p IH|p IH|]; intros k Hk; cbn [SpecFloat.iter_pos].
  - rewrite shr_1_shifted, IH, IH by lia. f_equal. lia.
  - rewrite IH, IH by lia. f_equal. lia.
  - apply shr_1_shifted; assumption.
Qed.

Lemma shifted_m (m k : Z) : 0 ≤ k → shr_m (shifted m k) = m / 2 ^ k.
Proof.
  intros Hk. unfold shifted. destruct (Z.eqb_spec k 0) as [->|Hne]; simpl.
  - rewrite Z.div_1_r. reflexivity.
  - reflexivity.
Qed.

(** [shr_fexp] on an exact mantissa. *)
Lemma shr_fexp_exact (m e : Z) :
  0 ≤ m →
  shr_fexp F64.prec F64.emax m e loc_Exact
  = (shifted m (Z.max 0 (fexp F64.prec F64.emax (Zdigits2 m + e) - e)),
     e + Z.max 0 (fexp F64.prec F64.emax (Zdigits2 m + e) - e)).
Proof.
  intros Hm. unfold shr_fexp, shr. cbn [shr_record_of_loc].
  destruct (fexp F64.prec F64.emax (Zdigits2 m + e) - e) as [|p|p] eqn:En.
  - simpl Z.max. rewrite Z.add_0_r. reflexivity.
  - replace (Z.max 0 (Z.pos p)) with (Z.pos p) by lia.
    change (Build_shr_record m false false) with (shifted m 0).
    rewrite iter_shr_1_shifted by lia. reflexivity.
  - replace (Z.max 0 (Z.neg p)) with 0 by lia. rewrite Z.add_0_r. reflexivity.
Qed.

Lemma nearest_zero (m : Z) : nearest m 0 = m.
Proof. reflexivity. Qed.

(** The rounding decision, read off the bits dropped. *)
Lemma nearest_spec (m n : Z) :
  0 ≤ m → 1 ≤ n →
  nearest m n
  = m / 2 ^ n
    + (if Z.testbit m (n - 1)
       then if negb (Z.eqb (m mod 2 ^ (n - 1)) 0) then 1
            else if Z.even (m / 2 ^ n) then 0 else 1
       else 0).
Proof.
  intros Hm Hn. unfold nearest, shifted.
  replace (Z.eqb n 0) with false by (symmetry; apply Z.eqb_neq; lia).
  cbn [shr_m loc_of_shr_record].
  destruct (Z.testbit m (n - 1)), (negb (Z.eqb (m mod 2 ^ (n - 1)) 0));
    cbn [round_nearest_even]; try lia.
  destruct (Z.even (m / 2 ^ n)); lia.
Qed.

Lemma nearest_bounds (m n : Z) :
  0 ≤ m → 0 ≤ n → m / 2 ^ n ≤ nearest m n ≤ m / 2 ^ n + 1.
Proof.
  intros Hm Hn. destruct (Z.eq_dec n 0) as [->|Hne].
  - rewrite nearest_zero, Z.div_1_r. lia.
  - rewrite nearest_spec by lia.
    destruct (Z.testbit m (n - 1)), (negb (Z.eqb (m mod 2 ^ (n - 1)) 0)),
      (Z.even (m / 2 ^ n)); lia.
Qed.

(** A mantissa split at bit [n]: quotient, the bit below and the rest. *)
Lemma split_at (m n : Z) :
  0 ≤ m → 1 ≤ n →
  m = m / 2 ^ n * 2 ^ n
      + (if Z.testbit m (n - 1) then 2 ^ (n - 1) else 0)
      + m mod 2 ^ (n - 1)
  ∧ 0 ≤ m mod 2 ^ (n - 1) < 2 ^ (n - 1)
  ∧ 2 ^ n = 2 * 2 ^ (n - 1).
Proof.
  intros Hm Hn.
  assert (0 < 2 ^ (n - 1)) by (apply Z.pow_pos_nonneg; lia).
  assert (2 ^ n = 2 * 2 ^ (n - 1)) as Hpow
    by (rewrite <- Z.pow_succ_r by lia; f_equal; lia).
  pose proof (mod_pow2_step m (n - 1) Hm ltac:(lia)) as Hstep.
  replace (n - 1 + 1) with n in Hstep by lia.
  pose proof (Z.div_mod m (2 ^ n) ltac:(lia)) as Hdm.
  pose proof (Z.mod_pos_bound m (2 ^ (n - 1)) ltac:(lia)).
  split; [|split; [assumption|exact Hpow]].
  destruct (Z.testbit m (n - 1)); lia.
Qed.

Lemma nearest_mono (m1 m2 n : Z) :
  0 ≤ m1 ≤ m2 → 0 ≤ n → nearest m1 n ≤ nearest m2 n.
Proof.
  intros [Hm1 Hle] Hn. destruct (Z.eq_dec n 0) as [->|Hne].
  { rewrite !nearest_zero. exact Hle. }
  assert (0 < 2 ^ n) by (apply Z.pow_pos_nonneg; lia).
  pose proof (Z.div_le_mono m1 m2 (2 ^ n) ltac:(lia) Hle) as Hq.
  destruct (Z.eq_dec (m1 / 2 ^ n) (m2 / 2 ^ n)) as [Heq|Hlt].
  - rewrite !nearest_spec by lia.
    destruct (split_at m1 n Hm1 ltac:(lia)) as (E1 & B1 & Hpow).
    destruct (split_at m2 n ltac:(lia) ltac:(lia)) as (E2 & B2 & _).
    rewrite <- Heq in *.
    destruct (Z.testbit m1 (n - 1)) eqn:Hb1, (Z.testbit m2 (n - 1)) eqn:Hb2;
      destruct (Z.eqb_spec (m1 mod 2 ^ (n - 1)) 0) as [Hz1|Hz1];
      destruct (Z.eqb_spec (m2 mod 2 ^ (n - 1)) 0) as [Hz2|Hz2];
      simpl negb; cbv iota; destruct (Z.even (m1 / 2 ^ n)); try lia.
  - pose proof (nearest_bounds m1 n Hm1 Hn). pose proof (nearest_bounds m2 n ltac:(lia) Hn).
    lia.
Qed.

Lemma nearest_nonneg (m n : Z) : 0 ≤ m → 0 ≤ n → 0 ≤ nearest m n.
Proof.
  intros Hm Hn. pose proof (nearest_bounds m n Hm Hn).
  assert (0 ≤ m / 2 ^ n) by (apply Z.div_pos; [lia|apply Z.pow_pos_nonneg; lia]).
  lia.
Qed.

(** Rounding an exact mantissa, step by step. *)
Lemma round_aux_exact (s : bool) (m e : Z) :
  0 ≤ m →
  let n := Z.max 0 (fexp F64.prec F64.emax (Zdigits2 m + e) - e) in
  let m2 := nearest m n in
  let k := Z.max 0 (fexp F64.prec F64.emax (Zdigits2 m2 + (e + n)) - (e + n)) in
  binary_round_aux F64.prec F64.emax s m e loc_Exact
  = pack s (m2 / 2 ^ k) (e + n + k).
Proof.
  intros Hm n m2 k. unfold binary_round_aux.
  rewrite shr_fexp_exact by exact Hm. fold n.
  change (round_nearest_even (shr_m (shifted m n)) (loc_of_shr_record (shifted m n)))
    with m2.
  rewrite shr_fexp_exact by (apply nearest_nonneg; lia). fold k.
  rewrite shifted_m by lia. reflexivity.
Qed.

Lemma quotient_digits (u n : Z) :
  0 ≤ u → 1 ≤ n → Zdigits2 u = n + 53 → 2 ^ 52 ≤ u / 2 ^ n < 2 ^ 53.
Proof.
  intros Hu Hn Hd.
  assert (0 < u) by (destruct u; simpl in *; lia).
  pose proof (Zdigits2_bounds u ltac:(lia)) as [Hlo Hhi]. rewrite Hd in *.
  assert (0 < 2 ^ n) by (apply Z.pow_pos_nonneg; lia).
  split.
  - apply Z.div_le_lower_bound; [lia|].
    rewrite <- Z.pow_add_r by lia. replace (n + 52) with (n + 53 - 1) by lia. exact Hlo.
  - apply Z.div_lt_upper_bound; [lia|].
    rewrite <- Z.pow_add_r by lia. exact Hhi.
Qed.

Lemma round_key_range (u : Z) :
  0 ≤ u →
  0 ≤ (round_key u).1 < 2 ^ 53
  ∧ -1074 ≤ (round_key u).2
  ∧ (-1074 < (round_key u).2 → 2 ^ 52 ≤ (round_key u).1)
  ∧ ((round_key u).1 = 0 → u = 0).
Proof.
  intros Hu. unfold round_key.
  set (n := Z.max 0 (Zdigits2 u - 53)).
  pose proof (nearest_bounds u n Hu ltac:(lia)) as Hb.
  pose proof (Zdigits2_nonneg u) as Hd.
  destruct (Z.ltb_spec (nearest u n) (2 ^ 53)) as [Hlt|Hge]; simpl.
  - destruct (Z.eq_dec n 0) as [Hn0|Hn0].
    + rewrite Hn0 in *. rewrite nearest_zero in *. repeat split; lia.
    + pose proof (quotient_digits u n Hu ltac:(lia) ltac:(lia)).
      repeat split; lia.
  - repeat split; lia.
Qed.

Lemma round_units_key (u : Z) : 0 ≤ u → round_units u = pack false (round_key u).1 (round_key u).2.
Proof.
  intros Hu. unfold round_units. rewrite round_aux_exact by exact Hu. cbv zeta.
  unfold round_key. rewrite fexp_spec.
  replace (Z.max 0 (Z.max (Zdigits2 u + -1074 - 53) (-1074) - -1074))
    with (Z.max 0 (Zdigits2 u - 53)) by lia.
  set (n := Z.max 0 (Zdigits2 u - 53)).
  pose proof (nearest_bounds u n Hu ltac:(lia)) as Hb.
  pose proof (nearest_nonneg u n Hu ltac:(lia)) as Hnn.
  assert (nearest u n ≤ 2 ^ 53) as Hle.
  { destruct (Z.eq_dec n 0) as [Hn0|Hn0].
    - rewrite Hn0 in *. rewrite nearest_zero.
      pose proof (Zdigits2_nonneg u).
      destruct (Z.eq_dec u 0) as [->|]; [lia|].
      pose proof (Zdigits2_bounds u ltac:(lia)) as [_ Hhi].
      pose proof (Z.pow_le_mono_r 2 (Zdigits2 u) 53). lia.
    - pose proof (quotient_digits u n Hu ltac:(lia) ltac:(lia)). lia. }
  rewrite fexp_spec.
  destruct (Z.ltb_spec (nearest u n) (2 ^ 53)) as [Hlt|Hge]; simpl fst; simpl snd.
  - pose proof (Zdigits2_lt_pow2 (nearest u n) 53 Hnn ltac:(lia) Hlt).
    replace (Z.max 0 (Z.max (Zdigits2 (nearest u n) + (-1074 + n) - 53) (-1074)
                      - (-1074 + n))) with 0 by lia.
    rewrite Z.div_1_r, Z.add_0_r. reflexivity.
  - assert (nearest u n = 2 ^ 53) as -> by lia.
    rewrite (Zdigits2_pow2 53) by lia.
    replace (Z.max 0 (Z.max (53 + 1 + (-1074 + n) - 53) (-1074) - (-1074 + n)))
      with 1 by lia.
    reflexivity.
Qed.

(** Rounding is monotone: more units give a larger exponent, or the same
    exponent and a mantissa at least as large. *)
Lemma round_key_mono (u1 u2 : Z) :
  0 ≤ u1 ≤ u2 →
  (round_key u1).2 < (round_key u2).2
  ∨ ((round_key u1).2 = (round_key u2).2 ∧ (round_key u1).1 ≤ (round_key u2).1).
Proof.
  intros [Hu1 Hu12]. unfold round_key.
  pose proof (Zdigits2_mono u1 u2 ltac:(lia)) as Hd.
  pose proof (Zdigits2_nonneg u1) as Hd1.
  set (n1 := Z.max 0 (Zdigits2 u1 - 53)). set (n2 := Z.max 0 (Zdigits2 u2 - 53)).
  pose proof (nearest_bounds u1 n1 Hu1 ltac:(lia)) as Hb1.
  pose proof (nearest_bounds u2 n2 ltac:(lia) ltac:(lia)) as Hb2.
  destruct (Z.eq_dec n1 n2) as [Heq|Hne].
  - pose proof (nearest_mono u1 u2 n1 ltac:(lia) ltac:(lia)) as Hmono.
    rewrite <- Heq in *.
    destruct (Z.ltb_spec (nearest u1 n1) (2 ^ 53)),
             (Z.ltb_spec (nearest u2 n1) (2 ^ 53)); simpl; lia.
  - assert (n1 < n2) by lia.
    pose proof (quotient_digits u2 n2 ltac:(lia) ltac:(lia) ltac:(lia)) as Hq.
    destruct (Z.ltb_spec (nearest u1 n1) (2 ^ 53)),
             (Z.ltb_spec (nearest u2 n2) (2 ^ 53)); simpl; lia.
Qed.

Lemma div_pack_le (Ma Ea : Z) (md : positive) (ed : Z) :
  0 < Ma < 2 ^ 53 → -1074 ≤ Ea →
  (-1074 < ed → 2 ^ 52 ≤ Z.pos md) → ed ≤ 971 →
  Ea < ed ∨ (Ea = ed ∧ Ma ≤ Z.pos md) →
  F64.is_nan (F64.div (pack false Ma Ea) (S754_finite false md ed)) = false
  ∧ F64.ltb (F64.div (pack false Ma Ea) (S754_finite false md ed)) F64.zero = false
  ∧ F64.ltb F64.one (F64.div (pack false Ma Ea) (S754_finite false md ed)) = false.
Proof.
  intros HMa HEa Hnormal Hed Hle.
  destruct Ma as [|ma|ma]; try lia. unfold pack.
  destruct (Z.leb_spec Ea 971) as [_|]; [|lia].
  apply div_le_one; [lia|].
  destruct Hle as [Hlt|[-> Hle]].
  - specialize (Hnormal ltac:(lia)).
    pose proof (Z.pow_le_mono_r 2 1 (ed - Ea) ltac:(lia) ltac:(lia)) as Hp.
    change (2 ^ 1) with 2 in Hp. nia.
  - rewrite Z.sub_diag. simpl. lia.
Qed.

(** Trailing zero bits do not change the rounded mantissa. *)
Lemma nearest_scale (m n j : Z) :
  0 ≤ m → 0 ≤ n → 0 ≤ j → nearest (m * 2 ^ j) (n + j) = nearest m n.
Proof.
  intros Hm Hn Hj.
  assert (0 < 2 ^ j) as Hpj by (apply Z.pow_pos_nonneg; lia).
  destruct (Z.eq_dec j 0) as [->|Hj0].
  { rewrite Z.pow_0_r, Z.mul_1_r, Z.add_0_r. reflexivity. }
  destruct (Z.eq_dec n 0) as [->|Hn0].
  - rewrite nearest_zero, Z.add_0_l.
    rewrite nearest_spec by (try apply Z.mul_nonneg_nonneg; lia).
    rewrite Z.div_mul by lia.
    rewrite Z.mul_pow2_bits_low by lia. lia.
  - rewrite (nearest_spec m n) by lia.
    rewrite nearest_spec by (try apply Z.mul_nonneg_nonneg; lia).
    assert (0 < 2 ^ n) by (apply Z.pow_pos_nonneg; lia).
    assert (0 < 2 ^ (n - 1)) by (apply Z.pow_pos_nonneg; lia).
    assert (m * 2 ^ j / 2 ^ (n + j) = m / 2 ^ n) as ->
      by (rewrite Z.pow_add_r by lia; apply Z.div_mul_cancel_r; lia).
    replace (n + j - 1) with (j + (n - 1)) by lia.
    assert (Z.testbit (m * 2 ^ j) (j + (n - 1)) = Z.testbit m (n - 1)) as ->
      by (apply Z.mul_pow2_bits_add; lia).
    assert ((m * 2 ^ j) mod 2 ^ (j + (n - 1)) = m mod 2 ^ (n - 1) * 2 ^ j) as ->
      by (rewrite Z.pow_add_r, (Z.mul_comm (2 ^ j)) by lia;
          apply Z.mul_mod_distr_r; lia).
    replace (Z.eqb (m mod 2 ^ (n - 1) * 2 ^ j) 0) with (Z.eqb (m mod 2 ^ (n - 1)) 0).
    + reflexivity.
    + destruct (Z.eqb_spec (m mod 2 ^ (n - 1)) 0) as [->|Hne]; [reflexivity|].
      symmetry. apply Z.eqb_neq. nia.
Qed.

(** A mantissa at or below its canonical exponent rounds the same when
    it is written with more trailing zeros. *)
Lemma round_aux_scale (m e j : Z) :
  0 < m → 0 ≤ j →
  e ≤ fexp F64.prec F64.emax (Zdigits2 m + e) →
  binary_round_aux F64.prec F64.emax false (m * 2 ^ j) (e - j) loc_Exact
  = binary_round_aux F64.prec F64.emax false m e loc_Exact.
Proof.
  intros Hm Hj He.
  assert (0 < 2 ^ j) as Hpj by (apply Z.pow_pos_nonneg; lia).
  rewrite !round_aux_exact by nia. cbv zeta.
  rewrite Zdigits2_mul_pow2 by lia.
  replace (Zdigits2 m + j + (e - j)) with (Zdigits2 m + e) by lia.
  set (f := fexp F64.prec F64.emax (Zdigits2 m + e)) in *.
  replace (Z.max 0 (f - (e - j))) with (Z.max 0 (f - e) + j) by lia.
  rewrite nearest_scale by lia.
  replace (e - j + (Z.max 0 (f - e) + j)) with (e + Z.max 0 (f - e)) by lia.
  reflexivity.
Qed.

Lemma shl_align_spec (m : positive) (e e' : Z) :
  e' ≤ e →
  ∃ m', shl_align m e e' = (m', e') ∧ Z.pos m' = Z.pos m * 2 ^ (e - e').
Proof.
  intros He. unfold shl_align.
  destruct (e' - e) as [|d|d] eqn:Hd; try lia.
  - exists m. assert (e' = e) as -> by lia. rewrite Z.sub_diag. split; [reflexivity|].
    simpl. lia.
  - exists (shift_pos d m). split; [reflexivity|].
    unfold shift_pos. rewrite pos_iter_xO. f_equal. f_equal. lia.
Qed.

Lemma shl_align_id (m : positive) (e e' : Z) : e ≤ e' → shl_align m e e' = (m, e).
Proof.
  intros He. unfold shl_align. destruct (e' - e) as [|d|d] eqn:Hd; try lia; reflexivity.
Qed.

(** Rounding a positive integer multiple of a power of two is rounding
    its number of units. *)
Lemma binary_round_units (p : positive) (E : Z) :
  -1074 ≤ E →
  binary_round F64.prec F64.emax false p E = round_units (Z.pos p * 2 ^ (E + 1074)).
Proof.
  intros HE. unfold binary_round, round_units.
  change (Z.pos (digits2_pos p)) with (Zdigits2 (Z.pos p)).
  set (f := fexp F64.prec F64.emax (Zdigits2 (Z.pos p) + E)).
  assert (-1074 ≤ f) as Hf by apply fexp_ge_emin.
  destruct (Z.le_gt_cases E f) as [Hle|Hgt].
  - rewrite shl_align_id by exact Hle.
    rewrite <- (round_aux_scale (Z.pos p) E (E + 1074)) by (fold f; lia).
    f_equal. lia.
  - destruct (shl_align_spec p E f ltac:(lia)) as (m' & -> & Hm').
    rewrite <- (round_aux_scale (Z.pos m') f (f + 1074)).
    + f_equal; [|lia]. rewrite Hm', <- Z.mul_assoc, <- Z.pow_add_r by lia.
      f_equal. f_equal. lia.
    + lia.
    + lia.
    + rewrite Hm', Zdigits2_mul_pow2 by lia.
      replace (Zdigits2 (Z.pos p) + (E - f) + f) with (Zdigits2 (Z.pos p) + E) by lia.
      fold f. lia.
Qed.

(** A valid finite value is the rounding of its own number of units. *)
Lemma round_units_bounded (m : positive) (e : Z) :
  bounded F64.prec F64.emax m e = true →
  round_units (Z.pos m * 2 ^ (e + 1074)) = S754_finite false m e.
Proof.
  intros Hb. pose proof (bounded_canonical m e Hb) as [Hc _].
  pose proof (bounded_spec m e Hb) as [He _].
  rewrite <- (round_aux_canonical false m e Hb).
  unfold round_units. rewrite <- (round_aux_scale (Z.pos m) e (e + 1074)).
  - f_equal. lia.
  - lia.
  - lia.
  - change (Zdigits2 (Z.pos m)) with (Z.pos (digits2_pos m)). lia.
Qed.

Lemma mantissa_range (m : positive) (e : Z) :
  bounded F64.prec F64.emax m e = true →
  -1074 ≤ e ≤ 971 ∧ Z.pos m < 2 ^ 53 ∧ (-1074 < e → 2 ^ 52 ≤ Z.pos m).
Proof.
  intros Hb. destruct (bounded_spec m e Hb) as [He Hd].
  pose proof (Zdigits2_bounds (Z.pos m) ltac:(lia)) as [Hlo Hhi].
  change (Zdigits2 (Z.pos m)) with (Z.pos (digits2_pos m)) in *.
  split; [exact He|]. split.
  - pose proof (Z.pow_le_mono_r 2 (Z.pos (digits2_pos m)) 53 ltac:(lia)). lia.
  - intros Hn. destruct Hd as [[? _]|[_ Hd]]; [lia|]. rewrite Hd in Hlo. exact Hlo.
Qed.

(** Among valid values the larger exponent is the larger value. *)
Lemma units_lt_exp (m1 m2 : positive) (e1 e2 : Z) :
  bounded F64.prec F64.emax m1 e1 = true →
  bounded F64.prec F64.emax m2 e2 = true →
  e1 < e2 →
  Z.pos m1 * 2 ^ (e1 + 1074) < Z.pos m2 * 2 ^ (e2 + 1074).
Proof.
  intros H1 H2 Hlt.
  destruct (mantissa_range m1 e1 H1) as (He1 & Hm1 & _).
  destruct (mantissa_range m2 e2 H2) as (He2 & _ & Hm2).
  specialize (Hm2 ltac:(lia)).
  replace (e2 + 1074) with ((e2 - e1) + (e1 + 1074)) by lia.
  rewrite (Z.pow_add_r 2 (e2 - e1) (e1 + 1074)) by lia.
  assert (0 < 2 ^ (e1 + 1074)) by (apply Z.pow_pos_nonneg; lia).
  pose proof (Z.pow_le_mono_r 2 1 (e2 - e1) ltac:(lia) ltac:(lia)) as Hp.
  change (2 ^ 1) with 2 in Hp.
  assert (Z.pos m1 < Z.pos m2 * 2 ^ (e2 - e1)) by nia.
  nia.
Qed.

(** The comparison of two valid finite values is the comparison of their
    numbers of units. *)
Lemma ltb_false_units (x y : spec_float) :
  F64.valid x = true → F64.valid y = true →
  finite_value x = true → finite_value y = true →
  F64.ltb x y = false → units y ≤ units x.
Proof.
  intros Hvx Hvy Hfx Hfy.
  destruct x as [sx|sx| |sx mx ex]; try discriminate;
    destruct y as [sy|sy| |sy my ey]; try discriminate;
    unfold F64.ltb, SFltb, SFcompare, units, cond_Zopp.
  - destruct sy; [lia|discriminate].
  - destruct sx; [discriminate|lia].
  - simpl in Hvx, Hvy.
    assert (0 < 2 ^ (ex + 1074))
      by (apply Z.pow_pos_nonneg; [lia|]; destruct (mantissa_range mx ex Hvx); lia).
    assert (0 < 2 ^ (ey + 1074))
      by (apply Z.pow_pos_nonneg; [lia|]; destruct (mantissa_range my ey Hvy); lia).
    change (Pos.compare_cont Eq mx my) with (Pos.compare mx my).
    destruct sx, sy; try discriminate; try nia.
    + destruct (Z.compare_spec ex ey) as [->|Hlt|Hgt].
      * destruct (Pos.compare_spec mx my); simpl; try discriminate; intros _; nia.
      * intros _. pose proof (units_lt_exp mx my ex ey Hvx Hvy Hlt). lia.
      * discriminate.
    + destruct (Z.compare_spec ex ey) as [->|Hlt|Hgt].
      * destruct (Pos.compare_spec mx my); simpl; try discriminate; intros _; nia.
      * discriminate.
      * intros _. pose proof (units_lt_exp my mx ey ex Hvy Hvx ltac:(lia)). lia.
Qed.

Lemma cond_Zopp_mul (s : bool) (a b : Z) : cond_Zopp s (a * b) = cond_Zopp s a * b.
Proof. destruct s; simpl; lia. Qed.

(** A difference of valid finite values is the rounding of the
    difference of their numbers of units. *)
Lemma sub_units (x y : spec_float) :
  F64.valid x = true → F64.valid y = true →
  finite_value x = true → finite_value y = true →
  units y ≤ units x →
  (units x = units y ∧ F64.is_zero (F64.sub x y) = true)
  ∨ (units y < units x ∧ F64.sub x y = round_units (units x - units y)).
Proof.
  intros Hvx Hvy Hfx Hfy.
  destruct x as [sx|sx| |sx mx ex]; try discriminate;
    destruct y as [sy|sy| |sy my ey]; try discriminate;
    unfold F64.sub, SFsub, units; intros Hle.
  - left. split; [reflexivity|]. destruct sx, sy; reflexivity.
  - simpl in Hvy. destruct (mantissa_range my ey Hvy) as (He & _ & _).
    assert (0 < 2 ^ (ey + 1074)) by (apply Z.pow_pos_nonneg; lia).
    destruct sy; simpl in Hle |- *; [|nia].
    right. split; [nia|].
    replace (0 - - (Z.pos my * 2 ^ (ey + 1074))) with (Z.pos my * 2 ^ (ey + 1074))
      by lia.
    symmetry. apply round_units_bounded, Hvy.
  - simpl in Hvx. destruct (mantissa_range mx ex Hvx) as (He & _ & _).
    assert (0 < 2 ^ (ex + 1074)) by (apply Z.pow_pos_nonneg; lia).
    destruct sx; simpl in Hle |- *; [nia|].
    right. split; [nia|]. rewrite Z.sub_0_r. symmetry. apply round_units_bounded, Hvx.
  - simpl in Hvx, Hvy.
    destruct (mantissa_range mx ex Hvx) as (Hex & _ & _).
    destruct (mantissa_range my ey Hvy) as (Hey & _ & _).
    cbv zeta. set (ez := Z.min ex ey).
    destruct (shl_align_spec mx ex ez ltac:(lia)) as (mx' & -> & Hmx').
    destruct (shl_align_spec my ey ez ltac:(lia)) as (my' & -> & Hmy').
    cbn [fst].
    assert (0 < 2 ^ (ez + 1074)) as Hpz by (apply Z.pow_pos_nonneg; lia).
    assert (Z.pos mx * 2 ^ (ex + 1074) = Z.pos mx' * 2 ^ (ez + 1074)) as Hux.
    { rewrite Hmx', <- Z.mul_assoc, <- Z.pow_add_r by lia. f_equal. f_equal. lia. }
    assert (Z.pos my * 2 ^ (ey + 1074) = Z.pos my' * 2 ^ (ez + 1074)) as Huy.
    { rewrite Hmy', <- Z.mul_assoc, <- Z.pow_add_r by lia. f_equal. f_equal. lia. }
    rewrite Hux, Huy, !cond_Zopp_mul in Hle |- *.
    rewrite <- Z.mul_sub_distr_r.
    set (z := cond_Zopp sx (Z.pos mx') - cond_Zopp sy (Z.pos my')) in *.
    assert (cond_Zopp sy (Z.pos my') * 2 ^ (ez + 1074)
            ≤ cond_Zopp sx (Z.pos mx') * 2 ^ (ez + 1074)
            → 0 ≤ z) as Hz by (unfold z; nia).
    specialize (Hz Hle).
    destruct z as [|p|p] eqn:Ez; [| |lia].
    + left. split; [|reflexivity]. unfold z in Ez. nia.
    + right. split; [unfold z in Ez; nia|]. unfold binary_normalize.
      apply binary_round_units. lia.
Qed.

Lemma sub_operands (x y : spec_float) :
  finite_value (F64.sub x y) = true →
  finite_value x = true ∧ finite_value y = true.
Proof.
  intros H. destruct x as [sx|sx| |sx mx ex], y as [sy|sy| |sy my ey];
    try (split; reflexivity);
    repeat match goal with b : bool |- _ => destruct b end; discriminate.
Qed.

Lemma sub_finite_operands (x y : spec_float) (s : bool) (m : positive) (e : Z) :
  F64.sub x y = S754_finite s m e →
  finite_value x = true ∧ finite_value y = true.
Proof. intros H. apply sub_operands. rewrite H. reflexivity. Qed.

(** A cell between the minimum and the maximum of its column. *)
Lemma between_finite (x mn mx : spec_float) :
  finite_value mn = true → finite_value mx = true →
  F64.is_nan x = false →
  F64.ltb x mn = false → F64.ltb mx x = false →
  finite_value x = true.
Proof.
  intros Hmn Hmx Hnan Hlo Hhi.
  destruct x as [sx|sx| |sx m e]; try reflexivity; [|discriminate].
  destruct sx.
  - destruct mn; discriminate.
  - destruct mx; discriminate.
Qed.

Lemma pack_finite (M E : Z) (s : bool) (m : positive) (e : Z) :
  pack false M E = S754_finite s m e → s = false ∧ M = Z.pos m ∧ E = e ∧ e ≤ 971.
Proof.
  unfold pack. destruct M as [|p|p]; try discriminate.
  destruct (Z.leb_spec E 971) as [Hle|Hgt]; [|discriminate].
  intros Heq. injection Heq as <- <- <-. auto.
Qed.

(** One cell of a scaled float64 column whose range is finite. *)
Lemma scale_float_cell (x mn mx : spec_float) (sd : bool) (md : positive) (ed : Z) :
  F64.valid x = true → F64.valid mn = true → F64.valid mx = true →
  F64.is_nan x = false →
  F64.ltb x mn = false → F64.ltb mx x = false →
  F64.sub mx mn = S754_finite sd md ed →
  let y := F64.div (F64.sub x mn) (F64.sub mx mn) in
  F64.is_nan y = false ∧ F64.ltb y F64.zero = false ∧ F64.ltb F64.one y = false.
Proof.
  intros Hvx Hvmn Hvmx Hnan Hlo Hhi Hd. cbv zeta.
  destruct (sub_finite_operands _ _ _ _ _ Hd) as [Hfmx Hfmn].
  pose proof (between_finite x mn mx Hfmn Hfmx Hnan Hlo Hhi) as Hfx.
  pose proof (ltb_false_units x mn Hvx Hvmn Hfx Hfmn Hlo) as Hu1.
  pose proof (ltb_false_units mx x Hvmx Hvx Hfmx Hfx Hhi) as Hu2.
  destruct (sub_units mx mn Hvmx Hvmn Hfmx Hfmn ltac:(lia)) as [[_ Hz]|[Hlt HR]].
  { rewrite Hd in Hz. discriminate. }
  rewrite Hd in HR. rewrite round_units_key in HR by lia. symmetry in HR.
  apply pack_finite in HR as (-> & HM & HE & Hed).
  destruct (round_key_range (units mx - units mn) ltac:(lia)) as (_ & _ & Hnormal & _).
  rewrite Hd.
  destruct (sub_units x mn Hvx Hvmn Hfx Hfmn Hu1) as [[_ Hz]|[Hlt' Ha]].
  - destruct (F64.sub x mn) as [s| | |]; try discriminate.
    unfold F64.div, SFdiv. repeat split; reflexivity.
  - rewrite Ha, round_units_key by lia.
    destruct (round_key_range (units x - units mn) ltac:(lia)) as (Hr & HEa & _ & Hnz).
    pose proof (round_key_mono (units x - units mn) (units mx - units mn) ltac:(lia))
      as Hmono.
    apply div_pack_le; [lia|lia|lia|lia|lia].
Qed.

Lemma scale_float_low (mn mx : spec_float) (sd : bool) (md : positive) (ed : Z) :
  F64.valid mn = true →
  F64.sub mx mn = S754_finite sd md ed →
  F64.is_zero (F64.div (F64.sub mn mn) (F64.sub mx mn)) = true.
Proof.
  intros Hv Hd. destruct (sub_finite_operands _ _ _ _ _ Hd) as [_ Hf].
  rewrite Hd.
  destruct (sub_units mn mn Hv Hv Hf Hf ltac:(lia)) as [[_ Hz]|[Hlt _]]; [|lia].
  destruct (F64.sub mn mn) as [s| | |]; try discriminate. reflexivity.
Qed.

(** A float64 column whose range max - min is a finite number other than
    zero: scaled once it has minimum zero and maximum one. *)
Lemma scale_float_range (xs : list spec_float) (sd : bool) (md : positive) (ed : Z) :
  Forall (λ x, F64.valid x = true) xs →
  F64.sub (F64.col_max xs) (F64.col_min xs) = S754_finite sd md ed →
  F64.is_zero (F64.col_min (scale_float xs)) = true
  ∧ F64.col_max (scale_float xs) = F64.one.
Proof.
  intros Hvalid Hd. rewrite Forall_forall in Hvalid.
  destruct (sub_finite_operands _ _ _ _ _ Hd) as [Hfmx Hfmn].
  assert (float_minimum (F64.col_min xs) xs) as (Hmn_in & _ & Hmn).
  { unfold F64.col_min in *.
    destruct (foldl_min_step [] xs S754_nan) as [[Hn _]|Hmin]; [| |exact Hmin].
    - left. split; [reflexivity|constructor].
    - destruct (foldl F64.min_step S754_nan xs); discriminate. }
  assert (float_maximum (F64.col_max xs) xs) as (Hmx_in & _ & Hmx).
  { unfold F64.col_max in *.
    destruct (foldl_max_step [] xs S754_nan) as [[Hn _]|Hmax]; [| |exact Hmax].
    - left. split; [reflexivity|constructor].
    - destruct (foldl F64.max_step S754_nan xs); discriminate. }
  unfold scale_float. cbv zeta.
  set (mn := F64.col_min xs) in *. set (mx := F64.col_max xs) in *.
  set (f := λ x, F64.div (F64.sub x mn) (F64.sub mx mn)).
  assert (∀ x, x ∈ xs → F64.ltb (f x) F64.zero = false
                        ∧ F64.ltb F64.one (f x) = false) as Hcell.
  { intros x Hx. destruct (F64.is_nan x) eqn:Hnan.
    - destruct x; try discriminate. split; reflexivity.
    - destruct (scale_float_cell x mn mx sd md ed) as (_ & H0 & H1); auto. }
  split.
  - apply (col_min_zero _ (f mn)).
    + apply list_elem_of_fmap_2, Hmn_in.
    + apply (scale_float_low mn mx sd md ed); auto.
    + intros y Hy. apply list_elem_of_fmap_1 in Hy as (x & -> & Hx).
      apply (Hcell x Hx).
  - apply col_max_one.
    + assert (f mx = F64.one) as <- by (unfold f; rewrite Hd; apply div_self).
      apply (list_elem_of_fmap_2 f), Hmx_in.
    + intros y Hy. apply list_elem_of_fmap_1 in Hy as (x & -> & Hx).
      apply (Hcell x Hx).
Qed.

(** Conversion of a positive integer. *)
Lemma of_Z_units (z : Z) : 0 < z → F64.of_Z z = round_units (z * 2 ^ 1074).
Proof.
  intros Hz. destruct z as [|p|p]; try lia.
  unfold F64.of_Z, binary_normalize. apply (binary_round_units p 0). lia.
Qed.

(** Below 2^2098 units there is no overflow. *)
Lemma round_units_finite (u : Z) :
  0 < u → Zdigits2 u ≤ 2097 →
  ∃ m, round_units u = S754_finite false m (round_key u).2 ∧ Z.pos m = (round_key u).1.
Proof.
  intros Hu Hd. rewrite round_units_key by lia.
  destruct (round_key_range u ltac:(lia)) as (HM & _ & _ & Hnz).
  assert ((round_key u).2 ≤ 971) as HE.
  { unfold round_key. destruct (Z.ltb (nearest u (Z.max 0 (Zdigits2 u - 53))) (2 ^ 53));
      simpl; lia. }
  destruct (round_key u) as [M E]. simpl in *. unfold pack.
  destruct M as [|m|m]; try lia.
  exists m. destruct (Z.leb_spec E 971); [auto|lia].
Qed.

(** One cell of a scaled int64 column whose range fits in int64. *)
Lemma scale_int_cell (x mn mx : Z) :
  mn ≤ x ≤ mx → mn < mx → mx - mn < 2 ^ 63 →
  let y := F64.div (F64.of_Z (I64.sub x mn)) (F64.of_Z (I64.sub mx mn)) in
  F64.is_nan y = false ∧ F64.ltb y F64.zero = false ∧ F64.ltb F64.one y = false
  ∧ (x = mn → y = F64.zero) ∧ (x = mx → y = F64.one).
Proof.
  intros Hx Hlt Hfit. cbv zeta. unfold I64.sub.
  rewrite !wrap_small by lia.
  rewrite (of_Z_units (mx - mn)) by lia.
  assert (Zdigits2 ((mx - mn) * 2 ^ 1074) ≤ 2097) as Hdig.
  { rewrite Zdigits2_mul_pow2 by lia.
    pose proof (Zdigits2_lt_pow2 (mx - mn) 63 ltac:(lia) ltac:(lia) Hfit). lia. }
  assert (0 < 2 ^ 1074) as Hp by (apply Z.pow_pos_nonneg; lia).
  destruct (round_units_finite ((mx - mn) * 2 ^ 1074) ltac:(nia) Hdig) as (md & Hd & Hmd).
  destruct (round_key_range ((mx - mn) * 2 ^ 1074) ltac:(nia)) as (_ & _ & Hnormal & _).
  assert ((round_key ((mx - mn) * 2 ^ 1074)).2 ≤ 971) as Hed.
  { unfold round_key.
    destruct (Z.ltb (nearest ((mx - mn) * 2 ^ 1074)
                       (Z.max 0 (Zdigits2 ((mx - mn) * 2 ^ 1074) - 53))) (2 ^ 53));
      simpl; lia. }
  destruct (Z.eq_dec x mn) as [->|Hne].
  - rewrite Z.sub_diag, Hd. repeat split; try reflexivity. lia.
  - rewrite (of_Z_units (x - mn)) by lia. rewrite Hd.
    split; [|split; [|split; [|split]]]; try (intros; contradiction).
    4: { intros ->. rewrite Hd. apply div_self. }
    all: rewrite round_units_key by nia.
    all: destruct (round_key_range ((x - mn) * 2 ^ 1074) ltac:(nia)) as (Hr & HEa & _ & Hnz).
    all: pose proof (round_key_mono ((x - mn) * 2 ^ 1074) ((mx - mn) * 2 ^ 1074) ltac:(nia))
           as Hmono.
    all: apply div_pack_le; [nia|lia|lia|lia|lia].
Qed.

(** The minimum and the maximum of a column that has them. *)
Lemma col_extrema (xs : list spec_float) :
  finite_value (F64.col_min xs) = true → finite_value (F64.col_max xs) = true →
  float_minimum (F64.col_min xs) xs ∧ float_maximum (F64.col_max xs) xs.
Proof.
  intros Hmn Hmx. split.
  - unfold F64.col_min in *.
    destruct (foldl_min_step [] xs S754_nan) as [[Hn _]|Hmin]; [| |exact Hmin].
    + left. split; [reflexivity|constructor].
    + destruct (foldl F64.min_step S754_nan xs); discriminate.
  - unfold F64.col_max in *.
    destruct (foldl_max_step [] xs S754_nan) as [[Hn _]|Hmax]; [| |exact Hmax].
    + left. split; [reflexivity|constructor].
    + destruct (foldl F64.max_step S754_nan xs); discriminate.
Qed.

(** A column of NaN stays as it is. *)
Lemma scale_nan (mn d : spec_float) (ys : list spec_float) :
  Forall (λ y, F64.is_nan y = true) ys →
  (λ x, F64.div (F64.sub x mn) d) <$> ys = ys.
Proof.
  induction 1 as [|y ys Hy _ IH]; [reflexivity|].
  rewrite fmap_cons, IH. f_equal. destruct y; try discriminate. reflexivity.
Qed.

(** A column whose range is zero, all its values being the same, becomes
    a column of NaN (0/0), and so does one without any value. *)
Lemma scale_float_flat (xs : list spec_float) :
  Forall (λ x, F64.valid x = true) xs →
  F64.is_zero (F64.sub (F64.col_max xs) (F64.col_min xs)) = true
  ∨ F64.is_nan (F64.sub (F64.col_max xs) (F64.col_min xs)) = true →
  Forall (λ y, F64.is_nan y = true) (scale_float xs).
Proof.
  intros Hvalid Hd. unfold scale_float. cbv zeta.
  apply Forall_fmap, Forall_forall. intros x Hx. simpl.
  destruct Hd as [Hd|Hd].
  2: { destruct (F64.sub (F64.col_max xs) (F64.col_min xs)); try discriminate.
       destruct (F64.sub x (F64.col_min xs)); reflexivity. }
  rewrite Forall_forall in Hvalid.
  destruct (sub_operands (F64.col_max xs) (F64.col_min xs)) as [Hfmx Hfmn].
  { destruct (F64.sub (F64.col_max xs) (F64.col_min xs)); try discriminate.
    reflexivity. }
  destruct (col_extrema xs Hfmn Hfmx) as [(Hmn_in & _ & Hmn) (Hmx_in & _ & Hmx)].
  set (mn := F64.col_min xs) in *. set (mx := F64.col_max xs) in *.
  destruct (F64.is_nan x) eqn:Hnan.
  { destruct x; try discriminate. reflexivity. }
  pose proof (between_finite x mn mx Hfmn Hfmx Hnan (Hmn x Hx) (Hmx x Hx)) as Hfx.
  pose proof (ltb_false_units x mn (Hvalid x Hx) (Hvalid mn Hmn_in) Hfx Hfmn (Hmn x Hx))
    as Hu1.
  pose proof (ltb_false_units mx x (Hvalid mx Hmx_in) (Hvalid x Hx) Hfmx Hfx (Hmx x Hx))
    as Hu2.
  destruct (sub_units mx mn (Hvalid mx Hmx_in) (Hvalid mn Hmn_in) Hfmx Hfmn ltac:(lia))
    as [[Heq _]|[Hlt HR]].
  - destruct (sub_units x mn (Hvalid x Hx) (Hvalid mn Hmn_in) Hfx Hfmn Hu1)
      as [[_ Hz]|[Hlt _]]; [|lia].
    destruct (F64.sub x mn); try discriminate.
    destruct (F64.sub mx mn); try discriminate. reflexivity.
  - rewrite HR, round_units_key in Hd by lia.
    destruct (round_key_range (units mx - units mn) ltac:(lia)) as (HM & _ & _ & Hnz).
    destruct (round_key (units mx - units mn)) as [M E]. simpl in *.
    destruct M as [|m|m]; [lia| |lia].
    unfold pack in Hd. destruct (Z.leb E 971); discriminate.
Qed.

Lemma same_cells_refl (ys : list spec_float) : same_cells ys ys.
Proof. apply Forall_Forall2_diag, Forall_forall. intros y _. left. reflexivity. Qed.

(** Scaling a float64 column twice, when its range does not overflow. *)
Lemma scale_float_twice (xs : list spec_float) :
  Forall (λ x, F64.valid x = true) xs →
  (∀ s, F64.sub (F64.col_max xs) (F64.col_min xs) ≠ S754_infinity s) →
  same_cells (scale_float (scale_float xs)) (scale_float xs).
Proof.
  intros Hvalid Hfin.
  destruct (F64.sub (F64.col_max xs) (F64.col_min xs)) as [s|s| |s m e] eqn:Hd.
  - pose proof (scale_float_flat xs Hvalid) as Hnan. rewrite Hd in Hnan.
    specialize (Hnan (or_introl eq_refl)).
    unfold scale_float at 1. cbv zeta. rewrite scale_nan by exact Hnan.
    apply same_cells_refl.
  - destruct (Hfin s eq_refl).
  - pose proof (scale_float_flat xs Hvalid) as Hnan. rewrite Hd in Hnan.
    specialize (Hnan (or_intror eq_refl)).
    unfold scale_float at 1. cbv zeta. rewrite scale_nan by exact Hnan.
    apply same_cells_refl.
  - destruct (scale_float_range xs s m e Hvalid Hd) as [Hmin Hmax].
    apply scale_float_fixed; [|exact Hmin|exact Hmax].
    unfold scale_float. apply Forall_fmap, Forall_forall. intros y _. apply div_valid.
Qed.

(** An int64 column whose range fits in int64 and is not zero: scaled
    once it has minimum zero and maximum one. *)
Lemma scale_int_range (x0 : Z) (rest : list Z) :
  I64.col_min x0 rest < I64.col_max x0 rest →
  I64.col_max x0 rest - I64.col_min x0 rest < 2 ^ 63 →
  F64.is_zero (F64.col_min (scale_int (x0 :: rest))) = true
  ∧ F64.col_max (scale_int (x0 :: rest)) = F64.one.
Proof.
  intros Hlt Hfit. unfold scale_int.
  destruct (int_col_min_minimum x0 rest) as [Hmn_in Hmn].
  destruct (int_col_max_maximum x0 rest) as [Hmx_in Hmx].
  set (mn := I64.col_min x0 rest) in *. set (mx := I64.col_max x0 rest) in *.
  set (f := λ x, F64.div (F64.of_Z (I64.sub x mn)) (F64.of_Z (I64.sub mx mn))).
  assert (∀ x, x ∈ x0 :: rest →
            F64.is_nan (f x) = false ∧ F64.ltb (f x) F64.zero = false
            ∧ F64.ltb F64.one (f x) = false
            ∧ (x = mn → f x = F64.zero) ∧ (x = mx → f x = F64.one)) as Hcell.
  { intros x Hx. apply scale_int_cell.
    - split; [apply Hmn, Hx|apply Hmx, Hx].
    - exact Hlt.
    - exact Hfit. }
  split.
  - apply (col_min_zero _ (f mn)).
    + apply list_elem_of_fmap_2, Hmn_in.
    + destruct (Hcell mn Hmn_in) as (_ & _ & _ & Hz & _). rewrite Hz; reflexivity.
    + intros y Hy. apply list_elem_of_fmap_1 in Hy as (x & -> & Hx).
      apply (Hcell x Hx).
  - apply col_max_one.
    + destruct (Hcell mx Hmx_in) as (_ & _ & _ & _ & Ho). rewrite <- Ho by reflexivity.
      apply (list_elem_of_fmap_2 f), Hmx_in.
    + intros y Hy. apply list_elem_of_fmap_1 in Hy as (x & -> & Hx).
      apply (Hcell x Hx).
Qed.

(** Scaling an int64 column, then the float64 column it has become. *)
Lemma scale_int_twice (xs : list Z) :
  (∀ a b, a ∈ xs → b ∈ xs → a - b < 2 ^ 63) →
  same_cells (scale_float (scale_int xs)) (scale_int xs).
Proof.
  intros Hfit. destruct xs as [|x0 rest]; [constructor|].
  destruct (int_col_min_minimum x0 rest) as [Hmn_in Hmn].
  destruct (int_col_max_maximum x0 rest) as [Hmx_in Hmx].
  pose proof (Hfit _ _ Hmx_in Hmn_in) as Hrange.
  destruct (Z.eq_dec (I64.col_min x0 rest) (I64.col_max x0 rest)) as [Heq|Hne].
  - assert (Forall (λ y, F64.is_nan y = true) (scale_int (x0 :: rest))) as Hnan.
    { unfold scale_int. apply Forall_fmap, Forall_forall. intros x Hx. simpl.
      pose proof (Hmn x Hx). pose proof (Hmx x Hx).
      rewrite <- Heq. assert (x = I64.col_min x0 rest) as -> by lia.
      unfold I64.sub. rewrite Z.sub_diag. reflexivity. }
    unfold scale_float. cbv zeta. rewrite scale_nan by exact Hnan.
    apply same_cells_refl.
  - pose proof (Hmn _ Hmx_in).
    destruct (scale_int_range x0 rest ltac:(lia) Hrange) as [Hmin Hmax].
    apply scale_float_fixed; [|exact Hmin|exact Hmax].
    unfold scale_int. apply Forall_fmap, Forall_forall. intros y _. apply div_valid.
Qed.

(** C7, as the code has it: normalizing a column a second time leaves
    every value as the first pass left it, up to the sign of zero,
    whenever the range max - min of the first pass does not overflow: it
    is not an infinity for a float64 column of valid cells, and it fits
    in int64 for an int64 column. *)
Theorem normalize_twice :
  (∀ xs : list spec_float,
     Forall (λ x, F64.valid x = true) xs →
     (∀ s, F64.sub (F64.col_max xs) (F64.col_min xs) ≠ S754_infinity s) →
     ∃ ys zs,
       scale_column (CFloat64 xs) = Some (CFloat64 ys)
       ∧ scale_column (CFloat64 ys) = Some (CFloat64 zs)
       ∧ same_cells zs ys)
  ∧ (∀ xs : list Z,
       (∀ a b, a ∈ xs → b ∈ xs → a - b < 2 ^ 63) →
       ∃ ys zs,
         scale_column (CInt64 xs) = Some (CFloat64 ys)
         ∧ scale_column (CFloat64 ys) = Some (CFloat64 zs)
         ∧ same_cells zs ys).
Proof.
  split.
  - intros xs Hvalid Hfin.
    exists (scale_float xs), (scale_float (scale_float xs)).
    split; [reflexivity|]. split; [reflexivity|].
    apply scale_float_twice; assumption.
  - intros xs Hfit.
    exists (scale_int xs), (scale_float (scale_int xs)).
    split; [reflexivity|]. split; [reflexivity|].
    apply scale_int_twice, Hfit.
Qed.

(** C7 fails as stated: on the column [-max, 0, max] the difference
    max - min overflows, the first pass gives [0, 0, NaN] and the second
    pass [NaN, NaN, NaN]. *)
Lemma normalize_twice_overflow :
  Forall (λ x, F64.valid x = true) [SFopp max_float; F64.zero; max_float]
  ∧ SFopp max_float ≠ F64.zero ∧ F64.zero ≠ max_float
  ∧ scale_column (CFloat64 [SFopp max_float; F64.zero; max_float])
    = Some (CFloat64 [F64.zero; F64.zero; S754_nan])
  ∧ scale_column (CFloat64 [F64.zero; F64.zero; S754_nan])
    = Some (CFloat64 [S754_nan; S754_nan; S754_nan])
  ∧ ¬ same_cells [S754_nan; S754_nan; S754_nan] [F64.zero; F64.zero; S754_nan].
Proof.
  split; [repeat constructor|]. split; [discriminate|]. split; [discriminate|].
  split; [vm_compute; reflexivity|]. split; [vm_compute; reflexivity|].
  intros H. apply Forall2_cons_1 in H as [[H|[H _]] _]; discriminate.
Qed.

End Float_facts.

Section Upload.

(** Past line 123, a file that is neither CSV nor Excel is answered with
    a warning and nothing is committed. *)
Lemma try_block_other_extension (read_csv read_excel : UploadedFile → DataFrame + string)
    (f : UploadedFile) (w : world) :
  endswith (name f) ".csv" = false →
  endswith (name f) ".xlsx" = false →
  try_block read_csv read_excel f w
  = (Ok tt,
     mkWorld (session_state w) (heap w) (memory w)
       (out w ++ [Warning "⚠️ Please upload a CSV or Excel file."])).
Proof.
  intros Hcsv Hxlsx. unfold try_block. rewrite Hcsv, Hxlsx. reflexivity.
Qed.

(** Past line 123, a reader that raises sends the run to the handler
    with nothing committed by the [try] block. *)
Lemma try_block_reader_raises (read_csv read_excel : UploadedFile → DataFrame + string)
    (f : UploadedFile) (msg : string) (handler : exn → M unit) (w : world) :
  endswith (name f) ".csv" = true →
  read_csv f = inr msg →
  try_except (try_block read_csv read_excel f) handler w
  = handler (ReadError msg) w.
Proof.
  intros Hcsv Hread. unfold try_except, try_block. rewrite Hcsv, Hread. reflexivity.
Qed.

(** C6 at two inputs: a run that uploads "notes.txt" dies on the unbound
    name and shows no warning; past that name, a file whose reader raises
    is reported and then the handler goes on to commit whatever [df] holds
    as the cleaned dataset. *)
Theorem upload_checks_not_reached :
  run_script (λ w, w) failing_reader failing_reader VNone
    (mkInputs UploadDataset (Some (mkFile "notes.txt" "")) false [] false false)
    empty_world
  = (Raise (NameError "upload_data"),
     mkWorld {["df" := VNone]} ∅ ∅ [SidebarError "🚫 No Dataset Loaded"])
  ∧ session_state uploaded_world !! "cleaned_df" = None
  ∧ try_except (try_block failing_reader failing_reader (mkFile "data.csv" ""))
      (except_handler (VFrame 0%nat) (no_clicks UploadDataset)) uploaded_world
    = (Ok tt,
       mkWorld {["uploaded_df" := VFrame 0%nat; "cleaned_df" := VFrame 0%nat]}
         {[0%nat := sample_frame]} ∅
         [Error "❌ Error reading file: Error tokenizing data"; ShowMemory ∅]).
Proof.
  split; [vm_compute; reflexivity|]. split; [reflexivity|].
  vm_compute. reflexivity.
Qed.

End Upload.

(** ** More on dropping rows *)

Section Dropna_more.

Lemma take_sublist {A} (m : list bool) (xs : list A) : sublist (take m xs) xs.
Proof.
  revert xs. induction m as [|b m IH]; intros [|x xs]; simpl;
    try apply sublist_nil_l.
  destruct b; [apply sublist_skip|apply sublist_cons]; apply IH.
Qed.

Lemma elem_of_take {A} (m : list bool) (xs : list A) (x : A) :
  x ∈ take m xs ↔ ∃ i, m !! i = Some true ∧ xs !! i = Some x.
Proof.
  revert xs. induction m as [|b m IH]; intros [|y xs]; simpl.
  - split; [intros H; apply elem_of_nil in H; destruct H|intros (i & H & _); discriminate].
  - split; [intros H; apply elem_of_nil in H; destruct H|intros (i & H & _); discriminate].
  - split; [intros H; apply elem_of_nil in H; destruct H|].
    intros (i & _ & H). destruct i; discriminate.
  - destruct b.
    + rewrite elem_of_cons, IH. split.
      * intros [-> | (i & H1 & H2)]; [exists 0%nat; auto|exists (S i); auto].
      * intros ([|i] & H1 & H2); simpl in *; [left; congruence|right; eauto].
    + rewrite IH. split.
      * intros (i & H1 & H2). exists (S i). auto.
      * intros ([|i] & H1 & H2); simpl in *; [discriminate|eauto].
Qed.

Lemma mask_and_lookup (m n : list bool) (i : nat) :
  mask_and m n !! i = Some true ↔ m !! i = Some true ∧ n !! i = Some true.
Proof.
  unfold mask_and. rewrite lookup_zip_with.
  destruct (m !! i) as [[|]|], (n !! i) as [[|]|]; simpl;
    split; try intros [? ?]; try discriminate; auto.
Qed.

Lemma foldl_mask_lookup (cols : list (string * column)) (acc : list bool) (i : nat) :
  foldl (λ acc nc, mask_and acc (col_notna nc.2)) acc cols !! i = Some true
  ↔ acc !! i = Some true ∧ ∀ nc, nc ∈ cols → col_notna nc.2 !! i = Some true.
Proof.
  revert acc. induction cols as [|nc cols IH]; intros acc; simpl.
  - split; [intros H; split; [exact H|]|tauto].
    intros nc Hnc. apply elem_of_nil in Hnc. destruct Hnc.
  - rewrite IH, mask_and_lookup. split.
    + intros [[Ha Hc] Hrest]. split; [exact Ha|].
      intros nc' Hin. apply elem_of_cons in Hin as [-> | Hin]; auto.
    + intros [Ha Hall]. split; [split; [exact Ha|]|].
      * apply Hall. constructor.
      * intros nc' Hin. apply Hall. constructor. exact Hin.
Qed.

Lemma mask_length_columns (d : DataFrame) (nc : string * column) :
  nc ∈ columns d → (length (keep_mask d) ≤ col_len nc.2)%nat.
Proof.
  intros Hin. pose proof (keep_mask_columns d) as H.
  rewrite Forall_forall in H. specialize (H nc Hin).
  apply covers_length in H. rewrite col_notna_length in H. exact H.
Qed.

(** X1: after [df.dropna(inplace=True)] no cell of the frame is missing,
    and every column has one cell per row label that is left. *)
Theorem dropna_no_missing (d : DataFrame) :
  no_missing (dropna d) ∧ well_formed (dropna d).
Proof.
  unfold no_missing, well_formed, dropna. simpl. split.
  - apply Forall_fmap, Forall_forall. intros [n c] Hin. simpl.
    pose proof (keep_mask_columns d) as H. rewrite Forall_forall in H.
    specialize (H _ Hin). simpl in H.
    rewrite col_notna_take, (take_covers _ _ H).
    apply Forall_forall. intros b Hb. apply list_elem_of_In, repeat_spec in Hb.
    exact Hb.
  - apply Forall_fmap, Forall_forall. intros [n c] Hin. simpl.
    rewrite col_take_length by apply (mask_length_columns d (n, c) Hin).
    symmetry. apply take_length, keep_mask_index.
Qed.

Lemma dtype_col_take (m : list bool) (c : column) : dtype (col_take m c) = dtype c.
Proof. destruct c; reflexivity. Qed.

(** X2: [dropna] keeps the columns, their order, their names and their
    dtypes; the row labels that are left are the old ones in their old
    order, never relabelled, so the frame has at most as many rows as
    before. *)
Theorem dropna_keeps_columns (d : DataFrame) :
  (columns (dropna d)).*1 = (columns d).*1
  ∧ (λ nc, dtype nc.2) <$> columns (dropna d) = (λ nc, dtype nc.2) <$> columns d
  ∧ sublist (index (dropna d)) (index d)
  ∧ ((shape (dropna d)).1 ≤ (shape d).1)%nat
  ∧ (shape (dropna d)).2 = (shape d).2.
Proof.
  unfold dropna, shape. simpl. split; [|split; [|split; [|split]]].
  - rewrite <- list_fmap_compose. apply list_fmap_ext. intros i [n c] _. reflexivity.
  - rewrite <- list_fmap_compose. apply list_fmap_ext. intros i [n c] _. simpl.
    apply dtype_col_take.
  - apply take_sublist.
  - apply sublist_length, take_sublist.
  - apply length_fmap.
Qed.

(** X3: a row label is left by [dropna] exactly when it labels a row
    that has no missing cell in any column. *)
Theorem dropna_keeps_complete_rows (d : DataFrame) (x : Z) :
  x ∈ index (dropna d)
  ↔ ∃ i, index d !! i = Some x
         ∧ ∀ nc, nc ∈ columns d → col_notna nc.2 !! i = Some true.
Proof.
  unfold dropna. simpl. rewrite elem_of_take. unfold keep_mask.
  split.
  - intros (i & Hm & Hx). exists i. split; [exact Hx|].
    apply foldl_mask_lookup in Hm as [_ Hall]. exact Hall.
  - intros (i & Hx & Hall). exists i. split; [|exact Hx].
    apply foldl_mask_lookup. split; [|exact Hall].
    rewrite list_lookup_fmap, Hx. reflexivity.
Qed.

Lemma count_false_zero (m : list bool) :
  length (filter (λ b, b = false) m) = 0%nat ↔ Forall (λ b, b = true) m.
Proof.
  induction m as [|b m IH]; simpl.
  - split; [constructor|reflexivity].
  - destruct b.
    + rewrite filter_cons_False by discriminate. rewrite IH. split.
      * intros H. constructor; [reflexivity|exact H].
      * intros H. apply Forall_cons in H as [_ H]. exact H.
    + rewrite filter_cons_True by reflexivity. simpl. split; [discriminate|].
      intros H. apply Forall_cons in H as [H _]. discriminate.
Qed.

(** X4: the Missing Values summary of the report shows zero for every
    column exactly when the frame has no missing cell, and it does so
    after [dropna]. *)
Theorem isnull_sum_zero (d : DataFrame) :
  (Forall (λ p, p.2 = 0%nat) (isnull_sum d) ↔ no_missing d)
  ∧ Forall (λ p, p.2 = 0%nat) (isnull_sum (dropna d))
  ∧ (isnull_sum d).*1 = (columns d).*1.
Proof.
  assert (∀ d0, Forall (λ p, p.2 = 0%nat) (isnull_sum d0) ↔ no_missing d0) as Hiff.
  { intros d0. unfold isnull_sum, no_missing. rewrite Forall_fmap.
    apply Forall_iff. intros [n c]. simpl. apply count_false_zero. }
  split; [apply Hiff|]. split.
  - apply Hiff, dropna_no_missing.
  - unfold isnull_sum. rewrite <- list_fmap_compose. apply list_fmap_ext.
    intros i [n c] _. reflexivity.
Qed.

(** X20: a column with a missing cell in every row (what normalizing a
    column of equal values leaves) makes [dropna] remove every row. *)
Theorem all_missing_column_empties (d : DataFrame) (n : string) (c : column) :
  (n, c) ∈ columns d →
  Forall (λ b, b = false) (col_notna c) →
  index (dropna d) = [].
Proof.
  intros Hin Hall.
  destruct (index (dropna d)) as [|x rest] eqn:Hidx; [reflexivity|]. exfalso.
  assert (x ∈ index (dropna d)) as Hx by (rewrite Hidx; constructor).
  unfold dropna in Hx. simpl in Hx.
  apply elem_of_take in Hx as (i & Hm & _).
  unfold keep_mask in Hm. apply foldl_mask_lookup in Hm as [_ Hcols].
  specialize (Hcols _ Hin). simpl in Hcols.
  rewrite Forall_forall in Hall.
  specialize (Hall true ltac:(apply list_elem_of_lookup; eauto)).
  discriminate.
Qed.

End Dropna_more.

(** ** More on scaling *)

Section Scaling_more.

(** X5: when the range max - min of a float64 column of valid cells is a
    finite number other than zero, the scaled column has NaN where the
    column had NaN and a number from 0 to 1 everywhere else, with a zero
    for minimum and exactly 1.0 for maximum. *)
Theorem scale_float_unit_interval (xs : list spec_float)
    (sd : bool) (md : positive) (ed : Z) :
  Forall (λ x, F64.valid x = true) xs →
  F64.sub (F64.col_max xs) (F64.col_min xs) = S754_finite sd md ed →
  Forall2 (λ x y, if F64.is_nan x then y = S754_nan
                  else F64.is_nan y = false ∧ F64.ltb y F64.zero = false
                       ∧ F64.ltb F64.one y = false)
    xs (scale_float xs)
  ∧ F64.is_zero (F64.col_min (scale_float xs)) = true
  ∧ F64.col_max (scale_float xs) = F64.one.
Proof.
  intros Hvalid Hd. split; [|apply (scale_float_range xs sd md ed Hvalid Hd)].
  destruct (sub_finite_operands _ _ _ _ _ Hd) as [Hfmx Hfmn].
  destruct (col_extrema xs Hfmn Hfmx) as [(Hmn_in & _ & Hmn) (Hmx_in & _ & Hmx)].
  rewrite Forall_forall in Hvalid.
  unfold scale_float. cbv zeta.
  apply Forall2_fmap_r, Forall_Forall2_diag, Forall_forall. intros x Hx.
  destruct (F64.is_nan x) eqn:Hnan.
  - destruct x; try discriminate. reflexivity.
  - apply (scale_float_cell x _ _ sd md ed); auto.
Qed.

(** X6: the same for an int64 column with two distinct values whose
    range fits in int64: every scaled value is a number from 0 to 1, the
    minimum goes to 0.0 and the maximum to 1.0. *)
Theorem scale_int_unit_interval (xs : list Z) :
  (∀ a b, a ∈ xs → b ∈ xs → a - b < 2 ^ 63) →
  (∃ a b, a ∈ xs ∧ b ∈ xs ∧ a ≠ b) →
  Forall (λ y, F64.is_nan y = false ∧ F64.ltb y F64.zero = false
               ∧ F64.ltb F64.one y = false) (scale_int xs)
  ∧ F64.is_zero (F64.col_min (scale_int xs)) = true
  ∧ F64.col_max (scale_int xs) = F64.one.
Proof.
  intros Hfit (a & b & Ha & Hb & Hab).
  destruct xs as [|x0 rest]; [apply elem_of_nil in Ha; destruct Ha|].
  destruct (int_col_min_minimum x0 rest) as [Hmn_in Hmn].
  destruct (int_col_max_maximum x0 rest) as [Hmx_in Hmx].
  assert (I64.col_min x0 rest < I64.col_max x0 rest) as Hlt.
  { pose proof (Hmn a Ha). pose proof (Hmn b Hb).
    pose proof (Hmx a Ha). pose proof (Hmx b Hb). lia. }
  pose proof (Hfit _ _ Hmx_in Hmn_in) as Hrange.
  split; [|apply scale_int_range; assumption].
  unfold scale_int. apply Forall_fmap, Forall_forall. intros x Hx. simpl.
  destruct (scale_int_cell x (I64.col_min x0 rest) (I64.col_max x0 rest))
    as (H1 & H2 & H3 & _); auto.
Qed.

Lemma sub_self (v : spec_float) :
  F64.sub v v = S754_zero false ∨ F64.sub v v = S754_nan.
Proof.
  destruct v as [s|s| |s m e]; unfold F64.sub, SFsub.
  - left. destruct s; reflexivity.
  - right. destruct s; reflexivity.
  - right. reflexivity.
  - left. cbv zeta. rewrite Z.sub_diag. reflexivity.
Qed.

Lemma foldl_min_same (v : spec_float) (n : nat) :
  F64.is_nan v = false → foldl F64.min_step v (replicate n v) = v.
Proof.
  intros Hv. induction n as [|n IH]; simpl; [reflexivity|].
  unfold F64.min_step at 2. rewrite Hv, ltb_irrefl. exact IH.
Qed.

Lemma foldl_max_same (v : spec_float) (n : nat) :
  F64.is_nan v = false → foldl F64.max_step v (replicate n v) = v.
Proof.
  intros Hv. induction n as [|n IH]; simpl; [reflexivity|].
  unfold F64.max_step at 2. rewrite Hv, ltb_irrefl. exact IH.
Qed.

Lemma foldl_int_same (f : Z → Z → Z) (z : Z) (n : nat) :
  f z z = z → foldl f z (replicate n z) = z.
Proof. intros Hf. induction n as [|n IH]; simpl; [reflexivity|]. rewrite Hf. exact IH. Qed.

(** X7: a column whose cells are all the same value has a range of zero,
    and scaling turns every one of its cells into NaN (0/0); this holds
    for float64 and for int64 columns. *)
Theorem scale_constant_column (n : nat) :
  (∀ v : spec_float, scale_float (replicate n v) = replicate n S754_nan)
  ∧ (∀ z : Z, scale_int (replicate n z) = replicate n S754_nan).
Proof.
  split.
  - intros v. destruct n as [|n]; [reflexivity|].
    unfold scale_float, F64.col_min, F64.col_max. cbv zeta.
    destruct (F64.is_nan v) eqn:Hv.
    + destruct v; try discriminate.
      rewrite fmap_replicate. reflexivity.
    + assert (foldl F64.min_step S754_nan (replicate (S n) v) = v) as ->.
      { simpl. unfold F64.min_step at 2. rewrite Hv. simpl.
        apply foldl_min_same, Hv. }
      assert (foldl F64.max_step S754_nan (replicate (S n) v) = v) as ->.
      { simpl. unfold F64.max_step at 2. rewrite Hv. simpl.
        apply foldl_max_same, Hv. }
      rewrite fmap_replicate. f_equal.
      destruct (sub_self v) as [-> | ->]; reflexivity.
  - intros z. destruct n as [|n]; [reflexivity|].
    change (replicate (S n) z) with (z :: replicate n z) at 1.
    unfold scale_int, I64.col_min, I64.col_max.
    rewrite !foldl_int_same by lia.
    change (z :: replicate n z) with (replicate (S n) z).
    rewrite fmap_replicate. unfold I64.sub. rewrite Z.sub_diag. reflexivity.
Qed.

Lemma foldl_min_shift (c x : Z) (xs : list Z) :
  foldl Z.min (x + c) ((λ y, y + c) <$> xs) = foldl Z.min x xs + c.
Proof.
  revert x. induction xs as [|y xs IH]; intros x; simpl; [reflexivity|].
  rewrite Z.add_min_distr_r. apply IH.
Qed.

Lemma foldl_max_shift (c x : Z) (xs : list Z) :
  foldl Z.max (x + c) ((λ y, y + c) <$> xs) = foldl Z.max x xs + c.
Proof.
  revert x. induction xs as [|y xs IH]; intros x; simpl; [reflexivity|].
  rewrite Z.add_max_distr_r. apply IH.
Qed.

(** X8: scaling an int64 column depends on the differences of its values
    only: adding one constant to every cell gives the same scaled
    column. *)
Theorem scale_int_shift (c : Z) (xs : list Z) :
  scale_int ((λ x, x + c) <$> xs) = scale_int xs.
Proof.
  destruct xs as [|x0 rest]; [reflexivity|].
  rewrite fmap_cons. unfold scale_int, I64.col_min, I64.col_max.
  rewrite foldl_min_shift, foldl_max_shift.
  change (x0 + c :: ((λ y, y + c) <$> rest)) with ((λ y, y + c) <$> (x0 :: rest)).
  rewrite <- list_fmap_compose.
  apply list_fmap_ext. intros i x _. simpl. unfold I64.sub.
  f_equal; f_equal; f_equal; lia.
Qed.

End Scaling_more.

(** ** More on the normalization loop *)

Section Normalize_more.

Lemma get_col_None (D : list (string * column)) (x : string) :
  x ∉ D.*1 → get_col D x = None.
Proof.
  induction D as [|[n c] D IH]; simpl; intros Hx; [reflexivity|].
  apply not_elem_of_cons in Hx as [Hne Hx].
  destruct (String.eqb_spec n x) as [->|_]; [congruence|]. apply IH, Hx.
Qed.

(** Two column lists with the same names whose lookups differ by a
    scaling of the columns in [cols] differ so column by column. *)
Lemma columns_pointwise (cols : list string) (D : list (string * column)) :
  ∀ D', NoDup D.*1 → D'.*1 = D.*1 →
  (∀ x, get_col D' x
        = if decide (x ∈ cols) then get_col D x ≫= scale_column else get_col D x) →
  Forall2 (λ nc nc', nc'.1 = nc.1
                     ∧ if decide (nc.1 ∈ cols) then scale_column nc.2 = Some nc'.2
                       else nc'.2 = nc.2) D D'.
Proof.
  induction D as [|[n c] D IH]; intros [|[n' c'] D'] Hnd Hnames Hget;
    try discriminate; [constructor|].
  rewrite !fmap_cons in Hnames. simpl in Hnames. injection Hnames as -> Hnames.
  rewrite fmap_cons in Hnd. apply NoDup_cons in Hnd as [Hn Hnd]. simpl in Hn.
  constructor.
  - simpl. split; [reflexivity|]. specialize (Hget n). simpl in Hget.
    rewrite String.eqb_refl in Hget. destruct (decide (n ∈ cols)); simpl in Hget.
    + symmetry. exact Hget.
    + congruence.
  - apply IH; [exact Hnd|exact Hnames|]. intros x.
    destruct (String.eqb_spec n x) as [<-|Hne].
    + rewrite !get_col_None by (try rewrite Hnames; exact Hn).
      destruct (decide (n ∈ cols)); reflexivity.
    + specialize (Hget x). simpl in Hget.
      destruct (String.eqb_spec n x) as [?|_]; [contradiction|]. exact Hget.
Qed.

Lemma scale_column_len (c c' : column) :
  scale_column c = Some c' → col_len c' = col_len c ∧ dtype c' = "float64".
Proof.
  destruct c as [xs|xs|xs]; simpl; intros H; [| |discriminate]; injection H as <-.
  - split; [|reflexivity]. destruct xs; [reflexivity|]. unfold scale_int.
    simpl. rewrite length_fmap. reflexivity.
  - split; [|reflexivity]. unfold scale_float. simpl. apply length_fmap.
Qed.

Lemma filter_names_pointwise (P : string * column → Prop)
    `{∀ nc, Decision (P nc)} (D D' : list (string * column)) :
  Forall2 (λ nc nc', nc'.1 = nc.1 ∧ (P nc ↔ P nc')) D D' →
  (filter P D').*1 = (filter P D).*1.
Proof.
  induction 1 as [|nc nc' D D' [Hn HP] _ IH]; [reflexivity|].
  rewrite !filter_cons.
  destruct (decide (P nc')), (decide (P nc)); try tauto;
    rewrite ?fmap_cons, ?Hn, ?IH; reflexivity.
Qed.

(** The frame after the loop of lines 158-161, column by column. *)
Lemma normalize_loop_pointwise (w : world) (l : loc) (d : DataFrame)
    (picks : list string) :
  heap w !! l = Some d →
  distinct_names d →
  let cols := multiselect (numeric_cols d) picks in
  ∃ d',
    for_each cols (normalize_column (VFrame l)) w
    = (Ok tt, mkWorld (session_state w) (<[l := d']> (heap w)) (memory w) (out w))
    ∧ index d' = index d
    ∧ Forall2 (λ nc nc', nc'.1 = nc.1
                         ∧ if decide (nc.1 ∈ cols)
                           then scale_column nc.2 = Some nc'.2
                           else nc'.2 = nc.2) (columns d) (columns d').
Proof.
  intros Hl Hnd cols. destruct d as [idx D]. simpl in *.
  destruct (normalize_loop_result cols w l idx D) as (D' & Hrun & Hnames & Hget).
  - apply multiselect_NoDup.
  - exact Hl.
  - intros x Hx. apply multiselect_elem in Hx.
    apply (numeric_cols_elem (mkFrame idx D) x Hnd Hx).
  - exists (mkFrame idx D'). split; [exact Hrun|]. split; [reflexivity|].
    simpl. apply columns_pointwise; assumption.
Qed.

(** X9: normalizing the selected columns leaves the row labels, the
    column names and their order as they are, leaves every column that
    is not selected as it is (an object column cannot be selected),
    makes every selected column a float64 column of the same length, and
    keeps one cell per row label in every column. *)
Theorem normalize_keeps_rest (w : world) (l : loc) (d : DataFrame)
    (picks : list string) :
  heap w !! l = Some d →
  distinct_names d →
  let cols := multiselect (numeric_cols d) picks in
  ∃ d',
    for_each cols (normalize_column (VFrame l)) w
    = (Ok tt, mkWorld (session_state w) (<[l := d']> (heap w)) (memory w) (out w))
    ∧ index d' = index d
    ∧ (columns d').*1 = (columns d).*1
    ∧ Forall2 (λ nc nc', if decide (nc.1 ∈ cols)
                         then dtype nc'.2 = "float64" ∧ col_len nc'.2 = col_len nc.2
                         else nc'.2 = nc.2) (columns d) (columns d')
    ∧ Forall (λ nc, dtype nc.2 = "object" → nc ∈ columns d') (columns d)
    ∧ (well_formed d → well_formed d').
Proof.
  intros Hl Hnd cols.
  destruct (normalize_loop_pointwise w l d picks Hl Hnd) as (d' & Hrun & Hidx & Hcols).
  fold cols in Hrun, Hcols.
  exists d'. split; [exact Hrun|]. split; [exact Hidx|].
  split; [|split; [|split]].
  - clear -Hcols. induction Hcols as [|nc nc' D D' [Hn _] _ IH]; [reflexivity|].
    rewrite !fmap_cons, Hn, IH. reflexivity.
  - eapply Forall2_impl; [exact Hcols|]. intros nc nc' [_ H]. simpl in *.
    destruct (decide (nc.1 ∈ cols)); [|exact H].
    apply scale_column_len in H as [H1 H2]. auto.
  - apply Forall_forall. intros [n c] Hin Hobj. simpl in Hobj.
    apply list_elem_of_lookup in Hin as [i Hi].
    destruct (Forall2_lookup_l _ _ _ _ _ Hcols Hi) as ([n' c'] & Hi' & Hn & Hc).
    simpl in *. subst n'.
    apply list_elem_of_lookup. exists i. rewrite Hi'. f_equal. f_equal.
    destruct (decide (n ∈ cols)) as [Hsel|_]; [|exact Hc].
    destruct c; simpl in Hobj, Hc; discriminate.
  - unfold well_formed. rewrite Hidx. intros Hwf.
    apply Forall_forall. intros nc' Hin'.
    apply list_elem_of_lookup in Hin' as [i Hi'].
    destruct (Forall2_lookup_r _ _ _ _ _ Hcols Hi') as (nc & Hi & _ & Hc).
    rewrite Forall_forall in Hwf.
    specialize (Hwf nc ltac:(apply list_elem_of_lookup; eauto)).
    destruct (decide (nc.1 ∈ cols)); [|rewrite Hc; exact Hwf].
    apply scale_column_len in Hc as [Hc _]. rewrite Hc. exact Hwf.
Qed.

Lemma dtype_mem_scaled (include : list string) (c c' : column) :
  ("int64" ∈ include ↔ "float64" ∈ include) →
  scale_column c = Some c' →
  dtype c ∈ include ↔ dtype c' ∈ include.
Proof.
  intros Hinc H. destruct c; simpl in H; try discriminate; injection H as <-; simpl.
  - exact Hinc.
  - reflexivity.
Qed.

(** X10: the Feature Summary of the report (number of columns,
    categorical columns, numeric columns) is the same before and after
    each of the two cleaning operations. *)
Theorem feature_summary_kept (w : world) (l : loc) (d : DataFrame)
    (picks : list string) :
  feature_summary (dropna d) = feature_summary d
  ∧ (heap w !! l = Some d →
     distinct_names d →
     ∃ d',
       heap (for_each (multiselect (numeric_cols d) picks)
               (normalize_column (VFrame l)) w).2 !! l = Some d'
       ∧ feature_summary d' = feature_summary d).
Proof.
  split.
  - unfold feature_summary, select_dtypes, shape, dropna. simpl.
    rewrite length_fmap.
    assert (∀ P : string * column → Prop, ∀ HP : ∀ nc, Decision (P nc),
              (∀ n c, P (n, c) ↔ P (n, col_take (keep_mask d) c)) →
              (filter P ((λ nc, (nc.1, col_take (keep_mask d) nc.2)) <$> columns d)).*1
              = (filter P (columns d)).*1) as Hf.
    { intros P HP Hiff. apply filter_names_pointwise.
      apply Forall2_fmap_r, Forall_Forall2_diag, Forall_forall.
      intros [n c] _. simpl. split; [reflexivity|]. apply Hiff. }
    rewrite !Hf; [reflexivity| |];
      intros n c; simpl; rewrite dtype_col_take; reflexivity.
  - intros Hl Hnd.
    destruct (normalize_loop_pointwise w l d picks Hl Hnd) as (d' & Hrun & Hidx & Hcols).
    exists d'. rewrite Hrun. simpl. split; [apply lookup_insert_eq|].
    assert (∀ include : list string,
              ("int64" ∈ include ↔ "float64" ∈ include) →
              select_dtypes include d' = select_dtypes include d) as Hsel.
    { intros include Hinc. unfold select_dtypes. apply filter_names_pointwise.
      eapply Forall2_impl; [exact Hcols|]. intros nc nc' [Hn Hc]. simpl in *.
      split; [exact Hn|].
      destruct (decide (nc.1 ∈ _)); [|rewrite Hc; reflexivity].
      apply dtype_mem_scaled; assumption. }
    unfold feature_summary, shape. simpl.
    rewrite (Forall2_length _ _ _ Hcols).
    rewrite !Hsel; [reflexivity| |].
    + split; intros H; [constructor; constructor|constructor].
    + split; intros H; exfalso; apply list_elem_of_singleton in H; discriminate.
Qed.

End Normalize_more.

(** ** More on the runs of the script *)

Section Script_more.

Variable refresh_data : world → world.
Variable read_csv read_excel : UploadedFile → DataFrame + string.
Variable upload_data_result : value.

(** The statements before the dispatch, when [refresh_data] leaves the
    world alone. *)
Lemma prelude_resolved (w : world) :
  (∀ w0, refresh_data w0 = w0) →
  prelude refresh_data w
  = (Ok tt,
     mkWorld (<["df" := resolved_df (session_state w)]> (session_state w))
       (heap w) (memory w)
       (out w ++ match resolved_df (session_state w) with
                 | VNone => [SidebarError "🚫 No Dataset Loaded"]
                 | VFrame l => [SidebarSuccess "✅ Dataset Loaded";
                                SidebarRows (VFrame l); SidebarColumns (VFrame l)]
                 end)).
Proof.
  intros Hrefresh. unfold prelude.
  erewrite bind_ok by apply maintain_dataset_state_result.
  erewrite bind_ok by (rewrite Hrefresh; reflexivity).
  erewrite bind_ok by apply dataset_state_result.
  unfold resolved_df. simpl.
  destruct (session_state w !! "cleaned_df") as [c|] eqn:Hc.
  - rewrite lookup_insert_ne, Hc by done. rewrite insert_insert_eq.
    erewrite sidebar_status_result by (simpl; apply lookup_insert_eq).
    simpl. destruct c; reflexivity.
  - destruct (session_state w !! "uploaded_df") as [u|] eqn:Hu.
    + rewrite lookup_insert_ne, Hc, lookup_insert_eq by done.
      erewrite sidebar_status_result by (simpl; apply lookup_insert_eq).
      simpl. destruct u; reflexivity.
    + rewrite Hc. destruct (session_state w !! "df") as [v|] eqn:Hdf; simpl.
      * erewrite sidebar_status_result by (simpl; exact Hdf).
        simpl. rewrite (insert_id _ _ _ Hdf). destruct v; reflexivity.
      * erewrite sidebar_status_result by (simpl; apply lookup_insert_eq).
        reflexivity.
Qed.

(** X15: the tests of the chain and the keys of the menu agree: the
    options of the radio are distinct and each has a title, so
    [menu[choice]] never fails; every option but "Data Cleaning" has
    exactly the branch that [dispatch] runs for it, and "Data Cleaning"
    has none. *)
Theorem menu_branches :
  NoDup menu.*1
  ∧ menu.*1 = label <$> [UploadDataset; DataCleaning; ExploratoryDataAnalysis;
                         Visualization; FeatureEngineeringModeling;
                         EvaluationTuning; ExportDataset; GenerateReport;
                         PowerBIPipeline; LiveDashboard]
  ∧ (∀ o, is_Some (getitem menu (label o)))
  ∧ (∀ o, branch_of chain (label o)
          = match o with DataCleaning => None | _ => Some o end)
  ∧ (∀ k o, (k, o) ∈ chain → k ∈ menu.*1).
Proof.
  split; [apply (bool_decide_eq_true_1 _); vm_compute; reflexivity|].
  split; [reflexivity|].
  split; [intros o; destruct o; vm_compute; eauto|].
  split; [intros o; destruct o; vm_compute; reflexivity|].
  intros k o Hin. unfold chain in Hin.
  repeat (apply elem_of_cons in Hin as [Hin | Hin];
          [injection Hin as -> _; apply (bool_decide_eq_true_1 _);
           vm_compute; reflexivity|]).
  apply elem_of_nil in Hin. destruct Hin.
Qed.

(** X16: a file that its reader accepts becomes a new frame, distinct
    from every frame of the session, in the [uploaded_df] slot; no other
    slot, no other frame and no log entry changes.  A cleaned dataset
    kept from before is still the current one after the upload. *)
Theorem try_block_uploads (f : UploadedFile) (d : DataFrame) (w : world) :
  (endswith (name f) ".csv" = true ∧ read_csv f = inl d)
  ∨ (endswith (name f) ".csv" = false ∧ endswith (name f) ".xlsx" = true
     ∧ read_excel f = inl d) →
  ∃ l,
    heap w !! l = None
    ∧ try_block read_csv read_excel f w
      = (Ok tt,
         mkWorld (<["uploaded_df" := VFrame l]> (session_state w))
           (<[l := d]> (heap w)) (memory w)
           (out w ++ [Success "✅ File uploaded and saved successfully!";
                      WriteHead (VFrame l)]))
    ∧ (∀ c, session_state w !! "cleaned_df" = Some c →
            current (<["uploaded_df" := VFrame l]> (session_state w)) = c).
Proof.
  intros Hf. exists (fresh (dom (heap w))).
  split; [apply not_elem_of_dom, is_fresh|]. split.
  - unfold try_block.
    destruct Hf as [[-> ->]|(-> & -> & ->)]; unfold alloc; unfold_monad; simpl;
      rewrite <- app_assoc; reflexivity.
  - intros c Hc. unfold current. rewrite lookup_insert_ne by done.
    rewrite Hc. reflexivity.
Qed.

(** X21: the statements of lines 92-113, with a [refresh_data] that
    leaves the world alone, put on the page "Dataset Loaded" with the
    rows and the columns of the dataset they resolve, exactly when there
    is one, and "No Dataset Loaded" otherwise. *)
Theorem sidebar_shows_resolved (w : world) :
  (∀ w0, refresh_data w0 = w0) →
  shown (prelude refresh_data) w
  = match resolved_df (session_state w) with
    | VNone => [SidebarError "🚫 No Dataset Loaded"]
    | VFrame l => [SidebarSuccess "✅ Dataset Loaded";
                   SidebarRows (VFrame l); SidebarColumns (VFrame l)]
    end.
Proof.
  intros Hrefresh. eapply shown_app.
  - apply prelude_resolved, Hrefresh.
  - reflexivity.
Qed.

End Script_more.

(** ** More on the cleaning block *)

Section Cleaning_more.

(** X17: with no dataset in [df], the cleaning block fails at its first
    method call, before anything is shown, written or logged; entered
    from the handler, the run shows the reading error and then fails. *)
Theorem cleaning_block_none (i : inputs) (e : exn) (w : world) :
  cleaning_block VNone i w
  = (Raise (AttributeError (if drop_clicked i then "dropna" else "select_dtypes")), w)
  ∧ except_handler VNone i e w
    = (Raise (AttributeError (if drop_clicked i then "dropna" else "select_dtypes")),
       mkWorld (session_state w) (heap w) (memory w)
         (out w ++ [Error ("❌ Error reading file: " ++ exn_message e)])).
Proof.
  split.
  - unfold cleaning_block. destruct (drop_clicked i); reflexivity.
  - unfold except_handler, cleaning_block. destruct (drop_clicked i); reflexivity.
Qed.

(** X18: "Normalize Selected Columns" pressed with no numeric column
    selected changes no frame, and the run still reports
    "Selected columns normalized!" and commits the frame as cleaned. *)
Theorem normalize_nothing_selected (i : inputs) (w : world) (l : loc) (d : DataFrame) :
  heap w !! l = Some d →
  drop_clicked i = false →
  normalize_clicked i = true →
  multiselect (numeric_cols d) (picked i) = [] →
  ∃ w',
    cleaning_block (VFrame l) i w = (Ok tt, w')
    ∧ heap w' = heap w
    ∧ session_state w' = <["cleaned_df" := VFrame l]> (session_state w)
    ∧ Success "Selected columns normalized!" ∈ out w'.
Proof.
  intros Hl Hdrop Hnorm Hsel. unfold cleaning_block.
  rewrite Hdrop, Hnorm. unfold deref. unfold_monad. simpl.
  rewrite Hl. simpl. rewrite Hsel. simpl.
  unfold Memory.remember, Memory.recall, Memory.show_memory, Memory.clear_all_memory.
  unfold_monad. simpl. rewrite lookup_insert_eq. simpl.
  destruct (clear_clicked i); simpl; eexists; (split; [reflexivity|]); simpl;
    (split; [reflexivity|]); (split; [reflexivity|]);
    rewrite !elem_of_app, !list_elem_of_singleton; tauto.
Qed.

(** X22: inside the [try] block a file whose name ends neither in
    ".csv" nor in ".xlsx" is answered with the warning; no reader is
    called, and no slot, frame or log entry changes. *)
Theorem unsupported_file_warned
    (read_csv read_excel : UploadedFile → DataFrame + string)
    (handler : exn → M unit) (f : UploadedFile) (w : world) :
  endswith (name f) ".csv" = false →
  endswith (name f) ".xlsx" = false →
  try_except (try_block read_csv read_excel f) handler w
  = (Ok tt,
     mkWorld (session_state w) (heap w) (memory w)
       (out w ++ [Warning "⚠️ Please upload a CSV or Excel file."]))
  ∧ try_block read_csv read_excel f
    = try_block (λ _, inr "") (λ _, inr "") f.
Proof.
  intros Hcsv Hxlsx. split.
  - unfold try_except. rewrite try_block_other_extension by assumption.
    reflexivity.
  - unfold try_block. rewrite Hcsv, Hxlsx. reflexivity.
Qed.

End Cleaning_more.

(** ** The test of the file name *)

Section Endswith.

Lemma length_append (p q : string) :
  String.length (p +:+ q) = (String.length p + String.length q)%nat.
Proof. induction p as [|a p IH]; simpl; [reflexivity|]. rewrite IH. reflexivity. Qed.

Lemma substring_append (p q : string) (k : nat) :
  substring (String.length p) k (p +:+ q) = substring 0 k q.
Proof. induction p as [|a p IH]; simpl; [reflexivity|]. exact IH. Qed.

Lemma substring_all (q : string) : substring 0 (String.length q) q = q.
Proof. induction q as [|a q IH]; simpl; [reflexivity|]. rewrite IH. reflexivity. Qed.

Lemma substring_split (s : string) (m : nat) :
  (m ≤ String.length s)%nat →
  s = substring 0 m s +:+ substring m (String.length s - m) s.
Proof.
  revert m. induction s as [|a s IH]; intros [|m]; simpl; intros Hm; try lia.
  - reflexivity.
  - rewrite substring_all. reflexivity.
  - change (String a s
            = String a (substring 0 m s +:+ substring m (String.length s - m) s)).
    f_equal. apply IH. lia.
Qed.

(** X19: the test [file_name.endswith(suffix)] holds exactly for the
    names that are some text followed by the suffix; nothing else about
    the file is looked at, and letter case matters. *)
Theorem endswith_suffix (s suffix : string) :
  endswith s suffix = true ↔ ∃ p, s = p +:+ suffix.
Proof.
  unfold endswith. rewrite andb_true_iff, bool_decide_eq_true, String.eqb_eq.
  split.
  - intros [Hle Hsub].
    exists (substring 0 (String.length s - String.length suffix) s).
    pose proof (substring_split s (String.length s - String.length suffix)
                  ltac:(lia)) as Hsplit.
    replace (String.length s - (String.length s - String.length suffix))%nat
      with (String.length suffix) in Hsplit by lia.
    rewrite Hsub in Hsplit. exact Hsplit.
  - intros [p ->]. rewrite length_append. split; [lia|].
    replace (String.length p + String.length suffix - String.length suffix)%nat
      with (String.length p) by lia.
    rewrite substring_append. apply substring_all.
Qed.

End Endswith.

(** ** The claims at sample sessions *)

Section Samples.

(** C1 fails as stated: with a dataset uploaded and none cleaned, the
    current dataset is the uploaded one, yet the branch of the Power BI
    pipeline (lines 213-218) hands over nothing and warns. *)
Lemma power_bi_ignores_uploaded :
  dispatch failing_reader failing_reader VNone (no_clicks PowerBIPipeline)
  = cleaned_stage "powerbi_pipeline" "⚠️ Please upload and clean your dataset first."
  ∧ current (session_state uploaded_world) = VFrame 0%nat
  ∧ shown (prelude (λ w, w);;
           cleaned_stage "powerbi_pipeline"
             "⚠️ Please upload and clean your dataset first.") uploaded_world
    = [SidebarSuccess "✅ Dataset Loaded"; SidebarRows (VFrame 0%nat);
       SidebarColumns (VFrame 0%nat);
       Warning "⚠️ Please upload and clean your dataset first."]
  ∧ exposed (shown (prelude (λ w, w);;
                    cleaned_stage "powerbi_pipeline"
                      "⚠️ Please upload and clean your dataset first.")
               uploaded_world)
    ≠ current (session_state uploaded_world).
Proof.
  split; [reflexivity|]. split; [reflexivity|].
  split; [vm_compute; reflexivity|]. vm_compute. discriminate.
Qed.

Lemma stage_dataset_resolution_witness :
  exposed (shown (prelude (λ w, w);;
                  guarded_stage "run_eda" "⚠️ Please upload a dataset first.")
             uploaded_world)
  = current (session_state uploaded_world)
  ∧ exposed (shown (prelude (λ w, w);;
                    cleaned_stage "live_dashboard"
                      "Please upload and clean your dataset first.")
               uploaded_world)
    = default VNone (session_state uploaded_world !! "cleaned_df").
Proof.
  assert (df_is_copy (session_state uploaded_world)) as Hcopy.
  { intros _ H. vm_compute in H. discriminate H. }
  split.
  - apply (stage_dataset_resolution (λ w, w) "run_eda"
             "⚠️ Please upload a dataset first." uploaded_world).
    + reflexivity.
    + exact Hcopy.
  - apply (stage_dataset_resolution (λ w, w) "live_dashboard"
             "Please upload and clean your dataset first." uploaded_world).
    + reflexivity.
    + exact Hcopy.
Defined.

(** C4 fails as stated: an execution with "Upload Dataset" selected is
    refused at line 141 and does not end in a NameError; the name is not
    evaluated. *)
Lemma upload_run_refused :
  app (λ w, w) failing_reader failing_reader VNone
    (mkInputs UploadDataset (Some (mkFile "data.csv" "")) false [] false false)
    empty_world
  = SyntaxError 141
  ∧ ∀ w', app (λ w, w) failing_reader failing_reader VNone
            (mkInputs UploadDataset (Some (mkFile "data.csv" "")) false [] false false)
            empty_world
          ≠ Ran (Raise (NameError "upload_data"), w').
Proof. split; [reflexivity|]. intros w'. vm_compute. discriminate. Qed.



Lemma normalize_twice_witness :
  (∃ ys zs,
     scale_column (CFloat64 [F64.of_Z 1; S754_nan; F64.of_Z 5; F64.of_Z 3])
     = Some (CFloat64 ys)
     ∧ scale_column (CFloat64 ys) = Some (CFloat64 zs)
     ∧ same_cells zs ys)
  ∧ ∃ ys zs,
      scale_column (CInt64 [0; 5; 10]) = Some (CFloat64 ys)
      ∧ scale_column (CFloat64 ys) = Some (CFloat64 zs)
      ∧ same_cells zs ys.
Proof.
  split.
  - apply (proj1 normalize_twice [F64.of_Z 1; S754_nan; F64.of_Z 5; F64.of_Z 3]).
    + repeat constructor.
    + intros s. vm_compute. discriminate.
  - apply (proj2 normalize_twice [0; 5; 10]).
    assert (∀ c : Z, c ∈ [0; 5; 10] → 0 ≤ c ≤ 10) as Hrange.
    { intros c Hc. repeat (apply elem_of_cons in Hc as [-> | Hc]; [lia|]).
      apply elem_of_nil in Hc. destruct Hc. }
    intros a b Ha Hb. pose proof (Hrange a Ha). pose proof (Hrange b Hb). lia.
Defined.

Lemma normalize_selected_columns_witness :
  ∃ c c' d',
    get_col (columns complete_frame) "x" = Some c
    ∧ for_each (multiselect (numeric_cols complete_frame) ["x"])
        (normalize_column (VFrame 0%nat))
        (mkWorld ∅ {[0%nat := complete_frame]} ∅ [])
      = (Ok tt, mkWorld ∅ (<[0%nat := d']> {[0%nat := complete_frame]}) ∅ [])
    ∧ get_col (columns d') "x" = Some c'
    ∧ min_max_scaled c c'.
Proof.
  assert (distinct_names complete_frame) as Hnames.
  { unfold distinct_names. simpl. repeat constructor. intros H.
    apply elem_of_nil in H. exact H. }
  assert ("x" ∈ multiselect (numeric_cols complete_frame) ["x"]) as Hpick.
  { vm_compute. constructor. }
  exact (proj2 (proj2 normalize_selected_columns)
           (mkWorld ∅ {[0%nat := complete_frame]} ∅ []) 0%nat complete_frame
           ["x"] "x" eq_refl Hnames Hpick).
Defined.

Lemma dropna_idempotent_witness :
  dropna complete_frame = complete_frame
  ∧ dropna (dropna sample_frame) = dropna sample_frame.
Proof.
  split.
  - apply (proj1 (dropna_idempotent complete_frame)).
    + repeat constructor.
    + repeat constructor.
  - apply (proj2 (dropna_idempotent sample_frame)).
Defined.

End Samples.

(** ** More properties at sample sessions *)

Section Samples_more.

Lemma dropna_keeps_complete_rows_witness : 2 ∈ index (dropna sample_frame).
Proof.
  apply (proj2 (dropna_keeps_complete_rows sample_frame 2)).
  exists 2%nat. split; [reflexivity|]. intros nc Hin.
  unfold sample_frame in Hin. simpl in Hin.
  repeat (apply elem_of_cons in Hin as [-> | Hin]; [reflexivity|]).
  apply elem_of_nil in Hin. destruct Hin.
Defined.

Lemma isnull_sum_zero_witness :
  Forall (λ p, p.2 = 0%nat) (isnull_sum complete_frame).
Proof.
  apply (proj2 (proj1 (isnull_sum_zero complete_frame))). repeat constructor.
Defined.

Lemma scale_float_unit_interval_witness :
  F64.is_zero (F64.col_min
                 (scale_float [F64.of_Z 1; S754_nan; F64.of_Z 5; F64.of_Z 3])) = true
  ∧ F64.col_max (scale_float [F64.of_Z 1; S754_nan; F64.of_Z 5; F64.of_Z 3])
    = F64.one.
Proof.
  apply (scale_float_unit_interval [F64.of_Z 1; S754_nan; F64.of_Z 5; F64.of_Z 3]
           false 4503599627370496 (-50)).
  - repeat constructor.
  - vm_compute. reflexivity.
Defined.

Lemma scale_int_unit_interval_witness :
  F64.is_zero (F64.col_min (scale_int [0; 5; 10])) = true
  ∧ F64.col_max (scale_int [0; 5; 10]) = F64.one.
Proof.
  apply (scale_int_unit_interval [0; 5; 10]).
  - assert (∀ c : Z, c ∈ [0; 5; 10] → 0 ≤ c ≤ 10) as Hrange.
    { intros c Hc. repeat (apply elem_of_cons in Hc as [-> | Hc]; [lia|]).
      apply elem_of_nil in Hc. destruct Hc. }
    intros a b Ha Hb. pose proof (Hrange a Ha). pose proof (Hrange b Hb). lia.
  - exists 0, 5. split; [constructor|]. split; [constructor; constructor|].
    discriminate.
Defined.

Lemma normalize_keeps_rest_witness :
  ∃ d',
    for_each (multiselect (numeric_cols complete_frame) ["x"])
      (normalize_column (VFrame 0%nat))
      (mkWorld ∅ {[0%nat := complete_frame]} ∅ [])
    = (Ok tt, mkWorld ∅ (<[0%nat := d']> {[0%nat := complete_frame]}) ∅ [])
    ∧ index d' = [0; 1; 2]
    ∧ (columns d').*1 = ["x"]
    ∧ well_formed d'.
Proof.
  assert (distinct_names complete_frame) as Hnames.
  { unfold distinct_names. simpl. repeat constructor. intros H.
    apply elem_of_nil in H. exact H. }
  assert (heap (mkWorld ∅ {[0%nat := complete_frame]} ∅ []) !! 0%nat
          = Some complete_frame) as Hl by reflexivity.
  destruct (normalize_keeps_rest (mkWorld ∅ {[0%nat := complete_frame]} ∅ [])
              0%nat complete_frame ["x"] Hl Hnames)
    as (d' & Hrun & Hidx & Hn & _ & _ & Hwf).
  exists d'. split; [exact Hrun|]. split; [exact Hidx|]. split; [exact Hn|].
  apply Hwf. repeat constructor.
Defined.

Lemma feature_summary_kept_witness :
  ∃ d',
    heap (for_each (multiselect (numeric_cols complete_frame) ["x"])
            (normalize_column (VFrame 0%nat))
            (mkWorld ∅ {[0%nat := complete_frame]} ∅ [])).2 !! 0%nat = Some d'
    ∧ feature_summary d' = (1%nat, [], ["x"]).
Proof.
  assert (distinct_names complete_frame) as Hnames.
  { unfold distinct_names. simpl. repeat constructor. intros H.
    apply elem_of_nil in H. exact H. }
  assert (heap (mkWorld ∅ {[0%nat := complete_frame]} ∅ []) !! 0%nat
          = Some complete_frame) as Hl by reflexivity.
  exact (proj2 (feature_summary_kept (mkWorld ∅ {[0%nat := complete_frame]} ∅ [])
                  0%nat complete_frame ["x"]) Hl Hnames).
Defined.

Lemma menu_branches_witness : "📝 Generate Report" ∈ menu.*1.
Proof.
  apply (proj2 (proj2 (proj2 (proj2 menu_branches)))
           "📝 Generate Report" GenerateReport).
  unfold chain. repeat constructor.
Defined.

Lemma try_block_uploads_witness :
  ∃ l,
    heap uploaded_world !! l = None
    ∧ try_block (λ _, inl complete_frame) failing_reader (mkFile "data.csv" "")
        uploaded_world
      = (Ok tt,
         mkWorld (<["uploaded_df" := VFrame l]> (session_state uploaded_world))
           (<[l := complete_frame]> (heap uploaded_world)) (memory uploaded_world)
           (out uploaded_world
            ++ [Success "✅ File uploaded and saved successfully!";
                WriteHead (VFrame l)])).
Proof.
  destruct (try_block_uploads (λ _, inl complete_frame) failing_reader
              (mkFile "data.csv" "") complete_frame uploaded_world)
    as (l & Hl & Hrun & _).
  - left. split; [vm_compute; reflexivity|reflexivity].
  - exists l. split; [exact Hl|exact Hrun].
Defined.

Lemma normalize_nothing_selected_witness :
  ∃ w',
    cleaning_block (VFrame 0%nat) (mkInputs UploadDataset None false [] true false)
      (mkWorld ∅ {[0%nat := complete_frame]} ∅ []) = (Ok tt, w')
    ∧ heap w' = {[0%nat := complete_frame]}
    ∧ Success "Selected columns normalized!" ∈ out w'.
Proof.
  destruct (normalize_nothing_selected
              (mkInputs UploadDataset None false [] true false)
              (mkWorld ∅ {[0%nat := complete_frame]} ∅ []) 0%nat complete_frame)
    as (w' & Hrun & Hheap & _ & Hout); try reflexivity.
  exists w'. split; [exact Hrun|]. split; [exact Hheap|exact Hout].
Defined.

Lemma endswith_suffix_witness : endswith "data.csv" ".csv" = true.
Proof. apply (proj2 (endswith_suffix "data.csv" ".csv")). exists "data". reflexivity. Defined.

Lemma all_missing_column_empties_witness :
  index (dropna (mkFrame [0; 1] [("x", CFloat64 (scale_float [F64.one; F64.one]));
                                 ("y", CInt64 [3; 4])])) = [].
Proof.
  apply (all_missing_column_empties
           (mkFrame [0; 1] [("x", CFloat64 (scale_float [F64.one; F64.one]));
                            ("y", CInt64 [3; 4])])
           "x" (CFloat64 (scale_float [F64.one; F64.one]))).
  - constructor.
  - repeat constructor.
Defined.

Lemma sidebar_shows_resolved_witness :
  shown (prelude (λ w, w)) uploaded_world
  = [SidebarSuccess "✅ Dataset Loaded"; SidebarRows (VFrame 0%nat);
     SidebarColumns (VFrame 0%nat)].
Proof.
  apply (sidebar_shows_resolved (λ w, w) uploaded_world). intros w0. reflexivity.
Defined.

Lemma unsupported_file_warned_witness :
  try_except (try_block failing_reader failing_reader (mkFile "notes.txt" ""))
    (except_handler VNone (no_clicks UploadDataset)) uploaded_world
  = (Ok tt,
     mkWorld (session_state uploaded_world) (heap uploaded_world)
       (memory uploaded_world)
       (out uploaded_world ++ [Warning "⚠️ Please upload a CSV or Excel file."])).
Proof.
  apply (unsupported_file_warned failing_reader failing_reader
           (except_handler VNone (no_clicks UploadDataset))
           (mkFile "notes.txt" "") uploaded_world).
  - vm_compute. reflexivity.
  - vm_compute. reflexivity.
Defined.

End Samples_more.
